(** * jobhunter: the in-memory store and its request handlers

    A shallow embedding of [MemStorage] (the storage module), of the
    handlers of the routes module, and of the insert schemas of
    [schema.ts].

    Modelling conventions.
    - A JavaScript number that holds an id, a counter or a [Date]'s
      millisecond value is a [Z]: the counters start at 1 and go up by
      one, and such numbers stay far below 2^53, where doubles are exact.
    - A [jobCount] is whatever the caller of [createCategory] passes: any
      double, or nothing at all.  It is an optional double of IEEE 754,
      and the sum [jobCount + 1] is the sum of doubles.
    - A JavaScript string is a [string]; [null] and [undefined] in an
      optional text field are both [None].
    - A [Map<number, V>] is an association list in insertion order, as
      iteration over a [Map] follows insertion order and [find] returns
      the first hit in that order.
    - The [async] methods of the store contain no [await]: each runs to
      completion when it is called, so a method is a function from the
      store to a result and a new store. *)

From Stdlib Require Import ZArith List String Ascii Bool Lia.
From Stdlib Require Import Permutation Sorted.
From Stdlib Require Floats.SpecFloat.
Import ListNotations.

Local Open Scope string_scope.
Local Open Scope list_scope.
Local Open Scope Z_scope.

(* ================================================================== *)
(** ** Strings *)

(** [s.includes(t)]: [t] occurs in [s] as a contiguous substring. *)
Fixpoint includes (s t : string) : bool :=
  String.prefix t s ||
  match s with
  | EmptyString => false
  | String _ s' => includes s' t
  end.

(** JavaScript truthiness of a string: only the empty string is falsy. *)
Definition truthy (s : string) : bool :=
  match s with
  | EmptyString => false
  | String _ _ => true
  end.

(** [arr.includes(x)] on an array of strings. *)
Definition array_includes (arr : list string) (x : string) : bool :=
  existsb (String.eqb x) arr.

(** The two services of the JavaScript runtime whose result depends on
    more than the model holds: Unicode case folding, and calendar
    arithmetic in the local time zone.  [setDateBack n now] is the
    millisecond value of [d] after [d = new Date(now);
    d.setDate(now.getDate() - n)]. *)
Class Runtime := {
  toLowerCase : string -> string;
  setDateBack : Z -> Z -> Z
}.

(* ================================================================== *)
(** ** Doubles

    The numbers of JavaScript, as the standard library specifies IEEE
    754 arithmetic: 53 bits of precision, and 1024 as the exponent of
    the infinities. *)

Module Double.
(** Zeros, infinities, [NaN], and the finite numbers by sign, mantissa
    and exponent.  (The type also has finite values whose mantissa is
    not in the form a double has; a store that holds one is no store
    of the code, and a statement about all stores covers it on top.) *)
Definition t := SpecFloat.spec_float.

Definition NaN : t := SpecFloat.S754_nan.

(** The double nearest to the integer [z], which is what a numeric
    literal denotes. *)
Definition of_Z (z : Z) : t := SpecFloat.binary_normalize 53 1024 z 0 false.

(** [x + y] *)
Definition add (x y : t) : t := SpecFloat.SFadd 53 1024 x y.

(** The operand that [+] makes of a member that may be absent:
    [undefined] becomes [NaN]. *)
Definition ToNumber (o : option t) : t :=
  match o with
  | Some x => x
  | None => NaN
  end.

(** [p] shifted left by [k] binary places. *)
Definition shl (p : positive) (k : Z) : positive :=
  match k with
  | Zpos n => Pos.iter xO p n
  | _ => p
  end.

(** The double that is the integer [q], for a [q] of at most 53 bits:
    the mantissa is [q] shifted to 53 bits. *)
Definition canon (q : positive) : t :=
  SpecFloat.S754_finite false
    (shl q (53 - Zpos (SpecFloat.digits2_pos q)))
    (Zpos (SpecFloat.digits2_pos q) - 53).

(** The integer that a double is, when it is one. *)
Definition to_Z (x : t) : option Z :=
  match x with
  | SpecFloat.S754_zero _ => Some 0
  | SpecFloat.S754_finite s m e =>
      let v := if s then Zneg m else Zpos m in
      if 0 <=? e then Some (v * 2 ^ e)
      else if Zpos m mod 2 ^ (- e) =? 0 then Some (v / 2 ^ (- e))
      else None
  | _ => None
  end.
End Double.

Arguments Double.of_Z : simpl never.
Arguments Double.add : simpl never.

(* ================================================================== *)
(** ** [Map<number, V>] *)

Module JsMap.
Section Ops.
Context {V : Type}.

Definition t := list (Z * V).

Definition empty : t := [].

(** [m.get(k)] *)
Fixpoint get (k : Z) (m : t) : option V :=
  match m with
  | [] => None
  | (k', v) :: m' => if k =? k' then Some v else get k m'
  end.

(** [m.set(k, v)]: an existing key keeps its place, a new key goes
    last. *)
Fixpoint set (k : Z) (v : V) (m : t) : t :=
  match m with
  | [] => [(k, v)]
  | (k', v') :: m' =>
      if k =? k' then (k', v) :: m' else (k', v') :: set k v m'
  end.

(** [Array.from(m.values())] *)
Definition values (m : t) : list V := map snd m.

Definition keys (m : t) : list Z := map fst m.
End Ops.
Arguments t : clear implicits.
End JsMap.

(* ================================================================== *)
(** ** The entities of [schema.ts]

    Each [Insert*] type is the record of the picked columns; the stored
    entity is that record together with its [id], as built by
    [{ ...data, id }].  The column [job_count] has a default, so that
    [jobCount] is an optional member of [InsertCategory]; the store
    fills in no default, and a category made from data without a
    [jobCount] is stored without one ([None]). *)

Module User.
Record fields := {
  username : string;
  password : string;
  email : string;
  userType : string;
  companyName : option string;
  location : option string;
  bio : option string
}.
Record t := { id : Z; data : fields }.
End User.

Module Job.
Record fields := {
  title : string;
  company : string;
  location : string;
  description : string;
  requirements : string;
  salary : option string;
  jobType : string;
  category : string;
  experienceLevel : string;
  skills : list string;
  postedDate : Z;
  employerId : Z
}.
Record t := { id : Z; data : fields }.
End Job.

Module Application.
Record fields := {
  jobId : Z;
  userId : Z;
  name : string;
  email : string;
  phone : string;
  resume : string;
  coverLetter : option string;
  status : string;
  appliedDate : Z
}.
Record t := { id : Z; data : fields }.

(** [{ ...application, status }] on the fields. *)
Definition with_status (st : string) (a : fields) : fields :=
  {| jobId := jobId a; userId := userId a; name := name a;
     email := email a; phone := phone a; resume := resume a;
     coverLetter := coverLetter a; status := st;
     appliedDate := appliedDate a |}.
End Application.

Module Category.
Record fields := {
  name : string;
  icon : string;
  jobCount : option Double.t
}.
Record t := { id : Z; data : fields }.
End Category.

Abbreviation InsertUser := User.fields.
Abbreviation InsertJob := Job.fields.
Abbreviation InsertApplication := Application.fields.
Abbreviation InsertCategory := Category.fields.

(* ================================================================== *)
(** ** [MemStorage] *)

Record MemStorage := {
  users : JsMap.t User.t;
  jobs : JsMap.t Job.t;
  applications : JsMap.t Application.t;
  categories : JsMap.t Category.t;
  userIdCounter : Z;
  jobIdCounter : Z;
  applicationIdCounter : Z;
  categoryIdCounter : Z
}.

(** A method of the store: a result and the store it leaves behind. *)
Definition M (A : Type) : Type := MemStorage -> A * MemStorage.

Definition ret {A} (a : A) : M A := fun s => (a, s).

Definition bind {A B} (m : M A) (k : A -> M B) : M B :=
  fun s => let r := m s in k (fst r) (snd r).

Notation "x <- m ;; k" := (bind m (fun x => k))
  (at level 61, m at next level, right associativity).
Notation "m ;;; k" := (bind m (fun _ => k))
  (at level 61, right associativity).

(** Reads and writes of the eight private fields. *)
Definition read {A} (f : MemStorage -> A) : M A := fun s => (f s, s).

Definition write (f : MemStorage -> MemStorage) : M unit :=
  fun s => (tt, f s).

Definition set_users (m : JsMap.t User.t) (s : MemStorage) :=
  {| users := m; jobs := jobs s; applications := applications s;
     categories := categories s; userIdCounter := userIdCounter s;
     jobIdCounter := jobIdCounter s;
     applicationIdCounter := applicationIdCounter s;
     categoryIdCounter := categoryIdCounter s |}.

Definition set_jobs (m : JsMap.t Job.t) (s : MemStorage) :=
  {| users := users s; jobs := m; applications := applications s;
     categories := categories s; userIdCounter := userIdCounter s;
     jobIdCounter := jobIdCounter s;
     applicationIdCounter := applicationIdCounter s;
     categoryIdCounter := categoryIdCounter s |}.

Definition set_applications (m : JsMap.t Application.t) (s : MemStorage) :=
  {| users := users s; jobs := jobs s; applications := m;
     categories := categories s; userIdCounter := userIdCounter s;
     jobIdCounter := jobIdCounter s;
     applicationIdCounter := applicationIdCounter s;
     categoryIdCounter := categoryIdCounter s |}.

Definition set_categories (m : JsMap.t Category.t) (s : MemStorage) :=
  {| users := users s; jobs := jobs s; applications := applications s;
     categories := m; userIdCounter := userIdCounter s;
     jobIdCounter := jobIdCounter s;
     applicationIdCounter := applicationIdCounter s;
     categoryIdCounter := categoryIdCounter s |}.

Definition set_userIdCounter (c : Z) (s : MemStorage) :=
  {| users := users s; jobs := jobs s; applications := applications s;
     categories := categories s; userIdCounter := c;
     jobIdCounter := jobIdCounter s;
     applicationIdCounter := applicationIdCounter s;
     categoryIdCounter := categoryIdCounter s |}.

Definition set_jobIdCounter (c : Z) (s : MemStorage) :=
  {| users := users s; jobs := jobs s; applications := applications s;
     categories := categories s; userIdCounter := userIdCounter s;
     jobIdCounter := c;
     applicationIdCounter := applicationIdCounter s;
     categoryIdCounter := categoryIdCounter s |}.

Definition set_applicationIdCounter (c : Z) (s : MemStorage) :=
  {| users := users s; jobs := jobs s; applications := applications s;
     categories := categories s; userIdCounter := userIdCounter s;
     jobIdCounter := jobIdCounter s;
     applicationIdCounter := c;
     categoryIdCounter := categoryIdCounter s |}.

Definition set_categoryIdCounter (c : Z) (s : MemStorage) :=
  {| users := users s; jobs := jobs s; applications := applications s;
     categories := categories s; userIdCounter := userIdCounter s;
     jobIdCounter := jobIdCounter s;
     applicationIdCounter := applicationIdCounter s;
     categoryIdCounter := c |}.

(** [this.xIdCounter++]: the old value is the result. *)
Definition next_userId : M Z :=
  id <- read userIdCounter ;; write (set_userIdCounter (id + 1)) ;;; ret id.

Definition next_jobId : M Z :=
  id <- read jobIdCounter ;; write (set_jobIdCounter (id + 1)) ;;; ret id.

Definition next_applicationId : M Z :=
  id <- read applicationIdCounter ;;
  write (set_applicationIdCounter (id + 1)) ;;; ret id.

Definition next_categoryId : M Z :=
  id <- read categoryIdCounter ;;
  write (set_categoryIdCounter (id + 1)) ;;; ret id.

(** *** User operations *)

Definition getUser (id : Z) : M (option User.t) :=
  read (fun s => JsMap.get id (users s)).

Definition getUserByUsername (username : string) : M (option User.t) :=
  read (fun s =>
    find (fun user => String.eqb (User.username (User.data user)) username)
         (JsMap.values (users s))).

Definition createUser (user : InsertUser) : M User.t :=
  id <- next_userId ;;
  let newUser := {| User.id := id; User.data := user |} in
  write (fun s => set_users (JsMap.set id newUser (users s)) s) ;;;
  ret newUser.

(** *** Category operations *)

Definition getCategories : M (list Category.t) :=
  read (fun s => JsMap.values (categories s)).

Definition getCategory (id : Z) : M (option Category.t) :=
  read (fun s => JsMap.get id (categories s)).

Definition createCategory (category : InsertCategory) : M Category.t :=
  id <- next_categoryId ;;
  let newCategory := {| Category.id := id; Category.data := category |} in
  write (fun s => set_categories (JsMap.set id newCategory (categories s)) s) ;;;
  ret newCategory.

Definition incrementCategoryJobCount (id : Z) : M (option Category.t) :=
  found <- read (fun s => JsMap.get id (categories s)) ;;
  match found with
  | None => ret None
  | Some category =>
      let updatedCategory :=
        {| Category.id := Category.id category;
           Category.data :=
             {| Category.name := Category.name (Category.data category);
                Category.icon := Category.icon (Category.data category);
                Category.jobCount :=
                  Some (Double.add
                          (Double.ToNumber
                             (Category.jobCount (Category.data category)))
                          (Double.of_Z 1)) |} |} in
      write (fun s =>
        set_categories (JsMap.set id updatedCategory (categories s)) s) ;;;
      ret (Some updatedCategory)
  end.

(** *** Job operations *)

Definition getJob (id : Z) : M (option Job.t) :=
  read (fun s => JsMap.get id (jobs s)).

Definition createJob (job : InsertJob) : M Job.t :=
  id <- next_jobId ;;
  let newJob := {| Job.id := id; Job.data := job |} in
  write (fun s => set_jobs (JsMap.set id newJob (jobs s)) s) ;;;
  category <- read (fun s =>
    find (fun cat =>
            String.eqb (Category.name (Category.data cat)) (Job.category job))
         (JsMap.values (categories s))) ;;
  match category with
  | Some category => incrementCategoryJobCount (Category.id category) ;;; ret tt
  | None => ret tt
  end ;;;
  ret newJob.

Definition getJobsByEmployer (employerId : Z) : M (list Job.t) :=
  read (fun s =>
    filter (fun job => Job.employerId (Job.data job) =? employerId)
           (JsMap.values (jobs s))).

(** *** Application operations *)

Definition getApplicationsByJob (jobId : Z) : M (list Application.t) :=
  read (fun s =>
    filter (fun a => Application.jobId (Application.data a) =? jobId)
           (JsMap.values (applications s))).

Definition getApplicationsByUser (userId : Z) : M (list Application.t) :=
  read (fun s =>
    filter (fun a => Application.userId (Application.data a) =? userId)
           (JsMap.values (applications s))).

Definition createApplication (application : InsertApplication)
  : M Application.t :=
  id <- next_applicationId ;;
  let newApplication :=
    {| Application.id := id; Application.data := application |} in
  write (fun s =>
    set_applications (JsMap.set id newApplication (applications s)) s) ;;;
  ret newApplication.

Definition updateApplicationStatus (id : Z) (status : string)
  : M (option Application.t) :=
  found <- read (fun s => JsMap.get id (applications s)) ;;
  match found with
  | None => ret None
  | Some application =>
      let updatedApplication :=
        {| Application.id := Application.id application;
           Application.data :=
             Application.with_status status (Application.data application) |} in
      write (fun s =>
        set_applications
          (JsMap.set id updatedApplication (applications s)) s) ;;;
      ret (Some updatedApplication)
  end.

(** *** Construction *)

Definition defaultCategories : list InsertCategory :=
  [ {| Category.name := "Technology"; Category.icon := "fa-laptop-code";
       Category.jobCount := Some (Double.of_Z 1245) |};
    {| Category.name := "Business"; Category.icon := "fa-chart-line";
       Category.jobCount := Some (Double.of_Z 879) |};
    {| Category.name := "Design"; Category.icon := "fa-paint-brush";
       Category.jobCount := Some (Double.of_Z 623) |};
    {| Category.name := "Marketing"; Category.icon := "fa-bullhorn";
       Category.jobCount := Some (Double.of_Z 542) |};
    {| Category.name := "Healthcare"; Category.icon := "fa-heartbeat";
       Category.jobCount := Some (Double.of_Z 1032) |};
    {| Category.name := "Education"; Category.icon := "fa-graduation-cap";
       Category.jobCount := Some (Double.of_Z 478) |};
    {| Category.name := "Legal"; Category.icon := "fa-gavel";
       Category.jobCount := Some (Double.of_Z 326) |};
    {| Category.name := "Hospitality"; Category.icon := "fa-utensils";
       Category.jobCount := Some (Double.of_Z 587) |} ].

(** [arr.forEach(f)] for an [f] that acts on the store. *)
Fixpoint forEach {A} (f : A -> M unit) (arr : list A) : M unit :=
  match arr with
  | [] => ret tt
  | x :: arr' => f x ;;; forEach f arr'
  end.

Definition initializeCategories : M unit :=
  forEach (fun category => createCategory category ;;; ret tt)
          defaultCategories.

(** [new MemStorage()] *)
Definition constructor : MemStorage :=
  snd (initializeCategories
         {| users := JsMap.empty; jobs := JsMap.empty;
            applications := JsMap.empty; categories := JsMap.empty;
            userIdCounter := 1; jobIdCounter := 1;
            applicationIdCounter := 1; categoryIdCounter := 1 |}).

(* ================================================================== *)
(** ** The salary filter of [getJobs] *)

(** [\d]: an ASCII decimal digit. *)
Definition is_digit (c : ascii) : bool :=
  (48 <=? nat_of_ascii c)%nat && (nat_of_ascii c <=? 57)%nat.

Definition digit_value (c : ascii) : Z := Z.of_nat (nat_of_ascii c) - 48.

(** [s.replace(/[^\d]/g, '')] *)
Fixpoint strip_non_digits (s : string) : string :=
  match s with
  | EmptyString => EmptyString
  | String c s' =>
      if is_digit c then String c (strip_non_digits s')
      else strip_non_digits s'
  end.

(** [s.replace(/,/g, '')] *)
Fixpoint strip_commas (s : string) : string :=
  match s with
  | EmptyString => EmptyString
  | String c s' =>
      if Ascii.eqb c "," then strip_commas s' else String c (strip_commas s')
  end.

Fixpoint parse_digits (acc : Z) (s : string) : Z :=
  match s with
  | EmptyString => acc
  | String c s' =>
      if is_digit c then parse_digits (10 * acc + digit_value c) s' else acc
  end.

(** [parseInt(s)] for the strings it is given here, which hold decimal
    digits only: the number they spell, read exactly, and [NaN] ([None])
    for the empty string.  (White space, a sign or a [0x] prefix, which
    the general function also reads, cannot occur.)  The code's result
    is the double nearest to that number, which is the number itself as
    long as it is below 2^53, hence for up to 15 digits. *)
Definition parseInt (s : string) : option Z :=
  match s with
  | EmptyString => None
  | String c _ => if is_digit c then Some (parse_digits 0 s) else None
  end.

(** [a >= b] on numbers, false as soon as one of them is [NaN]. *)
Definition num_ge (a b : option Z) : bool :=
  match a, b with
  | Some x, Some y => y <=? x
  | _, _ => false
  end.

(** The pattern of the salary filter: a dollar sign, then (captured) one
    to three digits and any number of groups of a comma and exactly three
    digits.  Both quantifiers are greedy and nothing follows them in the
    pattern, so the first attempt at a position is the match and no
    backtracking takes place. *)

(** [\d{1,3}]: up to [n] digits from the front of [s], and the rest. *)
Fixpoint take_digits (n : nat) (s : string) : string * string :=
  match n, s with
  | S n', String c s' =>
      if is_digit c
      then let r := take_digits n' s' in (String c (fst r), snd r)
      else (EmptyString, s)
  | _, _ => (EmptyString, s)
  end.

(** The starred group: the groups of a comma and three digits at the
    front of [s]. *)
Fixpoint take_groups (s : string) : string :=
  match s with
  | String c0 (String c1 (String c2 (String c3 s'))) =>
      if Ascii.eqb c0 "," && is_digit c1 && is_digit c2 && is_digit c3
      then String c0 (String c1 (String c2 (String c3 (take_groups s'))))
      else EmptyString
  | _ => EmptyString
  end.

(** The pattern anchored at the front of [s]: capture group 1. *)
Definition match_here (s : string) : option string :=
  match s with
  | String c s' =>
      if Ascii.eqb c "$" then
        let r := take_digits 3 s' in
        if truthy (fst r)
        then Some (String.append (fst r) (take_groups (snd r)))
        else None
      else None
  | EmptyString => None
  end.

(** [salary.match(pattern)]: capture group 1 of the leftmost
    match, [None] when the pattern matches nowhere. *)
Fixpoint salary_match (s : string) : option string :=
  match match_here s with
  | Some g => Some g
  | None =>
      match s with
      | EmptyString => None
      | String _ s' => salary_match s'
      end
  end.

(** The callback of the salary filter, [minSalary] being computed once
    before the filter runs. *)
Definition salary_keeps (minSalary : option Z) (job : Job.t) : bool :=
  match Job.salary (Job.data job) with
  | None => false
  | Some salary =>
      if negb (truthy salary) then false
      else
        match salary_match salary with
        | None => false
        | Some g =>
            let jobMinSalary := parseInt (strip_commas g) in
            num_ge jobMinSalary minSalary
        end
  end.

(* ================================================================== *)
(** ** [getJobs] *)

Module Filters.
(** The optional members of the filter object; [None] is an absent
    (undefined) member. *)
Record t := {
  search : option string;
  location : option string;
  category : option string;
  jobType : option (list string);
  experienceLevel : option (list string);
  datePosted : option string;
  salaryRange : option string
}.

(** The same filter object with one member replaced. *)
Definition with_search (v : option string) (f : t) : t :=
  {| search := v; location := location f; category := category f;
     jobType := jobType f; experienceLevel := experienceLevel f;
     datePosted := datePosted f; salaryRange := salaryRange f |}.

Definition with_location (v : option string) (f : t) : t :=
  {| search := search f; location := v; category := category f;
     jobType := jobType f; experienceLevel := experienceLevel f;
     datePosted := datePosted f; salaryRange := salaryRange f |}.

Definition with_category (v : option string) (f : t) : t :=
  {| search := search f; location := location f; category := v;
     jobType := jobType f; experienceLevel := experienceLevel f;
     datePosted := datePosted f; salaryRange := salaryRange f |}.

Definition with_jobType (v : option (list string)) (f : t) : t :=
  {| search := search f; location := location f; category := category f;
     jobType := v; experienceLevel := experienceLevel f;
     datePosted := datePosted f; salaryRange := salaryRange f |}.

Definition with_experienceLevel (v : option (list string)) (f : t) : t :=
  {| search := search f; location := location f; category := category f;
     jobType := jobType f; experienceLevel := v;
     datePosted := datePosted f; salaryRange := salaryRange f |}.
End Filters.

(** [arr.sort(compare)]: the sort is stable, so its result is that of
    inserting each element, from the last to the first, before the first
    element it does not have to follow. *)
Fixpoint sort_insert {A} (compare : A -> A -> Z) (x : A) (l : list A)
  : list A :=
  match l with
  | [] => [x]
  | y :: l' =>
      if compare x y <=? 0 then x :: l else y :: sort_insert compare x l'
  end.

Definition array_sort {A} (compare : A -> A -> Z) (l : list A) : list A :=
  fold_right (sort_insert compare) [] l.

(** [(a, b) => new Date(b.postedDate).getTime() -
               new Date(a.postedDate).getTime()] *)
Definition by_most_recent (a b : Job.t) : Z :=
  Job.postedDate (Job.data b) - Job.postedDate (Job.data a).

Section GetJobs.
Context `{Runtime}.

(** The guard [if (filters.x)] on an optional string, and the body that
    runs under it. *)
Definition when_set (o : option string)
    (body : string -> list Job.t -> list Job.t) (jobs : list Job.t)
  : list Job.t :=
  match o with
  | Some v => if truthy v then body v jobs else jobs
  | None => jobs
  end.

(** The guard [if (filters.x && filters.x.length > 0)] on an optional
    array. *)
Definition when_nonempty (o : option (list string))
    (body : list string -> list Job.t -> list Job.t) (jobs : list Job.t)
  : list Job.t :=
  match o with
  | Some (x :: l) => body (x :: l) jobs
  | _ => jobs
  end.

Definition search_keeps (searchTerm : string) (job : Job.t) : bool :=
  includes (toLowerCase (Job.title (Job.data job))) searchTerm ||
  includes (toLowerCase (Job.company (Job.data job))) searchTerm ||
  includes (toLowerCase (Job.description (Job.data job))) searchTerm.

Definition location_keeps (locationTerm : string) (job : Job.t) : bool :=
  includes (toLowerCase (Job.location (Job.data job))) locationTerm.

Definition category_keeps (category : string) (job : Job.t) : bool :=
  String.eqb (Job.category (Job.data job)) category.

Definition jobType_keeps (jobType : list string) (job : Job.t) : bool :=
  array_includes jobType (Job.jobType (Job.data job)).

Definition experienceLevel_keeps (levels : list string) (job : Job.t)
  : bool :=
  array_includes levels (Job.experienceLevel (Job.data job)).

(** [new Date(job.postedDate) >= jobDate] *)
Definition posted_since (jobDate : Z) (job : Job.t) : bool :=
  jobDate <=? Job.postedDate (Job.data job).

(** The [switch] on [filters.datePosted]: the number of days to go
    back, [None] for the default branch. *)
Definition datePosted_days (datePosted : string) : option Z :=
  if String.eqb datePosted "last24h" then Some 1
  else if String.eqb datePosted "last3d" then Some 3
  else if String.eqb datePosted "last7d" then Some 7
  else if String.eqb datePosted "last14d" then Some 14
  else None.

Definition getJobs (now : Z) (filters : option Filters.t)
  : M (list Job.t) :=
  read (fun s =>
    let jobs := JsMap.values (jobs s) in
    let jobs :=
      match filters with
      | None => jobs
      | Some filters =>
          let jobs :=
            when_set (Filters.search filters)
              (fun search jobs =>
                 let searchTerm := toLowerCase search in
                 filter (search_keeps searchTerm) jobs) jobs in
          let jobs :=
            when_set (Filters.location filters)
              (fun location jobs =>
                 let locationTerm := toLowerCase location in
                 filter (location_keeps locationTerm) jobs) jobs in
          let jobs :=
            when_set (Filters.category filters)
              (fun category jobs => filter (category_keeps category) jobs)
              jobs in
          let jobs :=
            when_nonempty (Filters.jobType filters)
              (fun jobType jobs => filter (jobType_keeps jobType) jobs)
              jobs in
          let jobs :=
            when_nonempty (Filters.experienceLevel filters)
              (fun levels jobs =>
                 filter (experienceLevel_keeps levels) jobs) jobs in
          let jobs :=
            when_set (Filters.datePosted filters)
              (fun datePosted jobs =>
                 match datePosted_days datePosted with
                 | Some n =>
                     let jobDate := setDateBack n now in
                     filter (posted_since jobDate) jobs
                 | None => jobs
                 end) jobs in
          let jobs :=
            when_set (Filters.salaryRange filters)
              (fun salaryRange jobs =>
                 let minSalary :=
                   parseInt (strip_non_digits salaryRange) in
                 filter (salary_keeps minSalary) jobs) jobs in
          jobs
      end in
    array_sort by_most_recent jobs).
End GetJobs.

(* ================================================================== *)
(** ** The insert schemas of [schema.ts] *)

#[local] Set Warnings "-register-all".

(** A value of a request body. *)
Inductive value :=
| VNull
| VBool (b : bool)
| VNumber (n : Z)
| VString (s : string)
| VDate (t : Z)
| VArray (l : list value).

(** An object: its properties in order; [prop o k] is [o.k], [None] for
    [undefined]. *)
Definition object := list (string * value).

Fixpoint prop (o : object) (k : string) : option value :=
  match o with
  | [] => None
  | (k', v) :: o' => if String.eqb k k' then Some v else prop o' k
  end.

(** [o.k = v] *)
Fixpoint set_prop (o : object) (k : string) (v : value) : object :=
  match o with
  | [] => [(k, v)]
  | (k', v') :: o' =>
      if String.eqb k k' then (k', v) :: o' else (k', v') :: set_prop o' k v
  end.

(** Truthiness of [o.k]: [undefined], [null], [false], [0] and the empty
    string are falsy; a [Date] and an array are objects, hence truthy. *)
Definition prop_truthy (v : option value) : bool :=
  match v with
  | None | Some VNull => false
  | Some (VBool b) => b
  | Some (VNumber n) => negb (n =? 0)
  | Some (VString s) => truthy s
  | Some (VDate _) | Some (VArray _) => true
  end.

Module Schema.
Inductive dataType := serial | text | integer | timestamp | text_array.

(** A column of a [pgTable]. *)
Record column := {
  col_type : dataType;
  col_notNull : bool;
  col_hasDefault : bool
}.

Definition col (t : dataType) : column :=
  {| col_type := t; col_notNull := false; col_hasDefault := false |}.

Definition notNull (c : column) : column :=
  {| col_type := col_type c; col_notNull := true;
     col_hasDefault := col_hasDefault c |}.

Definition default (c : column) : column :=
  {| col_type := col_type c; col_notNull := col_notNull c;
     col_hasDefault := true |}.

(** A [serial] column is generated by the database; a primary key is
    not null; [unique] and [array] change neither flag. *)
Definition primaryKey (c : column) : column := notNull (default c).
Definition unique (c : column) : column := c.

Definition table := list (string * column).

Definition users : table :=
  [ ("id", primaryKey (col serial));
    ("username", unique (notNull (col text)));
    ("password", notNull (col text));
    ("email", notNull (col text));
    ("userType", notNull (col text));
    ("companyName", col text);
    ("location", col text);
    ("bio", col text) ].

Definition jobs : table :=
  [ ("id", primaryKey (col serial));
    ("title", notNull (col text));
    ("company", notNull (col text));
    ("location", notNull (col text));
    ("description", notNull (col text));
    ("requirements", notNull (col text));
    ("salary", col text);
    ("jobType", notNull (col text));
    ("category", notNull (col text));
    ("experienceLevel", notNull (col text));
    ("skills", notNull (col text_array));
    ("postedDate", notNull (col timestamp));
    ("employerId", notNull (col integer)) ].

Definition applications : table :=
  [ ("id", primaryKey (col serial));
    ("jobId", notNull (col integer));
    ("userId", notNull (col integer));
    ("name", notNull (col text));
    ("email", notNull (col text));
    ("phone", notNull (col text));
    ("resume", notNull (col text));
    ("coverLetter", col text);
    ("status", notNull (col text));
    ("appliedDate", notNull (col timestamp)) ].

Definition categories : table :=
  [ ("id", primaryKey (col serial));
    ("name", notNull (col text));
    ("icon", notNull (col text));
    ("jobCount", default (notNull (col integer))) ].

(** A member of an object schema. *)
Record member := {
  m_type : dataType;
  m_optional : bool;
  m_nullable : bool
}.

Definition schema := list (string * member).

(** [createInsertSchema(table)], the rule of the drizzle-zod library: a
    column that may be null yields a nullable, optional member; a
    column that is not null but has a default yields an optional
    member; a column that is not null and has no default yields a
    required member. *)
Definition createInsertSchema (t : table) : schema :=
  map (fun kc =>
         (fst kc,
          {| m_type := col_type (snd kc);
             m_optional :=
               negb (col_notNull (snd kc)) || col_hasDefault (snd kc);
             m_nullable := negb (col_notNull (snd kc)) |})) t.

(** [schema.pick({ k: true, ... })] *)
Definition pick (keys : list string) (sch : schema) : schema :=
  filter (fun km => existsb (String.eqb (fst km)) keys) sch.

Definition insertUserSchema : schema :=
  pick ["username"; "password"; "email"; "userType"; "companyName";
        "location"; "bio"] (createInsertSchema users).

Definition insertJobSchema : schema :=
  pick ["title"; "company"; "location"; "description"; "requirements";
        "salary"; "jobType"; "category"; "experienceLevel"; "skills";
        "postedDate"; "employerId"] (createInsertSchema jobs).

Definition insertApplicationSchema : schema :=
  pick ["jobId"; "userId"; "name"; "email"; "phone"; "resume";
        "coverLetter"; "status"; "appliedDate"]
       (createInsertSchema applications).

Definition insertCategorySchema : schema :=
  pick ["name"; "icon"; "jobCount"] (createInsertSchema categories).

Definition is_string (v : value) : bool :=
  match v with VString _ => true | _ => false end.

(** The numbers that the schema of an [integer] or a [serial] column
    lets through: the integers of 32 bits. *)
Definition int32 (n : Z) : bool :=
  (-2147483648 <=? n) && (n <=? 2147483647).

(** The base check of a member: a string for [text], an integer of 32
    bits for [integer] and [serial], a [Date] for [timestamp], an array
    of strings for a text array. *)
Definition type_ok (t : dataType) (v : value) : bool :=
  match t, v with
  | text, VString _ => true
  | integer, VNumber n | serial, VNumber n => int32 n
  | timestamp, VDate _ => true
  | text_array, VArray l => forallb is_string l
  | _, _ => false
  end.

Definition member_ok (m : member) (v : option value) : bool :=
  match v with
  | None => m_optional m
  | Some VNull => m_nullable m
  | Some v => type_ok (m_type m) v
  end.

(** A [ZodError]: the keys whose value fails its member's check. *)
Definition ZodError := list string.

Definition issues (sch : schema) (body : object) : ZodError :=
  map fst (filter (fun km => negb (member_ok (snd km) (prop body (fst km))))
                  sch).

(** The parsed object: the members of the schema that the body
    defines, other keys being stripped. *)
Definition strip (sch : schema) (body : object) : object :=
  flat_map (fun km =>
              match prop body (fst km) with
              | Some v => [(fst km, v)]
              | None => []
              end) sch.

(** [schema.parse(body)]: the parsed object, or the error thrown. *)
Definition parse (sch : schema) (body : object) : ZodError + object :=
  match issues sch body with
  | [] => inr (strip sch body)
  | e => inl e
  end.
End Schema.

(** The typed reading of a parsed object, as the store's methods see it. *)
Definition str_prop (o : object) (k : string) : string :=
  match prop o k with Some (VString s) => s | _ => EmptyString end.

Definition opt_str_prop (o : object) (k : string) : option string :=
  match prop o k with Some (VString s) => Some s | _ => None end.

Definition num_prop (o : object) (k : string) : Z :=
  match prop o k with Some (VNumber n) => n | _ => 0 end.

Definition date_prop (o : object) (k : string) : Z :=
  match prop o k with Some (VDate t) => t | _ => 0 end.

Definition strs_prop (o : object) (k : string) : list string :=
  match prop o k with
  | Some (VArray l) =>
      flat_map (fun v => match v with VString s => [s] | _ => [] end) l
  | _ => []
  end.

Definition as_InsertUser (o : object) : InsertUser :=
  {| User.username := str_prop o "username";
     User.password := str_prop o "password";
     User.email := str_prop o "email";
     User.userType := str_prop o "userType";
     User.companyName := opt_str_prop o "companyName";
     User.location := opt_str_prop o "location";
     User.bio := opt_str_prop o "bio" |}.

Definition as_InsertJob (o : object) : InsertJob :=
  {| Job.title := str_prop o "title";
     Job.company := str_prop o "company";
     Job.location := str_prop o "location";
     Job.description := str_prop o "description";
     Job.requirements := str_prop o "requirements";
     Job.salary := opt_str_prop o "salary";
     Job.jobType := str_prop o "jobType";
     Job.category := str_prop o "category";
     Job.experienceLevel := str_prop o "experienceLevel";
     Job.skills := strs_prop o "skills";
     Job.postedDate := date_prop o "postedDate";
     Job.employerId := num_prop o "employerId" |}.

Definition as_InsertApplication (o : object) : InsertApplication :=
  {| Application.jobId := num_prop o "jobId";
     Application.userId := num_prop o "userId";
     Application.name := str_prop o "name";
     Application.email := str_prop o "email";
     Application.phone := str_prop o "phone";
     Application.resume := str_prop o "resume";
     Application.coverLetter := opt_str_prop o "coverLetter";
     Application.status := str_prop o "status";
     Application.appliedDate := date_prop o "appliedDate" |}.

(* ================================================================== *)
(** ** The [POST] handlers

    The store's methods do not throw, so the only error a handler
    catches is the [ZodError] of [parse]; the branch that answers 500 is
    never taken and is left out. *)

Inductive payload :=
| JUser (u : User.t)
| JJob (j : Job.t)
| JApplication (a : Application.t)
| JMessage (message : string)
| JZodMessage (error : Schema.ZodError).  (* fromZodError(error).message *)

Record response := { status : Z; json : payload }.

(** [POST /api/users] *)
Definition post_users (body : object) : M response :=
  match Schema.parse Schema.insertUserSchema body with
  | inl error => ret {| status := 400; json := JZodMessage error |}
  | inr parsed =>
      let userData := as_InsertUser parsed in
      existingUser <- getUserByUsername (User.username userData) ;;
      match existingUser with
      | Some _ =>
          ret {| status := 400; json := JMessage "Username already exists" |}
      | None =>
          newUser <- createUser userData ;;
          ret {| status := 201; json := JUser newUser |}
      end
  end.

(** [POST /api/jobs]; [now] is the value of [new Date()]. *)
Definition post_jobs (now : Z) (body : object) : M response :=
  match Schema.parse Schema.insertJobSchema body with
  | inl error => ret {| status := 400; json := JZodMessage error |}
  | inr jobData =>
      let jobData :=
        if negb (prop_truthy (prop jobData "postedDate"))
        then set_prop jobData "postedDate" (VDate now)
        else jobData in
      newJob <- createJob (as_InsertJob jobData) ;;
      ret {| status := 201; json := JJob newJob |}
  end.

(** [POST /api/applications] *)
Definition post_applications (now : Z) (body : object) : M response :=
  match Schema.parse Schema.insertApplicationSchema body with
  | inl error => ret {| status := 400; json := JZodMessage error |}
  | inr applicationData =>
      let applicationData :=
        if negb (prop_truthy (prop applicationData "status"))
        then set_prop applicationData "status" (VString "applied")
        else applicationData in
      let applicationData :=
        if negb (prop_truthy (prop applicationData "appliedDate"))
        then set_prop applicationData "appliedDate" (VDate now)
        else applicationData in
      newApplication <-
        createApplication (as_InsertApplication applicationData) ;;
      ret {| status := 201; json := JApplication newApplication |}
  end.

(* ================================================================== *)
(** ** Calls and reachable stores *)

(** The methods of the store that write to it.  The other methods only
    read ([read] returns the store it was given). *)
Inductive call :=
| CreateUser (user : InsertUser)
| CreateJob (job : InsertJob)
| CreateApplication (application : InsertApplication)
| UpdateApplicationStatus (id : Z) (status : string)
| CreateCategory (category : InsertCategory)
| IncrementCategoryJobCount (id : Z).

Definition run (c : call) (s : MemStorage) : MemStorage :=
  match c with
  | CreateUser user => snd (createUser user s)
  | CreateJob job => snd (createJob job s)
  | CreateApplication application => snd (createApplication application s)
  | UpdateApplicationStatus id status =>
      snd (updateApplicationStatus id status s)
  | CreateCategory category => snd (createCategory category s)
  | IncrementCategoryJobCount id => snd (incrementCategoryJobCount id s)
  end.

Definition run_all (cs : list call) (s : MemStorage) : MemStorage :=
  fold_left (fun s c => run c s) cs s.

(** The stores that a program can hold: the freshly constructed one, and
    those that calls lead to from it. *)
Inductive reachable : MemStorage -> Prop :=
| reachable_new : reachable constructor
| reachable_call s c : reachable s -> reachable (run c s).

(** The ids [1, 2, ..., c - 1], in this order. *)
Definition ids_below (c : Z) : list Z :=
  map Z.of_nat (seq 1 (Z.to_nat (c - 1))).

(** A collection and its counter agree: the keys are the ids handed out
    so far, in the order they were handed out, and every record is
    stored under the id it carries. *)
Definition table_ok {V} (idof : V -> Z) (m : JsMap.t V) (c : Z) : Prop :=
  1 <= c /\
  JsMap.keys m = ids_below c /\
  Forall (fun kv => idof (snd kv) = fst kv) m.

Definition store_ok (s : MemStorage) : Prop :=
  table_ok User.id (users s) (userIdCounter s) /\
  table_ok Job.id (jobs s) (jobIdCounter s) /\
  table_ok Application.id (applications s) (applicationIdCounter s) /\
  table_ok Category.id (categories s) (categoryIdCounter s).

(** Two applications that differ at most in their status. *)
Definition same_but_status (a b : Application.t) : Prop :=
  Application.id b = Application.id a /\
  Application.data b =
    Application.with_status (Application.status (Application.data b))
                            (Application.data a).

(** Two categories that differ at most in their job count. *)
Definition same_but_jobCount (a b : Category.t) : Prop :=
  Category.id b = Category.id a /\
  Category.name (Category.data b) = Category.name (Category.data a) /\
  Category.icon (Category.data b) = Category.icon (Category.data a).

(** [createJob], step by step: the store [s1] after the job is stored,
    then the increment on the first category of the same name. *)
Definition category_named (name : string) (s : MemStorage)
  : option Category.t :=
  find (fun cat => String.eqb (Category.name (Category.data cat)) name)
       (JsMap.values (categories s)).

Definition job_stored (job : InsertJob) (s : MemStorage) : MemStorage :=
  let id := jobIdCounter s in
  set_jobs (JsMap.set id {| Job.id := id; Job.data := job |} (jobs s))
           (set_jobIdCounter (id + 1) s).

(** What later calls keep of a store [s] in a store [s']: every user and
    every job under its id, unchanged; every application under its id,
    up to its status; every category under its id, up to its job
    count. *)
Definition kept (s s' : MemStorage) : Prop :=
  (forall k u, JsMap.get k (users s) = Some u ->
               JsMap.get k (users s') = Some u) /\
  (forall k j, JsMap.get k (jobs s) = Some j ->
               JsMap.get k (jobs s') = Some j) /\
  (forall k a, JsMap.get k (applications s) = Some a ->
     exists a', JsMap.get k (applications s') = Some a' /\
                same_but_status a a') /\
  (forall k c, JsMap.get k (categories s) = Some c ->
     exists c', JsMap.get k (categories s') = Some c' /\
                same_but_jobCount c c').

(** What the four create operations do with ids in a store [s]: each
    returns the value of its counter as the id, appends that id to the
    keys of its collection and moves the counter up by one. *)
Definition creates_take_counter (s : MemStorage) : Prop :=
  (forall user,
     let r := createUser user s in
     User.id (fst r) = userIdCounter s /\
     JsMap.keys (users (snd r)) = JsMap.keys (users s) ++ [userIdCounter s]
     /\ userIdCounter (snd r) = userIdCounter s + 1) /\
  (forall job,
     let r := createJob job s in
     Job.id (fst r) = jobIdCounter s /\
     JsMap.keys (jobs (snd r)) = JsMap.keys (jobs s) ++ [jobIdCounter s]
     /\ jobIdCounter (snd r) = jobIdCounter s + 1) /\
  (forall application,
     let r := createApplication application s in
     Application.id (fst r) = applicationIdCounter s /\
     JsMap.keys (applications (snd r))
       = JsMap.keys (applications s) ++ [applicationIdCounter s]
     /\ applicationIdCounter (snd r) = applicationIdCounter s + 1) /\
  (forall category,
     let r := createCategory category s in
     Category.id (fst r) = categoryIdCounter s /\
     JsMap.keys (categories (snd r))
       = JsMap.keys (categories s) ++ [categoryIdCounter s]
     /\ categoryIdCounter (snd r) = categoryIdCounter s + 1).

(** [{ ...category, jobCount: category.jobCount + 1 }] *)
Definition with_one_more_job (category : Category.t) : Category.t :=
  {| Category.id := Category.id category;
     Category.data :=
       {| Category.name := Category.name (Category.data category);
          Category.icon := Category.icon (Category.data category);
          Category.jobCount :=
            Some (Double.add
                    (Double.ToNumber
                       (Category.jobCount (Category.data category)))
                    (Double.of_Z 1)) |} |}.

(** The job count [after] is the job count [before] plus exactly one:
    both are integers, and the second is one more than the first. *)
Definition one_more (before after : option Double.t) : Prop :=
  exists x y z,
    before = Some x /\ after = Some y /\
    Double.to_Z x = Some z /\ Double.to_Z y = Some (z + 1).

(** [c] is a category of the store that bears the name [name]. *)
Definition has_name (name : string) (s : MemStorage) (c : Category.t)
  : Prop :=
  In c (JsMap.values (categories s)) /\
  Category.name (Category.data c) = name.

(* ================================================================== *)
(** ** The filters of [getJobs] as one test

    The filters that [getJobs] applies one after the other, as a single
    test on a job: the conjunction of the callbacks of the filters whose
    guard holds.  The guard of a text filter holds when its value is a
    non-empty string, that of a set filter when its value is a non-empty
    array. *)

Definition supplied_text (o : option string) : option string :=
  match o with
  | Some v => if truthy v then Some v else None
  | None => None
  end.

Definition supplied_set (o : option (list string)) : option (list string) :=
  match o with
  | Some (x :: l) => Some (x :: l)
  | _ => None
  end.

(** The constraint of one filter on a job: its test when the filter is
    supplied, none otherwise. *)
Definition constrains {A} (o : option A) (test : A -> Job.t -> bool)
    (job : Job.t) : bool :=
  match o with
  | Some v => test v job
  | None => true
  end.

Section Satisfies.
Context `{Runtime}.

Definition datePosted_keeps (now : Z) (datePosted : string) (job : Job.t)
  : bool :=
  match datePosted_days datePosted with
  | Some n => posted_since (setDateBack n now) job
  | None => true
  end.

(** [job] passes the callback of every filter whose guard holds. *)
Definition satisfies (now : Z) (filters : option Filters.t) (job : Job.t)
  : bool :=
  match filters with
  | None => true
  | Some f =>
      constrains (supplied_text (Filters.search f))
                 (fun v => search_keeps (toLowerCase v)) job &&
      constrains (supplied_text (Filters.location f))
                 (fun v => location_keeps (toLowerCase v)) job &&
      constrains (supplied_text (Filters.category f)) category_keeps job &&
      constrains (supplied_set (Filters.jobType f)) jobType_keeps job &&
      constrains (supplied_set (Filters.experienceLevel f))
                 experienceLevel_keeps job &&
      constrains (supplied_text (Filters.datePosted f))
                 (datePosted_keeps now) job &&
      constrains (supplied_text (Filters.salaryRange f))
                 (fun v => salary_keeps (parseInt (strip_non_digits v)))
                 job
  end.
End Satisfies.

(** Most recent first. *)
Definition newest_first (l : list Job.t) : Prop :=
  StronglySorted
    (fun a b => Job.postedDate (Job.data b) <= Job.postedDate (Job.data a)) l.

(* ================================================================== *)
(** ** The salary filter as the specification words it

    Following the specification: the job's minimum salary is the first
    dollar-amount-like token of the salary text, that is a dollar sign
    followed by digits with optional comma grouping, and the job is kept
    when that amount is at least the number left of the filter value
    once all its non-digits are stripped.  The token is a dollar sign, a
    run of digits, and any groups of a comma and three digits after
    it. *)

(** The digits at the front of [s], and the rest. *)
Fixpoint take_all_digits (s : string) : string * string :=
  match s with
  | String c s' =>
      if is_digit c
      then let r := take_all_digits s' in (String c (fst r), snd r)
      else (EmptyString, s)
  | EmptyString => (EmptyString, s)
  end.

Definition spec_token_here (s : string) : option string :=
  match s with
  | String c s' =>
      if Ascii.eqb c "$" then
        let r := take_all_digits s' in
        if truthy (fst r)
        then Some (String.append (fst r) (take_groups (snd r)))
        else None
      else None
  | EmptyString => None
  end.

Fixpoint spec_salary_token (s : string) : option string :=
  match spec_token_here s with
  | Some g => Some g
  | None =>
      match s with
      | EmptyString => None
      | String _ s' => spec_salary_token s'
      end
  end.

Definition spec_salary_keeps (salaryRange : string) (job : Job.t) : bool :=
  match Job.salary (Job.data job) with
  | None => false
  | Some salary =>
      match spec_salary_token salary with
      | None => false
      | Some g =>
          num_ge (parseInt (strip_commas g))
                 (parseInt (strip_non_digits salaryRange))
      end
  end.

(** [s] begins with [n] digits. *)
Fixpoint starts_with_digits (n : nat) (s : string) : bool :=
  match n, s with
  | O, _ => true
  | S n', String c s' => is_digit c && starts_with_digits n' s'
  | S _, EmptyString => false
  end.

(** Somewhere in [s] a dollar sign is followed by four digits in a row,
    as in an amount written without commas. *)
Fixpoint has_long_amount (s : string) : bool :=
  match s with
  | EmptyString => false
  | String c s' =>
      (Ascii.eqb c "$" && starts_with_digits 4 s') || has_long_amount s'
  end.

(* ================================================================== *)
(** ** The filters of [getJobs] as the specification words them

    Following the specification, filter by filter: a case-insensitive
    substring match of [search] against the title, the company or the
    description, and of [location] against the location, both sides
    case-folded; an exact match of [category]; membership of the job's
    type and experience level in the supplied sets; a posting time
    within the days that [datePosted] names, counted back from now; and
    for [salaryRange] the comparison of the first dollar amount with the
    number left of the filter value.  A filter whose value is the empty
    string or the empty array counts as unset. *)

(** [t] occurs in [s]: [s] is some text, then [t], then some text. *)
Definition occurs_in (t s : string) : Prop :=
  exists before after, s = String.append before (String.append t after).

(** The values of [datePosted] that name a number of days. *)
Definition date_windows : list (string * Z) :=
  [("last24h", 1); ("last3d", 3); ("last7d", 7); ("last14d", 14)].

Definition ms_per_day : Z := 86400000.

Section Matches.
Context `{Runtime}.

(** The term occurs in the text, both case-folded. *)
Definition matches_text (term text : string) : Prop :=
  occurs_in (toLowerCase term) (toLowerCase text).

(** [job] matches every filter of [f] that is set. *)
Definition matches (now : Z) (f : Filters.t) (job : Job.t) : Prop :=
  (forall v, Filters.search f = Some v -> v <> "" ->
     matches_text v (Job.title (Job.data job)) \/
     matches_text v (Job.company (Job.data job)) \/
     matches_text v (Job.description (Job.data job))) /\
  (forall v, Filters.location f = Some v -> v <> "" ->
     matches_text v (Job.location (Job.data job))) /\
  (forall v, Filters.category f = Some v -> v <> "" ->
     Job.category (Job.data job) = v) /\
  (forall l, Filters.jobType f = Some l -> l <> [] ->
     In (Job.jobType (Job.data job)) l) /\
  (forall l, Filters.experienceLevel f = Some l -> l <> [] ->
     In (Job.experienceLevel (Job.data job)) l) /\
  (forall v days, Filters.datePosted f = Some v -> In (v, days) date_windows ->
     now - days * ms_per_day <= Job.postedDate (Job.data job)) /\
  (forall v, Filters.salaryRange f = Some v -> v <> "" ->
     spec_salary_keeps v job = true).

(** The same for an optional filter object. *)
Definition matches_all (now : Z) (filters : option Filters.t) (job : Job.t)
  : Prop :=
  match filters with
  | Some f => matches now f job
  | None => True
  end.
End Matches.

(** The numbers that a salary range [v] is compared with in the store
    [s] are read in full and exactly: no stored salary text holds a
    dollar sign followed by four digits in a row, and neither the range
    nor the first dollar amount of a stored salary text has more than 15
    digits, so that each is a number below 10^15, which a double holds
    exactly. *)
Definition reads_in_full (v : string) (s : MemStorage) : Prop :=
  (String.length (strip_non_digits v) <= 15)%nat /\
  forall job salary,
    In job (JsMap.values (jobs s)) ->
    Job.salary (Job.data job) = Some salary ->
    has_long_amount salary = false /\
    forall g, spec_salary_token salary = Some g ->
              (String.length (strip_commas g) <= 15)%nat.

(* ================================================================== *)
(** ** Sample data *)

(** A runtime to compute with: case folding of the ASCII letters, and a
    time zone without clock changes, where a day is 86400000 ms. *)
Definition ascii_lower (c : ascii) : ascii :=
  let n := nat_of_ascii c in
  if ((65 <=? n) && (n <=? 90))%nat then ascii_of_nat (n + 32) else c.

Fixpoint ascii_toLowerCase (s : string) : string :=
  match s with
  | EmptyString => EmptyString
  | String c s' => String (ascii_lower c) (ascii_toLowerCase s')
  end.

Definition ascii_utc : Runtime :=
  {| toLowerCase := ascii_toLowerCase;
     setDateBack := fun n now => now - n * 86400000 |}.

Definition no_filters : Filters.t :=
  {| Filters.search := None; Filters.location := None;
     Filters.category := None; Filters.jobType := None;
     Filters.experienceLevel := None; Filters.datePosted := None;
     Filters.salaryRange := None |}.

Definition only_salaryRange (v : string) : Filters.t :=
  {| Filters.search := None; Filters.location := None;
     Filters.category := None; Filters.jobType := None;
     Filters.experienceLevel := None; Filters.datePosted := None;
     Filters.salaryRange := Some v |}.

(** A design job with the given salary text and posting time. *)
Definition design_job (salary : option string) (postedDate : Z)
  : InsertJob :=
  {| Job.title := "Designer"; Job.company := "Acme";
     Job.location := "Berlin"; Job.description := "Design things";
     Job.requirements := "A portfolio"; Job.salary := salary;
     Job.jobType := "full-time"; Job.category := "Design";
     Job.experienceLevel := "mid"; Job.skills := ["figma"];
     Job.postedDate := postedDate; Job.employerId := 1 |}.

(** A body for [POST /api/jobs] with every member but [postedDate]. *)
Definition job_body_without_postedDate : object :=
  [ ("title", VString "Designer"); ("company", VString "Acme");
    ("location", VString "Berlin");
    ("description", VString "Design things");
    ("requirements", VString "A portfolio");
    ("salary", VString "$60,000 - $80,000");
    ("jobType", VString "full-time"); ("category", VString "Design");
    ("experienceLevel", VString "mid");
    ("skills", VArray [VString "figma"]); ("employerId", VNumber 1) ].

(** A body for [POST /api/applications] with every member but [status]
    and [appliedDate]. *)
Definition application_body_without_defaults : object :=
  [ ("jobId", VNumber 1); ("userId", VNumber 1);
    ("name", VString "Ada"); ("email", VString "ada@example.org");
    ("phone", VString "555-0100"); ("resume", VString "resume.pdf");
    ("coverLetter", VString "Dear team") ].

(** A body for [POST /api/users]. *)
Definition user_body (username : string) : object :=
  [ ("username", VString username); ("password", VString "secret");
    ("email", VString "ada@example.org");
    ("userType", VString "jobseeker") ].

Definition sample_application : InsertApplication :=
  {| Application.jobId := 1; Application.userId := 1;
     Application.name := "Ada"; Application.email := "ada@example.org";
     Application.phone := "555-0100"; Application.resume := "resume.pdf";
     Application.coverLetter := None; Application.status := "applied";
     Application.appliedDate := 0 |}.

Definition sample_user : InsertUser :=
  {| User.username := "ada"; User.password := "secret";
     User.email := "ada@example.org"; User.userType := "jobseeker";
     User.companyName := None; User.location := None; User.bio := None |}.

(** A second category named Technology. *)
Definition second_technology : InsertCategory :=
  {| Category.name := "Technology"; Category.icon := "fa-microchip";
     Category.jobCount := Some (Double.of_Z 0) |}.

(** The seeded category Technology, as stored. *)
Definition first_technology : Category.t :=
  {| Category.id := 1;
     Category.data :=
       {| Category.name := "Technology"; Category.icon := "fa-laptop-code";
          Category.jobCount := Some (Double.of_Z 1245) |} |}.

(** Categories named Remote: one created without a job count, one
    whose job count is 2^53, and one more. *)
Definition uncounted_remote : InsertCategory :=
  {| Category.name := "Remote"; Category.icon := "fa-globe";
     Category.jobCount := None |}.

Definition full_remote : InsertCategory :=
  {| Category.name := "Remote"; Category.icon := "fa-globe";
     Category.jobCount := Some (Double.of_Z (2 ^ 53)) |}.

Definition second_remote : InsertCategory :=
  {| Category.name := "Remote"; Category.icon := "fa-house";
     Category.jobCount := Some (Double.of_Z 5) |}.

(** A remote job. *)
Definition remote_job : InsertJob :=
  {| Job.title := "Engineer"; Job.company := "Acme";
     Job.location := "Anywhere"; Job.description := "Build things";
     Job.requirements := "Curiosity"; Job.salary := None;
     Job.jobType := "full-time"; Job.category := "Remote";
     Job.experienceLevel := "mid"; Job.skills := ["rust"];
     Job.postedDate := 0; Job.employerId := 1 |}.

(** A filter object with all seven filters set, and one with a
    category and a salary range. *)
Definition seven_filters : Filters.t :=
  {| Filters.search := Some "DESIGN"; Filters.location := Some "berlin";
     Filters.category := Some "Design";
     Filters.jobType := Some ["contract"; "full-time"];
     Filters.experienceLevel := Some ["mid"];
     Filters.datePosted := Some "last7d";
     Filters.salaryRange := Some "$55,000" |}.

Definition category_and_salaryRange (c v : string) : Filters.t :=
  {| Filters.search := None; Filters.location := None;
     Filters.category := Some c; Filters.jobType := None;
     Filters.experienceLevel := None; Filters.datePosted := None;
     Filters.salaryRange := Some v |}.

(** A technology job. *)
Definition technology_job : InsertJob :=
  {| Job.title := "Engineer"; Job.company := "Acme";
     Job.location := "Berlin"; Job.description := "Build things";
     Job.requirements := "Curiosity"; Job.salary := None;
     Job.jobType := "full-time"; Job.category := "Technology";
     Job.experienceLevel := "mid"; Job.skills := ["rust"];
     Job.postedDate := 0; Job.employerId := 1 |}.

(* ================================================================== *)
(** ** Reading an id off a path *)

(** White space that [parseInt] skips, among the code units below 256:
    tab, line feed, vertical tab, form feed, carriage return, space and
    no-break space. *)
Definition is_space (c : ascii) : bool :=
  let n := nat_of_ascii c in
  ((9 <=? n) && (n <=? 13) || (n =? 32) || (n =? 160))%nat.

Fixpoint trim_start (s : string) : string :=
  match s with
  | String c s' => if is_space c then trim_start s' else s
  | EmptyString => EmptyString
  end.

(** The value of a hexadecimal digit. *)
Definition hex_value (c : ascii) : option Z :=
  let n := nat_of_ascii c in
  if ((48 <=? n) && (n <=? 57))%nat then Some (Z.of_nat n - 48)
  else if ((97 <=? n) && (n <=? 102))%nat then Some (Z.of_nat n - 87)
  else if ((65 <=? n) && (n <=? 70))%nat then Some (Z.of_nat n - 55)
  else None.

Fixpoint parse_hex_digits (acc : Z) (s : string) : Z :=
  match s with
  | EmptyString => acc
  | String c s' =>
      match hex_value c with
      | Some d => parse_hex_digits (16 * acc + d) s'
      | None => acc
      end
  end.

Definition parse_hex (s : string) : option Z :=
  match s with
  | EmptyString => None
  | String c _ =>
      match hex_value c with
      | Some _ => Some (parse_hex_digits 0 s)
      | None => None
      end
  end.

(** [parseInt(s)] on any string, without a radix: leading white space is
    skipped, a sign is read, a [0x] or [0X] prefix selects base 16, the
    longest run of digits of the base is the number, what follows it is
    ignored, and the result is [NaN] ([None]) when no digit is there. *)
Definition parseInt_any (s : string) : option Z :=
  let s := trim_start s in
  let sign_rest :=
    match s with
    | String c r =>
        if Ascii.eqb c "-" then (-1, r)
        else if Ascii.eqb c "+" then (1, r)
        else (1, s)
    | EmptyString => (1, s)
    end in
  let sign := fst sign_rest in
  let s := snd sign_rest in
  let magnitude :=
    match s with
    | String c0 (String c1 r) =>
        if Ascii.eqb c0 "0" && (Ascii.eqb c1 "x" || Ascii.eqb c1 "X")
        then parse_hex r
        else parseInt s
    | _ => parseInt s
    end in
  option_map (Z.mul sign) magnitude.

(* ================================================================== *)
(** ** The routes that read, and the status route *)

Inductive read_payload :=
| RUser (u : User.t)
| RJob (j : Job.t)
| RJobs (l : list Job.t)
| RApplications (l : list Application.t)
| RCategories (l : list Category.t)
| RMessage (message : string).

Record read_response := { read_status : Z; read_json : read_payload }.

(** A lookup by the number that [parseInt] gave.  A [Map] of the store
    holds no [NaN] key, so [get(NaN)] is [undefined]; and no number is
    identical to [NaN], so a filter on [x === NaN] keeps nothing. *)
Definition lookup {A} (get : Z -> M (option A)) (id : option Z)
  : M (option A) :=
  match id with
  | Some k => get k
  | None => ret None
  end.

Definition select {A} (by_id : Z -> M (list A)) (id : option Z)
  : M (list A) :=
  match id with
  | Some k => by_id k
  | None => ret []
  end.

(** [GET /api/users/:id] *)
Definition get_user (id : string) : M read_response :=
  let userId := parseInt_any id in
  user <- lookup getUser userId ;;
  match user with
  | None => ret {| read_status := 404; read_json := RMessage "User not found" |}
  | Some user => ret {| read_status := 200; read_json := RUser user |}
  end.

(** [GET /api/jobs/:id] *)
Definition get_job (id : string) : M read_response :=
  let jobId := parseInt_any id in
  job <- lookup getJob jobId ;;
  match job with
  | None => ret {| read_status := 404; read_json := RMessage "Job not found" |}
  | Some job => ret {| read_status := 200; read_json := RJob job |}
  end.

(** [GET /api/employers/:id/jobs] *)
Definition get_employer_jobs (id : string) : M read_response :=
  let employerId := parseInt_any id in
  jobs <- select getJobsByEmployer employerId ;;
  ret {| read_status := 200; read_json := RJobs jobs |}.

(** [GET /api/jobs/:id/applications] *)
Definition get_job_applications (id : string) : M read_response :=
  let jobId := parseInt_any id in
  applications <- select getApplicationsByJob jobId ;;
  ret {| read_status := 200; read_json := RApplications applications |}.

(** [GET /api/users/:id/applications] *)
Definition get_user_applications (id : string) : M read_response :=
  let userId := parseInt_any id in
  applications <- select getApplicationsByUser userId ;;
  ret {| read_status := 200; read_json := RApplications applications |}.

(** [GET /api/categories] *)
Definition get_categories : M read_response :=
  categories <- getCategories ;;
  ret {| read_status := 200; read_json := RCategories categories |}.

(** [PATCH /api/applications/:id/status], for a body whose [status]
    member is a string ([Some]) or is absent ([None]). *)
Definition patch_application_status (id : string) (status : option string)
  : M response :=
  let applicationId := parseInt_any id in
  match status with
  | None => ret {| status := 400; json := JMessage "Status is required" |}
  | Some status =>
      if negb (truthy status)
      then ret {| status := 400; json := JMessage "Status is required" |}
      else
        updatedApplication <-
          lookup (fun k => updateApplicationStatus k status) applicationId ;;
        match updatedApplication with
        | None =>
            ret {| status := 404; json := JMessage "Application not found" |}
        | Some updatedApplication =>
            ret {| status := 200; json := JApplication updatedApplication |}
        end
  end.

(** *** The query of [GET /api/jobs] *)

(** [s.split(',')] *)
Fixpoint split_comma (s : string) : list string :=
  match s with
  | EmptyString => [EmptyString]
  | String c s' =>
      if Ascii.eqb c ","
      then EmptyString :: split_comma s'
      else
        match split_comma s' with
        | piece :: pieces => String c piece :: pieces
        | [] => [String c EmptyString]
        end
  end.





Section GetJobsRoute.
Context `{Runtime}.

End GetJobsRoute.

(* ================================================================== *)
(** ** The writes that the routes make *)

(** The requests that can change the store. *)
Inductive request :=
| PostUsers (body : object)
| PostJobs (now : Z) (body : object)
| PostApplications (now : Z) (body : object)
| PatchApplicationStatus (id : string) (status : option string).

Definition serve (r : request) (s : MemStorage) : MemStorage :=
  match r with
  | PostUsers body => snd (post_users body s)
  | PostJobs now body => snd (post_jobs now body s)
  | PostApplications now body => snd (post_applications now body s)
  | PatchApplicationStatus id status =>
      snd (patch_application_status id status s)
  end.

Definition serve_all (rs : list request) (s : MemStorage) : MemStorage :=
  fold_left (fun s r => serve r s) rs s.

(** The stores that a server can hold: the one constructed at start, and
    those that requests lead to from it. *)
Inductive served : MemStorage -> Prop :=
| served_new : served constructor
| served_request s r : served s -> served (serve r s).

(** The usernames of the stored users, in the order of creation. *)
Definition usernames (s : MemStorage) : list string :=
  map (fun u => User.username (User.data u)) (JsMap.values (users s)).

(** The number of stored jobs whose category is [name]. *)
Definition jobs_in_category (name : string) (s : MemStorage) : Z :=
  Z.of_nat
    (List.length
       (filter (fun job => String.eqb (Job.category (Job.data job)) name)
               (JsMap.values (jobs s)))).

(** [category] with [n] more jobs counted, one after the other. *)
Definition with_more_jobs (n : Z) (category : Category.t) : Category.t :=
  Nat.iter (Z.to_nat n) with_one_more_job category.

(** The same filter object with one member replaced. *)
Definition with_datePosted (v : option string) (f : Filters.t) : Filters.t :=
  {| Filters.search := Filters.search f;
     Filters.location := Filters.location f;
     Filters.category := Filters.category f;
     Filters.jobType := Filters.jobType f;
     Filters.experienceLevel := Filters.experienceLevel f;
     Filters.datePosted := v;
     Filters.salaryRange := Filters.salaryRange f |}.

Definition with_salaryRange (v : option string) (f : Filters.t) : Filters.t :=
  {| Filters.search := Filters.search f;
     Filters.location := Filters.location f;
     Filters.category := Filters.category f;
     Filters.jobType := Filters.jobType f;
     Filters.experienceLevel := Filters.experienceLevel f;
     Filters.datePosted := Filters.datePosted f;
     Filters.salaryRange := v |}.

(** An application with its status replaced when it is the one of id
    [id]. *)
Definition restatus (id : Z) (status : string) (a : Application.t)
  : Application.t :=
  if Application.id a =? id
  then {| Application.id := Application.id a;
          Application.data :=
            Application.with_status status (Application.data a) |}
  else a.

(** The seeded categories, each with the stored jobs of its name counted
    in. *)
Definition seeded_with_jobs (s : MemStorage) : JsMap.t Category.t :=
  map (fun kc =>
         (fst kc,
          with_more_jobs
            (jobs_in_category (Category.name (Category.data (snd kc))) s)
            (snd kc)))
      (categories constructor).

(** [s] holds the character [c]. *)
Fixpoint contains_char (c : ascii) (s : string) : bool :=
  match s with
  | EmptyString => false
  | String c' s' => Ascii.eqb c' c || contains_char c s'
  end.

(** [s] is made of digits. *)
Fixpoint all_digits (s : string) : bool :=
  match s with
  | EmptyString => true
  | String c s' => is_digit c && all_digits s'
  end.

(** A job with the given salary text. *)
Definition with_salary (salary : option string) (job : Job.t) : Job.t :=
  {| Job.id := Job.id job;
     Job.data :=
       {| Job.title := Job.title (Job.data job);
          Job.company := Job.company (Job.data job);
          Job.location := Job.location (Job.data job);
          Job.description := Job.description (Job.data job);
          Job.requirements := Job.requirements (Job.data job);
          Job.salary := salary;
          Job.jobType := Job.jobType (Job.data job);
          Job.category := Job.category (Job.data job);
          Job.experienceLevel := Job.experienceLevel (Job.data job);
          Job.skills := Job.skills (Job.data job);
          Job.postedDate := Job.postedDate (Job.data job);
          Job.employerId := Job.employerId (Job.data job) |} |}.


(** What may follow the digits of a number in a path for the number to
    be read in base ten and in full: nothing, or a character that is no
    digit and no [x]. *)
Definition ends_number (rest : string) : bool :=
  match rest with
  | EmptyString => true
  | String c _ =>
      negb (is_digit c || Ascii.eqb c "x" || Ascii.eqb c "X")
  end.


(** A body for [POST /api/jobs] that passes the schema. *)
Definition technology_job_body : object :=
  [ ("title", VString "Engineer"); ("company", VString "Acme");
    ("location", VString "Berlin");
    ("description", VString "Build things");
    ("requirements", VString "Curiosity");
    ("jobType", VString "full-time"); ("category", VString "Technology");
    ("experienceLevel", VString "mid");
    ("skills", VArray [VString "rust"]); ("postedDate", VDate 0);
    ("employerId", VNumber 1) ].

(* ================================================================== *)
(** * Properties *)

(** ** Doubles *)

Section DoubleFacts.
Import SpecFloat.

Lemma iter_xO_spec p n : Zpos (Pos.iter xO p n) = Zpos p * 2 ^ Zpos n.
Proof.
  induction n as [|n IH] using Pos.peano_ind.
  - simpl. lia.
  - rewrite Pos.iter_succ, Pos2Z.inj_xO, IH, Pos2Z.inj_succ, Z.pow_succ_r
      by lia.
    lia.
Qed.

Lemma shl_spec p k : 0 <= k -> Zpos (Double.shl p k) = Zpos p * 2 ^ k.
Proof.
  intros Hk. destruct k as [|n|n]; simpl Double.shl; [simpl; lia| |lia].
  apply iter_xO_spec.
Qed.

Lemma digits_iter_xO p n :
  Zpos (digits2_pos (Pos.iter xO p n)) = Zpos (digits2_pos p) + Zpos n.
Proof.
  induction n as [|n IH] using Pos.peano_ind.
  - simpl. lia.
  - rewrite Pos.iter_succ. simpl digits2_pos. rewrite Pos2Z.inj_succ, IH. lia.
Qed.

Lemma digits_shl p k :
  0 <= k -> Zpos (digits2_pos (Double.shl p k)) = Zpos (digits2_pos p) + k.
Proof.
  intros Hk. destruct k as [|n|n]; simpl Double.shl; [lia| |lia].
  apply digits_iter_xO.
Qed.

Lemma shl_shl p a b :
  0 <= a -> 0 <= b ->
  Double.shl (Double.shl p a) b = Double.shl p (a + b).
Proof.
  intros Ha Hb. apply Pos2Z.inj. rewrite !shl_spec by lia.
  rewrite Z.pow_add_r by lia. lia.
Qed.

Lemma iter_pos_iter {A} (f : A -> A) n x : iter_pos f n x = Pos.iter f x n.
Proof.
  revert x. induction n as [n IH|n IH|]; intros x; simpl; auto.
  - rewrite !IH. now rewrite <- !Pos.iter_swap.
  - now rewrite !IH.
Qed.

(** Shifting right what was shifted left loses nothing. *)
Lemma shr_exact p n :
  iter_pos shr_1 n
    {| shr_m := Zpos (Pos.iter xO p n); shr_r := false; shr_s := false |}
  = {| shr_m := Zpos p; shr_r := false; shr_s := false |}.
Proof.
  rewrite iter_pos_iter. induction n as [|n IH] using Pos.peano_ind.
  - reflexivity.
  - rewrite Pos.iter_succ_r. rewrite (Pos.iter_succ n _ xO). exact IH.
Qed.

(** A mantissa of 53 bits is not rounded. *)
Lemma round_aux_exact s m e :
  Zpos (digits2_pos m) = 53 -> -1074 <= e <= 971 ->
  binary_round_aux 53 1024 s (Zpos m) e loc_Exact = S754_finite s m e.
Proof.
  intros Hd He. unfold binary_round_aux, shr_fexp, fexp, emin.
  cbn [Zdigits2 shr_record_of_loc]. rewrite Hd.
  replace (Z.max (53 + e - 53) (3 - 1024 - 53) - e) with 0 by lia.
  cbn [shr shr_m loc_of_shr_record round_nearest_even Zdigits2
       shr_record_of_loc].
  rewrite Hd.
  replace (Z.max (53 + e - 53) (3 - 1024 - 53) - e) with 0 by lia.
  cbn [shr shr_m].
  destruct (Z.leb_spec e (1024 - 53)); [reflexivity | lia].
Qed.

Lemma binary_round_scaled q k :
  Zpos (digits2_pos q) <= 53 -> 0 <= k <= 52 ->
  binary_round 53 1024 false (Double.shl q k) (- k) = Double.canon q.
Proof.
  intros Hd Hk. unfold binary_round, Double.canon.
  set (d := Zpos (digits2_pos q)) in *.
  assert (Hd1 : 1 <= d) by (unfold d; lia).
  assert (Hfexp :
            fexp 53 1024 (Zpos (digits2_pos (Double.shl q k)) + - k)
            = d - 53).
  { rewrite digits_shl by lia. fold d. unfold fexp, emin. lia. }
  rewrite Hfexp. unfold shl_align.
  destruct (d - 53 - - k) as [|t|t] eqn:Et.
  - replace (- k) with (d - 53) by lia. replace k with (53 - d) by lia.
    apply round_aux_exact; [|lia].
    rewrite digits_shl by lia. fold d. lia.
  - unfold binary_round_aux, shr_fexp. cbn [Zdigits2 shr_record_of_loc].
    rewrite Hfexp. rewrite Et. cbn [shr].
    replace (Double.shl q k) with (Pos.iter xO (Double.shl q (53 - d)) t).
    2:{ change (Pos.iter xO (Double.shl q (53 - d)) t)
          with (Double.shl (Double.shl q (53 - d)) (Zpos t)).
        rewrite shl_shl by lia. f_equal. lia. }
    rewrite shr_exact.
    cbn [shr_m loc_of_shr_record round_nearest_even Zdigits2
         shr_record_of_loc].
    assert (Hd53 : Zpos (digits2_pos (Double.shl q (53 - d))) = 53).
    { rewrite digits_shl by lia. fold d. lia. }
    rewrite Hd53. unfold fexp, emin.
    replace (Z.max (53 + (- k + Zpos t) - 53) (3 - 1024 - 53)
             - (- k + Zpos t)) with 0 by lia.
    cbn [shr shr_m].
    destruct (Z.leb_spec (- k + Zpos t) (1024 - 53)); [|lia].
    f_equal. lia.
  - change (Pos.iter xO (Double.shl q k) t)
      with (Double.shl (Double.shl q k) (Zpos t)).
    rewrite shl_shl by lia.
    replace (k + Zpos t) with (53 - d) by lia.
    apply round_aux_exact; [|lia].
    rewrite digits_shl by lia. fold d. lia.
Qed.

Lemma of_Z_pos q :
  Zpos (digits2_pos q) <= 53 -> Double.of_Z (Zpos q) = Double.canon q.
Proof.
  intros Hd. unfold Double.of_Z, binary_normalize.
  apply (binary_round_scaled q 0 Hd). lia.
Qed.

Lemma digits2_size p : digits2_pos p = Pos.size p.
Proof. induction p; simpl; congruence. Qed.

Lemma digits_le p n : 0 <= n -> Zpos p < 2 ^ n -> Zpos (digits2_pos p) <= n.
Proof.
  intros Hn Hlt. rewrite digits2_size.
  pose proof (Pos.size_le p) as Hle.
  apply Pos2Z.pos_le_pos in Hle. rewrite Pos2Z.inj_pow in Hle.
  rewrite (Pos2Z.inj_xO p) in Hle.
  destruct (Z.le_gt_cases (Zpos (Pos.size p)) n) as [|Hgt]; auto.
  exfalso.
  assert (H : 2 ^ Z.succ n <= 2 ^ Zpos (Pos.size p))
    by (apply Z.pow_le_mono_r; lia).
  rewrite Z.pow_succ_r in H by lia. lia.
Qed.

(** Adding one to an integer from 0 to 2^53 - 1 is exact. *)
Lemma add_one_exact z :
  0 <= z < 2 ^ 53 ->
  Double.add (Double.of_Z z) (Double.of_Z 1) = Double.of_Z (z + 1).
Proof.
  intros Hz. destruct z as [|p|p]; [reflexivity| |lia].
  destruct (Z.eq_dec (Zpos p) (2 ^ 53 - 1)) as [Heq|Hne].
  { rewrite Heq. vm_compute. reflexivity. }
  assert (Hdp : Zpos (digits2_pos p) <= 53) by (apply digits_le; lia).
  assert (Hdq : Zpos (digits2_pos (p + 1)) <= 53).
  { apply digits_le; [lia|]. rewrite Pos2Z.inj_add. lia. }
  replace (Zpos p + 1) with (Zpos (p + 1)) by lia.
  rewrite (of_Z_pos p Hdp), (of_Z_pos (p + 1) Hdq).
  change (Double.of_Z 1) with (S754_finite false 4503599627370496 (-52)).
  unfold Double.canon at 1, Double.add, SFadd.
  set (d := Zpos (digits2_pos p)) in *.
  assert (Hd1 : 1 <= d) by (unfold d; lia).
  rewrite Z.min_r by lia.
  assert (Hx : fst (shl_align (Double.shl p (53 - d)) (d - 53) (-52))
               = Double.shl p 52).
  { unfold shl_align. destruct (-52 - (d - 53)) as [|t|t] eqn:Et;
      cbn [fst]; [f_equal; lia | lia |].
    change (Pos.iter xO (Double.shl p (53 - d)) t)
      with (Double.shl (Double.shl p (53 - d)) (Zpos t)).
    rewrite shl_shl by lia. f_equal. lia. }
  rewrite Hx. cbn [cond_Zopp].
  change (fst (shl_align 4503599627370496 (-52) (-52)))
    with 4503599627370496%positive.
  replace (Zpos (Double.shl p 52) + 4503599627370496)
    with (Zpos (Double.shl (p + 1) 52)).
  2:{ rewrite !shl_spec by lia. rewrite Pos2Z.inj_add.
      change (2 ^ 52) with 4503599627370496. lia. }
  cbn [binary_normalize].
  apply (binary_round_scaled (p + 1) 52 Hdq). lia.
Qed.

(** An integer from 0 to 2^53 is a double. *)
Lemma to_Z_of_Z z : 0 <= z <= 2 ^ 53 -> Double.to_Z (Double.of_Z z) = Some z.
Proof.
  intros Hz. destruct z as [|p|p]; [reflexivity| |lia].
  destruct (Z.eq_dec (Zpos p) (2 ^ 53)) as [Heq|Hne].
  { rewrite Heq. vm_compute. reflexivity. }
  assert (Hdp : Zpos (digits2_pos p) <= 53) by (apply digits_le; lia).
  rewrite (of_Z_pos p Hdp). unfold Double.canon, Double.to_Z.
  set (d := Zpos (digits2_pos p)) in *.
  assert (Hd1 : 1 <= d) by (unfold d; lia).
  rewrite shl_spec by lia.
  destruct (Z.leb_spec 0 (d - 53)).
  - replace (d - 53) with 0 by lia. replace (53 - d) with 0 by lia.
    f_equal. simpl. lia.
  - replace (- (d - 53)) with (53 - d) by lia.
    rewrite Z.mod_mul by (apply Z.pow_nonzero; lia). cbn [Z.eqb].
    rewrite Z.div_mul by (apply Z.pow_nonzero; lia). reflexivity.
Qed.
End DoubleFacts.

(** One more than 2^53 is no double: the sum is 2^53 again. *)
Lemma add_one_at_limit :
  Double.add (Double.of_Z (2 ^ 53)) (Double.of_Z 1) = Double.of_Z (2 ^ 53).
Proof. vm_compute. reflexivity. Qed.

(** Counting one more job, for a count that is an integer from 0 to
    2^53. *)
Lemma add_one_min z :
  0 <= z <= 2 ^ 53 ->
  Double.add (Double.of_Z z) (Double.of_Z 1)
  = Double.of_Z (Z.min (z + 1) (2 ^ 53)).
Proof.
  intros Hz. destruct (Z.eq_dec z (2 ^ 53)) as [->|Hne].
  - rewrite Z.min_r by lia. apply add_one_at_limit.
  - rewrite Z.min_l by lia. apply add_one_exact. lia.
Qed.

(** ** [Map] lemmas *)

Section JsMapFacts.
Context {V : Type}.
Implicit Types (m : JsMap.t V) (k : Z) (v : V).

Lemma get_set_eq m k v : JsMap.get k (JsMap.set k v m) = Some v.
Proof.
  induction m as [|[k' v'] m IH]; simpl.
  - now rewrite Z.eqb_refl.
  - destruct (k =? k') eqn:E; simpl; rewrite E; auto.
Qed.

Lemma get_set_ne m k k' v :
  k <> k' -> JsMap.get k' (JsMap.set k v m) = JsMap.get k' m.
Proof.
  intros Hne. induction m as [|[k0 v0] m IH]; simpl.
  - destruct (k' =? k) eqn:E; auto. apply Z.eqb_eq in E. congruence.
  - destruct (k =? k0) eqn:E; simpl.
    + apply Z.eqb_eq in E. subst k0.
      destruct (k' =? k) eqn:E'; auto.
      apply Z.eqb_eq in E'. congruence.
    + now rewrite IH.
Qed.

Lemma get_none_iff m k : JsMap.get k m = None <-> ~ In k (JsMap.keys m).
Proof.
  induction m as [|[k' v'] m IH]; simpl.
  - tauto.
  - destruct (k =? k') eqn:E.
    + apply Z.eqb_eq in E. subst. split; [discriminate | tauto].
    + apply Z.eqb_neq in E. rewrite IH. split; intros Hn; [|tauto].
      intros [Heq|Hin]; [congruence | tauto].
Qed.

Lemma get_some_in m k v : JsMap.get k m = Some v -> In (k, v) m.
Proof.
  induction m as [|[k' v'] m IH]; simpl; [discriminate|].
  destruct (k =? k') eqn:E.
  - apply Z.eqb_eq in E. intros [= ->]. subst. now left.
  - auto.
Qed.

Lemma in_get_nodup m k v :
  NoDup (JsMap.keys m) -> In (k, v) m -> JsMap.get k m = Some v.
Proof.
  induction m as [|[k' v'] m IH]; simpl; [tauto|].
  intros Hnd [Heq|Hin]; inversion Hnd as [|? ? Hnotin Hnd']; subst.
  - injection Heq as -> ->. now rewrite Z.eqb_refl.
  - destruct (k =? k') eqn:E; auto.
    apply Z.eqb_eq in E. subst k'. exfalso. apply Hnotin.
    unfold JsMap.keys. change k with (fst (k, v)). now apply in_map.
Qed.

(** Setting a new key appends the entry. *)
Lemma set_fresh m k v :
  ~ In k (JsMap.keys m) -> JsMap.set k v m = m ++ [(k, v)].
Proof.
  induction m as [|[k' v'] m IH]; simpl; auto.
  intros Hn. destruct (k =? k') eqn:E.
  - apply Z.eqb_eq in E. subst. tauto.
  - rewrite IH; [reflexivity | tauto].
Qed.

(** Setting a key keeps the keys and their order when it is there. *)
Lemma keys_set_present m k v :
  In k (JsMap.keys m) -> JsMap.keys (JsMap.set k v m) = JsMap.keys m.
Proof.
  induction m as [|[k' v'] m IH]; simpl; [tauto|].
  intros Hin. destruct (k =? k') eqn:E; simpl; auto.
  apply Z.eqb_neq in E. rewrite IH; [reflexivity|].
  destruct Hin; congruence.
Qed.

Lemma Forall_set (P : Z * V -> Prop) m k v :
  Forall P m -> P (k, v) -> Forall P (JsMap.set k v m).
Proof.
  intros Hm Hkv. induction Hm as [|[k' v'] m Hx Hm IH]; simpl.
  - auto.
  - destruct (k =? k') eqn:E.
    + apply Z.eqb_eq in E. subst. auto.
    + auto.
Qed.
End JsMapFacts.

(** ** Collections and their counters *)

Lemma in_ids_below k c : In k (ids_below c) <-> 1 <= k < c.
Proof.
  unfold ids_below. rewrite in_map_iff. split.
  - intros (n & <- & Hn). apply in_seq in Hn. lia.
  - intros Hk. exists (Z.to_nat k). split; [lia|]. apply in_seq. lia.
Qed.

Lemma ids_below_succ c : 1 <= c -> ids_below (c + 1) = ids_below c ++ [c].
Proof.
  intros Hc. unfold ids_below.
  replace (Z.to_nat (c + 1 - 1)) with (S (Z.to_nat (c - 1))) by lia.
  rewrite seq_S, map_app. simpl. do 3 f_equal. lia.
Qed.

Lemma NoDup_ids_below c : NoDup (ids_below c).
Proof.
  unfold ids_below. apply Finite.Injective_map_NoDup.
  - intros a b. apply Nat2Z.inj.
  - apply seq_NoDup.
Qed.

Section TableFacts.
Context {V : Type} (idof : V -> Z).
Implicit Types (m : JsMap.t V) (k c : Z) (v : V).

Lemma table_ok_get m c k v :
  table_ok idof m c -> JsMap.get k m = Some v -> idof v = k /\ 1 <= k < c.
Proof.
  intros (Hc & Hkeys & Hids) Hget. apply get_some_in in Hget. split.
  - rewrite Forall_forall in Hids. apply (Hids _ Hget).
  - apply in_ids_below. rewrite <- Hkeys. unfold JsMap.keys.
    change k with (fst (k, v)). now apply in_map.
Qed.

Lemma table_ok_fresh m c : table_ok idof m c -> JsMap.get c m = None.
Proof.
  intros (Hc & Hkeys & _). apply get_none_iff. rewrite Hkeys, in_ids_below.
  lia.
Qed.

Lemma table_ok_nodup m c : table_ok idof m c -> NoDup (JsMap.keys m).
Proof. intros (_ & -> & _). apply NoDup_ids_below. Qed.

(** A create: the counter's value becomes the last key. *)
Lemma table_ok_create m c v :
  table_ok idof m c -> idof v = c ->
  table_ok idof (JsMap.set c v m) (c + 1).
Proof.
  intros Hok Hid. pose proof (table_ok_fresh _ _ Hok) as Hfresh.
  destruct Hok as (Hc & Hkeys & Hids). repeat split.
  - lia.
  - rewrite set_fresh by now apply get_none_iff.
    unfold JsMap.keys in *. rewrite map_app, Hkeys. simpl.
    now rewrite ids_below_succ.
  - now apply Forall_set.
Qed.

(** An update in place of a record that is there. *)
Lemma table_ok_update m c k v v' :
  table_ok idof m c -> JsMap.get k m = Some v -> idof v' = k ->
  table_ok idof (JsMap.set k v' m) c.
Proof.
  intros Hok Hget Hid. destruct Hok as (Hc & Hkeys & Hids). repeat split.
  - lia.
  - rewrite keys_set_present; auto.
    destruct (in_dec Z.eq_dec k (JsMap.keys m)) as [|Hn]; auto.
    apply get_none_iff in Hn. congruence.
  - now apply Forall_set.
Qed.
End TableFacts.

(** Projections out of an updated store. *)
Ltac fields :=
  cbn [fst snd users jobs applications categories userIdCounter
       jobIdCounter applicationIdCounter categoryIdCounter
       set_users set_jobs set_applications set_categories
       set_userIdCounter set_jobIdCounter set_applicationIdCounter
       set_categoryIdCounter] in *.

(** Unfolding of the store's methods down to pairs. *)
Ltac run_store :=
  unfold createUser, createJob, createApplication, createCategory,
    updateApplicationStatus, incrementCategoryJobCount, getUser, getJob,
    getCategory, getCategories, getUserByUsername,
    next_userId, next_jobId, next_applicationId, next_categoryId,
    bind, read, write, ret in *;
  fields.

(** Splitting [store_ok] into its four collections, each closed by a
    hypothesis, a create or an update in place. *)
Ltac four_tables :=
  refine (conj _ (conj _ (conj _ _)));
  first
    [ assumption
    | apply table_ok_create; [assumption | reflexivity]
    | eapply table_ok_update; [eassumption | eassumption | ];
      cbn [User.id Job.id Application.id Category.id];
      match goal with
      | Hok : table_ok _ ?m _, Hget : JsMap.get _ ?m = Some _ |- _ =>
          now destruct (table_ok_get _ _ _ _ _ Hok Hget)
      end ].

Lemma incrementCategoryJobCount_ok id s :
  store_ok s -> store_ok (snd (incrementCategoryJobCount id s)).
Proof.
  intros (Hu & Hj & Ha & Hc). run_store.
  destruct (JsMap.get id (categories s)) as [cat|] eqn:Hget; run_store;
    four_tables.
Qed.

Lemma createJob_steps job s :
  createJob job s =
  ({| Job.id := jobIdCounter s; Job.data := job |},
   match category_named (Job.category job) s with
   | Some category =>
       snd (incrementCategoryJobCount (Category.id category)
                                      (job_stored job s))
   | None => job_stored job s
   end).
Proof.
  unfold createJob, category_named, job_stored, next_jobId, bind, read,
    write, ret.
  cbn [fst snd categories set_jobs set_jobIdCounter jobs].
  destruct (find _ _); reflexivity.
Qed.

Lemma constructor_ok : store_ok constructor.
Proof.
  refine (conj _ (conj _ (conj _ _)));
    (split; [vm_compute; discriminate |
             split; [reflexivity | vm_compute; repeat constructor]]).
Qed.

Lemma run_ok c s : store_ok s -> store_ok (run c s).
Proof.
  intros Hok. destruct c as [user|job|app|id st|cat|id]; cbn [run].
  - destruct Hok as (Hu & Hj & Ha & Hc). run_store. four_tables.
  - rewrite createJob_steps. cbn [snd].
    assert (Hs1 : store_ok (job_stored job s)).
    { destruct Hok as (Hu & Hj & Ha & Hc). unfold job_stored. run_store.
      four_tables. }
    destruct (category_named _ s); auto.
    now apply incrementCategoryJobCount_ok.
  - destruct Hok as (Hu & Hj & Ha & Hc). run_store. four_tables.
  - destruct Hok as (Hu & Hj & Ha & Hc). run_store.
    destruct (JsMap.get id (applications s)) as [a|] eqn:Hget; run_store;
      four_tables.
  - destruct Hok as (Hu & Hj & Ha & Hc). run_store. four_tables.
  - now apply incrementCategoryJobCount_ok.
Qed.

Lemma reachable_ok s : reachable s -> store_ok s.
Proof.
  induction 1 as [|s c _ IH]; [apply constructor_ok | now apply run_ok].
Qed.

Lemma reachable_run_all cs s : reachable s -> reachable (run_all cs s).
Proof.
  revert s. induction cs as [|c cs IH]; intros s Hs; simpl; auto.
  apply IH. now constructor.
Qed.

(** ** Create, then look up *)


Lemma createJob_then_getJob s job :
  fst (getJob (Job.id (fst (createJob job s))) (snd (createJob job s)))
  = Some (fst (createJob job s)).
Proof.
  rewrite createJob_steps. unfold getJob, read. cbn [fst snd Job.id].
  assert (Hs1 : JsMap.get (jobIdCounter s) (jobs (job_stored job s))
                = Some {| Job.id := jobIdCounter s; Job.data := job |}).
  { unfold job_stored. run_store. apply get_set_eq. }
  destruct (category_named _ s) as [c|]; auto.
  run_store. destruct (JsMap.get _ (categories (job_stored job s)));
    run_store; exact Hs1.
Qed.


(** ** Status updates *)

(** C4. [updateApplicationStatus(id, status)] on an id that has no
    application returns the not-found value and the store it was given;
    on an id that has one it returns, and stores under that id, the
    application with [status] as its status and with its id, jobId,
    userId, name, email, phone, resume, coverLetter and appliedDate as
    they were. *)
Theorem updateApplicationStatus_spec (s : MemStorage) (id : Z)
    (status : string) :
  (JsMap.get id (applications s) = None ->
   updateApplicationStatus id status s = (None, s)) /\
  (forall a, JsMap.get id (applications s) = Some a ->
   exists a',
     fst (updateApplicationStatus id status s) = Some a' /\
     JsMap.get id (applications (snd (updateApplicationStatus id status s)))
       = Some a' /\
     Application.status (Application.data a') = status /\
     Application.id a' = Application.id a /\
     Application.jobId (Application.data a')
       = Application.jobId (Application.data a) /\
     Application.userId (Application.data a')
       = Application.userId (Application.data a) /\
     Application.name (Application.data a')
       = Application.name (Application.data a) /\
     Application.email (Application.data a')
       = Application.email (Application.data a) /\
     Application.phone (Application.data a')
       = Application.phone (Application.data a) /\
     Application.resume (Application.data a')
       = Application.resume (Application.data a) /\
     Application.coverLetter (Application.data a')
       = Application.coverLetter (Application.data a) /\
     Application.appliedDate (Application.data a')
       = Application.appliedDate (Application.data a)).
Proof.
  split.
  - intros Hget. run_store. now rewrite Hget.
  - intros a Hget. run_store. rewrite Hget. run_store.
    eexists. split; [reflexivity|]. split; [apply get_set_eq|].
    repeat split.
Qed.

(** ** Ids *)

Lemma incrementCategoryJobCount_frame id s :
  let s' := snd (incrementCategoryJobCount id s) in
  users s' = users s /\ jobs s' = jobs s /\
  applications s' = applications s /\
  userIdCounter s' = userIdCounter s /\ jobIdCounter s' = jobIdCounter s /\
  applicationIdCounter s' = applicationIdCounter s /\
  categoryIdCounter s' = categoryIdCounter s.
Proof.
  run_store. destruct (JsMap.get id (categories s)); run_store; tauto.
Qed.

Lemma get_set_keeps {V} (m : JsMap.t V) k c v v' :
  JsMap.get k m = Some v -> JsMap.get c m = None ->
  JsMap.get k (JsMap.set c v' m) = Some v.
Proof.
  intros Hk Hc. rewrite get_set_ne; auto. intros ->. congruence.
Qed.

Lemma same_but_status_refl a : same_but_status a a.
Proof. split; auto. now destruct a as [i []]. Qed.

Lemma same_but_status_trans a b c :
  same_but_status a b -> same_but_status b c -> same_but_status a c.
Proof.
  intros [Hi Hd] [Hi' Hd']. split; [congruence|].
  rewrite Hd', Hd. reflexivity.
Qed.

Lemma same_but_jobCount_refl c : same_but_jobCount c c.
Proof. repeat split. Qed.

Lemma same_but_jobCount_trans a b c :
  same_but_jobCount a b -> same_but_jobCount b c -> same_but_jobCount a c.
Proof. intros (? & ? & ?) (? & ? & ?). repeat split; congruence. Qed.

Lemma kept_refl s : kept s s.
Proof.
  repeat split; auto; intros; eexists; split; eauto;
    [apply same_but_status_refl | apply same_but_jobCount_refl].
Qed.

Lemma kept_trans s1 s2 s3 : kept s1 s2 -> kept s2 s3 -> kept s1 s3.
Proof.
  intros (Hu & Hj & Ha & Hc) (Hu' & Hj' & Ha' & Hc'). repeat split; auto.
  - intros k a Hget. destruct (Ha _ _ Hget) as (a' & Hget' & Hs).
    destruct (Ha' _ _ Hget') as (a'' & Hget'' & Hs').
    exists a''. split; auto. eapply same_but_status_trans; eauto.
  - intros k c Hget. destruct (Hc _ _ Hget) as (c' & Hget' & Hs).
    destruct (Hc' _ _ Hget') as (c'' & Hget'' & Hs').
    exists c''. split; auto. eapply same_but_jobCount_trans; eauto.
Qed.

Lemma incrementCategoryJobCount_kept id s :
  kept s (snd (incrementCategoryJobCount id s)).
Proof.
  run_store. destruct (JsMap.get id (categories s)) as [cat|] eqn:Hget;
    run_store; [|apply kept_refl].
  repeat split; fields; auto.
  - intros k a Ha. exists a. split; auto. apply same_but_status_refl.
  - intros k c Hc. destruct (Z.eq_dec id k) as [->|Hne].
    + eexists. split; [apply get_set_eq|].
      assert (c = cat) as -> by congruence. repeat split.
    + exists c. split; [now rewrite get_set_ne|].
      apply same_but_jobCount_refl.
Qed.

Lemma run_kept c s : store_ok s -> kept s (run c s).
Proof.
  intros (Hu & Hj & Ha & Hc).
  destruct c as [user|job|app|id st|cat|id]; cbn [run].
  - run_store. repeat split; fields; auto.
    + intros k u Hget. eapply get_set_keeps; eauto.
      eapply table_ok_fresh; eauto.
    + intros k a Hget. exists a. split; auto. apply same_but_status_refl.
    + intros k c Hget. exists c. split; auto. apply same_but_jobCount_refl.
  - rewrite createJob_steps. cbn [snd].
    assert (Hs1 : kept s (job_stored job s)).
    { unfold job_stored. run_store.
      repeat split; fields; auto.
      - intros k j Hget. eapply get_set_keeps; eauto.
        eapply table_ok_fresh; eauto.
      - intros k a Hget. exists a. split; auto. apply same_but_status_refl.
      - intros k c Hget. exists c. split; auto.
        apply same_but_jobCount_refl. }
    destruct (category_named _ s); auto.
    eapply kept_trans; [exact Hs1 | apply incrementCategoryJobCount_kept].
  - run_store. repeat split; fields; auto.
    + intros k a Hget. exists a. split; [|apply same_but_status_refl].
      eapply get_set_keeps; eauto. eapply table_ok_fresh; eauto.
    + intros k c Hget. exists c. split; auto. apply same_but_jobCount_refl.
  - run_store.
    destruct (JsMap.get id (applications s)) as [a0|] eqn:Hget0; run_store;
      [|apply kept_refl].
    repeat split; fields; auto.
    + intros k a Hget. destruct (Z.eq_dec id k) as [->|Hne].
      * eexists. split; [apply get_set_eq|].
        assert (a = a0) as -> by congruence. split; reflexivity.
      * exists a. split; [now rewrite get_set_ne|].
        apply same_but_status_refl.
    + intros k c Hget. exists c. split; auto. apply same_but_jobCount_refl.
  - run_store. repeat split; fields; auto.
    + intros k a Hget. exists a. split; auto. apply same_but_status_refl.
    + intros k c Hget. exists c. split; [|apply same_but_jobCount_refl].
      eapply get_set_keeps; eauto. eapply table_ok_fresh; eauto.
  - apply incrementCategoryJobCount_kept.
Qed.

Lemma run_all_ok cs s : store_ok s -> store_ok (run_all cs s).
Proof.
  revert s. induction cs as [|c cs IH]; intros s Hs; simpl; auto.
  apply IH. now apply run_ok.
Qed.

Lemma run_all_kept cs s : store_ok s -> kept s (run_all cs s).
Proof.
  revert s. induction cs as [|c cs IH]; intros s Hs; simpl.
  - apply kept_refl.
  - eapply kept_trans; [apply run_kept, Hs | apply IH, run_ok, Hs].
Qed.

Lemma store_ok_creates s : store_ok s -> creates_take_counter s.
Proof.
  intros (Hu & Hj & Ha & Hc). unfold creates_take_counter.
  refine (conj _ (conj _ (conj _ _))); intros x; cbv zeta.
  - run_store. repeat split. unfold JsMap.keys.
    rewrite set_fresh, map_app; [reflexivity|].
    apply get_none_iff. eapply table_ok_fresh; eauto.
  - rewrite createJob_steps. cbn [fst snd Job.id].
    assert (Hs1 : JsMap.keys (jobs (job_stored x s))
                  = JsMap.keys (jobs s) ++ [jobIdCounter s] /\
                  jobIdCounter (job_stored x s) = jobIdCounter s + 1).
    { unfold job_stored. run_store. split; auto. unfold JsMap.keys.
      rewrite set_fresh, map_app; [reflexivity|].
      apply get_none_iff. eapply table_ok_fresh; eauto. }
    destruct (category_named _ s) as [c|]; [|tauto].
    destruct (incrementCategoryJobCount_frame (Category.id c)
                (job_stored x s)) as (_ & -> & _ & _ & -> & _).
    tauto.
  - run_store. repeat split. unfold JsMap.keys.
    rewrite set_fresh, map_app; [reflexivity|].
    apply get_none_iff. eapply table_ok_fresh; eauto.
  - run_store. repeat split. unfold JsMap.keys.
    rewrite set_fresh, map_app; [reflexivity|].
    apply get_none_iff. eapply table_ok_fresh; eauto.
Qed.

(** In the store as constructed, the seeded categories have the ids 1 to
    8 and the first user, job and application get the id 1. *)
Lemma first_ids user job application :
  JsMap.keys (categories constructor) = [1; 2; 3; 4; 5; 6; 7; 8] /\
  User.id (fst (createUser user constructor)) = 1 /\
  Job.id (fst (createJob job constructor)) = 1 /\
  Application.id (fst (createApplication application constructor)) = 1.
Proof. repeat split. Qed.

(** C6. In every reachable store and for each of users, jobs,
    applications and categories: the ids in use are 1, 2, ... up to the
    counter minus one, in the order they were handed out, hence pairwise
    distinct, and each record is stored under the id it carries; a
    create hands out the counter's value, which is above every id in
    use, and appends it; and whatever calls follow, an id in use stays
    with its record (a user or a job unchanged, an application up to its
    status, a category up to its job count). *)
Theorem ids_unique_increasing_never_reused (s : MemStorage) :
  reachable s ->
  store_ok s /\
  (NoDup (JsMap.keys (users s)) /\ NoDup (JsMap.keys (jobs s)) /\
   NoDup (JsMap.keys (applications s)) /\
   NoDup (JsMap.keys (categories s))) /\
  ((forall k, In k (JsMap.keys (users s)) -> 1 <= k < userIdCounter s) /\
   (forall k, In k (JsMap.keys (jobs s)) -> 1 <= k < jobIdCounter s) /\
   (forall k, In k (JsMap.keys (applications s)) ->
              1 <= k < applicationIdCounter s) /\
   (forall k, In k (JsMap.keys (categories s)) ->
              1 <= k < categoryIdCounter s)) /\
  creates_take_counter s /\
  (forall cs, kept s (run_all cs s)).
Proof.
  intros Hr. pose proof (reachable_ok _ Hr) as Hok.
  split; [exact Hok|].
  split; [|split; [|split]].
  - destruct Hok as (Hu & Hj & Ha & Hc).
    repeat split; eapply table_ok_nodup; eauto.
  - destruct Hok as ((_ & Hu & _) & (_ & Hj & _) & (_ & Ha & _) & (_ & Hc & _)).
    rewrite Hu, Hj, Ha, Hc.
    repeat split; apply in_ids_below in H; lia.
  - now apply store_ok_creates.
  - intros cs. now apply run_all_kept.
Qed.

(** ** Job counts *)

Lemma ids_from_sorted a n :
  StronglySorted Z.lt (map Z.of_nat (seq a n)).
Proof.
  revert a. induction n as [|n IH]; intros a; simpl; constructor; auto.
  apply Forall_forall. intros y Hy. apply in_map_iff in Hy.
  destruct Hy as (x & <- & Hx). apply in_seq in Hx. lia.
Qed.

Section FirstHit.
Context {V : Type} (idof : V -> Z).

Lemma in_values_get (m : JsMap.t V) c v :
  table_ok idof m c -> In v (JsMap.values m) ->
  JsMap.get (idof v) m = Some v.
Proof.
  intros Hok Hin. pose proof (table_ok_nodup _ _ _ Hok) as Hnd.
  destruct Hok as (_ & _ & Hids).
  unfold JsMap.values in Hin. apply in_map_iff in Hin.
  destruct Hin as ([k v'] & Hv & Hin). simpl in Hv. subst v'.
  rewrite Forall_forall in Hids. specialize (Hids _ Hin). simpl in Hids.
  rewrite Hids. now apply in_get_nodup.
Qed.

(** [find] over the values returns the record of the lowest id among
    those that pass the test. *)
Lemma find_lowest (p : V -> bool) (m : JsMap.t V) v :
  StronglySorted Z.lt (JsMap.keys m) ->
  Forall (fun kv => idof (snd kv) = fst kv) m ->
  find p (JsMap.values m) = Some v ->
  forall v', In v' (JsMap.values m) -> p v' = true -> idof v <= idof v'.
Proof.
  induction m as [|[k v0] m IH]; simpl; [discriminate|].
  intros Hs Hids Hfind v' Hin Hp.
  apply StronglySorted_inv in Hs. destruct Hs as [Hs Hlt].
  inversion Hids as [|? ? Hid Hids']; subst. simpl in Hid.
  destruct (p v0) eqn:Hp0.
  - injection Hfind as <-. destruct Hin as [->|Hin]; [lia|].
    unfold JsMap.values in Hin. apply in_map_iff in Hin.
    destruct Hin as ([k' v''] & Hv & Hin). simpl in Hv. subst v''.
    rewrite Forall_forall in Hlt, Hids'.
    specialize (Hids' _ Hin). simpl in Hids'.
    assert (k < k').
    { apply Hlt. unfold JsMap.keys. change k' with (fst (k', v')).
      now apply in_map. }
    lia.
  - destruct Hin as [->|Hin]; [congruence|]. now apply IH.
Qed.
End FirstHit.

Lemma category_named_lowest s name c :
  store_ok s -> has_name name s c ->
  (forall c', has_name name s c' -> Category.id c <= Category.id c') ->
  category_named name s = Some c.
Proof.
  intros (_ & _ & _ & Hc) [Hin Hname] Hlow. unfold category_named.
  destruct (find _ _) as [c0|] eqn:Hfind.
  - pose proof (find_some _ _ Hfind) as [Hin0 Hname0].
    apply String.eqb_eq in Hname0.
    assert (Category.id c0 <= Category.id c).
    { destruct Hc as (_ & Hkeys & Hids).
      eapply (find_lowest Category.id); eauto.
      - rewrite Hkeys. apply ids_from_sorted.
      - simpl. now apply String.eqb_eq. }
    assert (Category.id c <= Category.id c0) by (apply Hlow; now split).
    pose proof (in_values_get _ _ _ _ Hc Hin) as Hg.
    pose proof (in_values_get _ _ _ _ Hc Hin0) as Hg0.
    replace (Category.id c0) with (Category.id c) in Hg0 by lia.
    congruence.
  - exfalso. apply (find_none _ _ Hfind) in Hin.
    apply String.eqb_neq in Hin. congruence.
Qed.

Lemma category_named_none s name :
  (forall c, ~ has_name name s c) -> category_named name s = None.
Proof.
  intros Hno. unfold category_named.
  destruct (find _ _) as [c|] eqn:Hfind; auto.
  apply find_some in Hfind. destruct Hfind as [Hin Hname].
  apply String.eqb_eq in Hname. exfalso. apply (Hno c). now split.
Qed.

(** The categories after [createJob], when the lowest-id category of
    the job's category name is [c]. *)
Lemma createJob_categories s job c :
  store_ok s -> has_name (Job.category job) s c ->
  (forall c', has_name (Job.category job) s c' ->
              Category.id c <= Category.id c') ->
  categories (snd (createJob job s))
  = JsMap.set (Category.id c) (with_one_more_job c) (categories s).
Proof.
  intros Hok Hc Hlow. rewrite createJob_steps. cbn [snd].
  rewrite (category_named_lowest _ _ _ Hok Hc Hlow).
  destruct Hok as (_ & _ & _ & Hcat). destruct Hc as [Hin _].
  pose proof (in_values_get _ _ _ _ Hcat Hin) as Hget.
  unfold job_stored. run_store. rewrite Hget. reflexivity.
Qed.

Lemma createJob_categories_none s job :
  (forall c, ~ has_name (Job.category job) s c) ->
  categories (snd (createJob job s)) = categories s.
Proof.
  intros Hno. rewrite createJob_steps. cbn [snd].
  now rewrite (category_named_none _ _ Hno).
Qed.

(** Among the categories of a name there is one of lowest id. *)
Lemma lowest_has_name s name c :
  store_ok s -> has_name name s c ->
  exists c0, has_name name s c0 /\
    forall c', has_name name s c' -> Category.id c0 <= Category.id c'.
Proof.
  intros Hok [Hin Hname]. pose proof Hok as (_ & _ & _ & Hc).
  destruct (category_named name s) as [c0|] eqn:Hfind.
  - unfold category_named in Hfind.
    pose proof (find_some _ _ Hfind) as [Hin0 Hname0].
    apply String.eqb_eq in Hname0. exists c0. split; [now split|].
    intros c' [Hin' Hname']. destruct Hc as (_ & Hkeys & Hids).
    eapply (find_lowest Category.id); eauto.
    + rewrite Hkeys. apply ids_from_sorted.
    + simpl. now apply String.eqb_eq.
  - unfold category_named in Hfind. apply (find_none _ _ Hfind) in Hin.
    apply String.eqb_neq in Hin. congruence.
Qed.

(** One more job counted, for a count that is an integer from 0 to
    2^53 - 1: the new count is that integer plus one. *)
Lemma with_one_more_job_exact c z :
  0 <= z < 2 ^ 53 ->
  Category.jobCount (Category.data c) = Some (Double.of_Z z) ->
  Category.jobCount (Category.data (with_one_more_job c))
    = Some (Double.of_Z (z + 1)) /\
  one_more (Category.jobCount (Category.data c))
           (Category.jobCount (Category.data (with_one_more_job c))).
Proof.
  intros Hz Hc. unfold with_one_more_job.
  cbn [Category.jobCount Category.data]. rewrite Hc.
  cbn [Double.ToNumber]. rewrite add_one_exact by assumption.
  split; [reflexivity|].
  exists (Double.of_Z z), (Double.of_Z (z + 1)), z.
  repeat split; apply to_Z_of_Z; lia.
Qed.

(** C3 (amended). In every reachable store, [createJob(data)] returns
    the new job, which it has stored under the next job id.  If some
    category bears the job's category name, then the category [c] of
    lowest id among those of that name (the category of that name when
    the name is borne once) keeps its id, name and icon, a job count
    that is a number [x] is replaced by the sum of doubles [x + 1], so
    that a job count that is an integer from 0 to 2^53 - 1 goes up by
    exactly one, and every other category is as it was.  If no category
    bears the name, the categories are as they were. *)
Theorem createJob_increments_matching_category (s : MemStorage)
    (job : InsertJob) :
  reachable s ->
  let r := createJob job s in
  fst r = {| Job.id := jobIdCounter s; Job.data := job |} /\
  fst (getJob (Job.id (fst r)) (snd r)) = Some (fst r) /\
  ((exists c, has_name (Job.category job) s c) ->
   exists c c', has_name (Job.category job) s c /\
     (forall c0, has_name (Job.category job) s c0 ->
                 Category.id c <= Category.id c0) /\
     fst (getCategory (Category.id c) s) = Some c /\
     fst (getCategory (Category.id c) (snd r)) = Some c' /\
     same_but_jobCount c c' /\
     (forall x, Category.jobCount (Category.data c) = Some x ->
        Category.jobCount (Category.data c')
          = Some (Double.add x (Double.of_Z 1))) /\
     (forall z, 0 <= z < 2 ^ 53 ->
        Category.jobCount (Category.data c) = Some (Double.of_Z z) ->
        Category.jobCount (Category.data c') = Some (Double.of_Z (z + 1)) /\
        one_more (Category.jobCount (Category.data c))
                 (Category.jobCount (Category.data c'))) /\
     forall k, k <> Category.id c ->
               fst (getCategory k (snd r)) = fst (getCategory k s)) /\
  ((forall c, ~ has_name (Job.category job) s c) ->
   categories (snd r) = categories s).
Proof.
  intros Hr r. pose proof (reachable_ok _ Hr) as Hok.
  split; [|split; [|split]].
  - subst r. now rewrite createJob_steps.
  - apply createJob_then_getJob.
  - intros [c1 Hc1].
    destruct (lowest_has_name _ _ _ Hok Hc1) as (c & Hc & Hlow).
    exists c, (with_one_more_job c). split; [exact Hc|]. split; [exact Hlow|].
    pose proof (createJob_categories _ _ _ Hok Hc Hlow) as Hcats.
    fold r in Hcats. unfold getCategory, read. cbn [fst]. rewrite Hcats.
    split; [|split; [|split; [|split; [|split]]]].
    + destruct Hok as (_ & _ & _ & Hcat). destruct Hc as [Hin _].
      apply (in_values_get _ _ _ _ Hcat Hin).
    + apply get_set_eq.
    + repeat split.
    + intros x Hx. unfold with_one_more_job.
      cbn [Category.jobCount Category.data]. now rewrite Hx.
    + intros z Hz Hcount. now apply with_one_more_job_exact.
    + intros k Hk. apply get_set_ne. congruence.
  - intros Hno. now apply createJob_categories_none.
Qed.

(** C3, as it is worded, fails.  A category whose job count is 2^53 has
    the same job count after [createJob], since 2^53 + 1 is no double
    and the sum rounds to 2^53; and a category created without a job
    count has [NaN] as its job count after [createJob].  In both stores
    the category is the only one of the job's category name. *)
Lemma createJob_count_not_one_more :
  (let s := run (CreateCategory full_remote) constructor in
   let s' := snd (createJob remote_job s) in
   let c := {| Category.id := 9; Category.data := full_remote |} in
   reachable s /\
   category_named (Job.category remote_job) s = Some c /\
   (forall c', has_name (Job.category remote_job) s c' -> c' = c) /\
   fst (getCategory 9 s') = Some c /\
   ~ one_more (Category.jobCount (Category.data c))
              (Category.jobCount (Category.data c))) /\
  (let s := run (CreateCategory uncounted_remote) constructor in
   let s' := snd (createJob remote_job s) in
   let c := {| Category.id := 9; Category.data := uncounted_remote |} in
   reachable s /\
   category_named (Job.category remote_job) s = Some c /\
   (forall c', has_name (Job.category remote_job) s c' -> c' = c) /\
   fst (getCategory 9 s')
     = Some {| Category.id := 9;
               Category.data :=
                 {| Category.name := "Remote"; Category.icon := "fa-globe";
                    Category.jobCount := Some Double.NaN |} |} /\
   ~ one_more None (Some Double.NaN)).
Proof.
  split; intros s s' c.
  - split; [apply reachable_call, reachable_new|].
    split; [reflexivity|]. split; [|split; [reflexivity|]].
    + intros c' [Hin Hname]. vm_compute in Hin.
      repeat (destruct Hin as [<-|Hin]; [try discriminate Hname|]);
        [reflexivity | destruct Hin].
    + intros (x & y & z & Hx & Hy & Hzx & Hzy).
      cbn [c Category.jobCount Category.data full_remote] in Hx, Hy.
      injection Hx as <-. injection Hy as <-.
      rewrite to_Z_of_Z in Hzx, Hzy by lia.
      injection Hzx as <-. injection Hzy as Hzy. lia.
  - split; [apply reachable_call, reachable_new|].
    split; [reflexivity|]. split; [|split; [reflexivity|]].
    + intros c' [Hin Hname]. vm_compute in Hin.
      repeat (destruct Hin as [<-|Hin]; [try discriminate Hname|]);
        [reflexivity | destruct Hin].
    + intros (x & y & z & Hx & _). discriminate Hx.
Qed.

(** C10 (amended). When several categories bear the category name of a
    new job, [createJob] changes the one created first, which is the one
    of lowest id: it keeps its id, name and icon, a job count that is a
    number [x] is replaced by the sum of doubles [x + 1], so that a job
    count that is an integer from 0 to 2^53 - 1 goes up by exactly one;
    every other category of that name is as it was. *)
Theorem createJob_duplicate_names_first_only (s : MemStorage)
    (job : InsertJob) (c : Category.t) :
  reachable s ->
  has_name (Job.category job) s c ->
  (forall c0, has_name (Job.category job) s c0 ->
              Category.id c <= Category.id c0) ->
  let s' := snd (createJob job s) in
  (exists c',
     fst (getCategory (Category.id c) s') = Some c' /\
     same_but_jobCount c c' /\
     (forall x, Category.jobCount (Category.data c) = Some x ->
        Category.jobCount (Category.data c')
          = Some (Double.add x (Double.of_Z 1))) /\
     (forall z, 0 <= z < 2 ^ 53 ->
        Category.jobCount (Category.data c) = Some (Double.of_Z z) ->
        Category.jobCount (Category.data c') = Some (Double.of_Z (z + 1)) /\
        one_more (Category.jobCount (Category.data c))
                 (Category.jobCount (Category.data c')))) /\
  forall c0, has_name (Job.category job) s c0 -> c0 <> c ->
    fst (getCategory (Category.id c0) s') = Some c0.
Proof.
  intros Hr Hc Hlow s'. pose proof (reachable_ok _ Hr) as Hok.
  pose proof (createJob_categories _ _ _ Hok Hc Hlow) as Hcats.
  fold s' in Hcats. unfold getCategory, read. cbn [fst]. rewrite Hcats.
  destruct Hok as (_ & _ & _ & Hcat).
  split.
  - exists (with_one_more_job c). split; [apply get_set_eq|].
    split; [repeat split|]. split.
    + intros x Hx. unfold with_one_more_job.
      cbn [Category.jobCount Category.data]. now rewrite Hx.
    + intros z Hz Hcount. now apply with_one_more_job_exact.
  - intros c0 [Hin0 _] Hne.
    pose proof (in_values_get _ _ _ _ Hcat Hin0) as Hg0.
    pose proof (in_values_get _ _ _ _ Hcat (proj1 Hc)) as Hg.
    rewrite get_set_ne; auto.
    intros Heq. rewrite Heq in Hg. congruence.
Qed.

(** C10, as it is worded, fails.  Of two categories named Remote, the
    first with a job count of 2^53, [createJob] with a remote job leaves
    both as they were: no job count has gone up. *)
Lemma createJob_duplicate_names_none_incremented :
  let s := run_all [CreateCategory full_remote; CreateCategory second_remote]
                   constructor in
  let s' := snd (createJob remote_job s) in
  let first := {| Category.id := 9; Category.data := full_remote |} in
  let second := {| Category.id := 10; Category.data := second_remote |} in
  reachable s /\
  has_name (Job.category remote_job) s first /\
  has_name (Job.category remote_job) s second /\
  fst (getCategory 9 s') = Some first /\
  fst (getCategory 10 s') = Some second /\
  ~ one_more (Category.jobCount (Category.data first))
             (Category.jobCount (Category.data first)).
Proof.
  intros s s' first second.
  split; [apply (reachable_run_all _ _ reachable_new)|].
  split; [split; [vm_compute; tauto | reflexivity]|].
  split; [split; [vm_compute; tauto | reflexivity]|].
  split; [reflexivity|]. split; [reflexivity|].
  intros (x & y & z & Hx & Hy & Hzx & Hzy).
  cbn [first Category.jobCount Category.data full_remote] in Hx, Hy.
  injection Hx as <-. injection Hy as <-.
  rewrite to_Z_of_Z in Hzx, Hzy by lia.
  injection Hzx as <-. injection Hzy as Hzy. lia.
Qed.

(** ** The handlers *)

Lemma getUserByUsername_none s username :
  (forall u, In u (JsMap.values (users s)) ->
             User.username (User.data u) <> username) ->
  fst (getUserByUsername username s) = None.
Proof.
  intros Hno. run_store.
  destruct (find _ _) as [u|] eqn:Hfind; auto.
  apply find_some in Hfind. destruct Hfind as [Hin Heq].
  apply String.eqb_eq in Heq. now apply Hno in Hin.
Qed.

Lemma getUserByUsername_some s username u :
  In u (JsMap.values (users s)) ->
  User.username (User.data u) = username ->
  exists u', fst (getUserByUsername username s) = Some u'.
Proof.
  intros Hin Heq. run_store.
  destruct (find _ _) as [u'|] eqn:Hfind; eauto.
  apply (find_none _ _ Hfind) in Hin. apply String.eqb_neq in Hin.
  congruence.
Qed.

(** C8. In every reachable store, and so after any sequence of requests,
    a [POST /api/users] whose body passes the schema: answers 201 with
    the created user when no stored user bears the body's username, the
    user's id being the counter's value, which is not among the ids in
    use and is above all of them; and answers 400 with the message
    [Username already exists] and leaves the store as it was when a
    stored user bears exactly that username.  The store it leaves is
    reachable again. *)
Theorem post_users_checks_username (s : MemStorage) (body parsed : object) :
  reachable s ->
  Schema.parse Schema.insertUserSchema body = inr parsed ->
  let userData := as_InsertUser parsed in
  let newUser := {| User.id := userIdCounter s; User.data := userData |} in
  ((forall u, In u (JsMap.values (users s)) ->
              User.username (User.data u) <> User.username userData) ->
   post_users body s
     = ({| status := 201; json := JUser newUser |},
        snd (createUser userData s)) /\
   fst (getUser (userIdCounter s) (snd (post_users body s))) = Some newUser /\
   ~ In (userIdCounter s) (JsMap.keys (users s)) /\
   (forall k, In k (JsMap.keys (users s)) -> k < userIdCounter s)) /\
  ((exists u, In u (JsMap.values (users s)) /\
              User.username (User.data u) = User.username userData) ->
   post_users body s
     = ({| status := 400; json := JMessage "Username already exists" |}, s))
  /\ reachable (snd (post_users body s)).
Proof.
  intros Hr Hparse userData newUser.
  pose proof (reachable_ok _ Hr) as (Hu & _).
  assert (Hsteps : post_users body s =
            match fst (getUserByUsername (User.username userData) s) with
            | Some _ =>
                ({| status := 400;
                    json := JMessage "Username already exists" |}, s)
            | None =>
                ({| status := 201; json := JUser newUser |},
                 snd (createUser userData s))
            end).
  { unfold post_users. rewrite Hparse. fold userData. unfold bind at 1.
    change (snd (getUserByUsername (User.username userData) s)) with s.
    destruct (fst (getUserByUsername (User.username userData) s));
      reflexivity. }
  rewrite Hsteps. split; [|split].
  - intros Hno. rewrite (getUserByUsername_none _ _ Hno).
    split; [reflexivity|]. split.
    + run_store. apply get_set_eq.
    + destruct Hu as (_ & Hkeys & _). rewrite Hkeys. split.
      * rewrite in_ids_below. lia.
      * intros k Hk. apply in_ids_below in Hk. lia.
  - intros (u & Hin & Heq).
    destruct (getUserByUsername_some _ _ _ Hin Heq) as (u' & ->).
    reflexivity.
  - destruct (fst (getUserByUsername (User.username userData) s)).
    + exact Hr.
    + apply (reachable_call s (CreateUser userData) Hr).
Qed.

(** *** Defaults of the handlers *)

Lemma issues_in (sch : Schema.schema) (body : object) k m :
  In (k, m) sch -> Schema.member_ok m (prop body k) = false ->
  In k (Schema.issues sch body).
Proof.
  intros Hin Hbad. unfold Schema.issues.
  change k with (fst (k, m)). apply in_map. apply filter_In.
  split; auto. simpl. now rewrite Hbad.
Qed.

Lemma parse_fails (sch : Schema.schema) (body : object) k :
  In k (Schema.issues sch body) ->
  Schema.parse sch body = inl (Schema.issues sch body).
Proof.
  unfold Schema.parse. destruct (Schema.issues sch body); simpl; tauto.
Qed.

(** The member of a schema under a given key. *)
Ltac member_of_schema :=
  cbv; repeat (first [left; reflexivity | right]).

(** Whatever else a body holds, a job without [postedDate] is answered
    with 400 and nothing is stored. *)
Lemma post_jobs_requires_postedDate now body s :
  prop body "postedDate" = None ->
  post_jobs now body s
  = ({| status := 400;
        json := JZodMessage (Schema.issues Schema.insertJobSchema body) |},
     s).
Proof.
  intros Hnone. unfold post_jobs.
  rewrite (parse_fails _ _ "postedDate"); [reflexivity|].
  eapply issues_in; [member_of_schema | now rewrite Hnone].
Qed.

(** The same for an application without [status], and for one without
    [appliedDate]. *)
Lemma post_applications_requires_status now body s :
  prop body "status" = None ->
  post_applications now body s
  = ({| status := 400;
        json :=
          JZodMessage (Schema.issues Schema.insertApplicationSchema body) |},
     s).
Proof.
  intros Hnone. unfold post_applications.
  rewrite (parse_fails _ _ "status"); [reflexivity|].
  eapply issues_in; [member_of_schema | now rewrite Hnone].
Qed.

Lemma post_applications_requires_appliedDate now body s :
  prop body "appliedDate" = None ->
  post_applications now body s
  = ({| status := 400;
        json :=
          JZodMessage (Schema.issues Schema.insertApplicationSchema body) |},
     s).
Proof.
  intros Hnone. unfold post_applications.
  rewrite (parse_fails _ _ "appliedDate"); [reflexivity|].
  eapply issues_in; [member_of_schema | now rewrite Hnone].
Qed.

(** C7 (the code departs from it). A [POST /api/jobs] whose body has
    every member but [postedDate] is answered with 400, the schema
    naming [postedDate] as the failing member, and the store is as it
    was; a [POST /api/applications] whose body has every member but
    [status] and [appliedDate] is answered with 400, the schema naming
    both, and the store is as it was.  Neither omission reaches the
    statements of the handlers that would fill in the default. *)
Theorem post_omitting_defaulted_members_is_rejected (now : Z)
    (s : MemStorage) :
  post_jobs now job_body_without_postedDate s
    = ({| status := 400; json := JZodMessage ["postedDate"] |}, s) /\
  post_applications now application_body_without_defaults s
    = ({| status := 400; json := JZodMessage ["status"; "appliedDate"] |},
       s).
Proof. split; reflexivity. Qed.

(** What a successful [parse] tells: every member passed its check, and
    the parsed object has the body's value under each key of the
    schema. *)
Lemma prop_strip (sch : Schema.schema) (body : object) k :
  In k (map fst sch) -> prop (Schema.strip sch body) k = prop body k.
Proof.
  unfold Schema.strip. induction sch as [|[k' m] sch IH]; simpl; [tauto|].
  intros Hin. destruct (String.eqb k k') eqn:E.
  - apply String.eqb_eq in E. subst k'.
    destruct (prop body k) as [v|] eqn:Hv; simpl.
    + now rewrite String.eqb_refl.
    + clear IH Hin. induction sch as [|[k'' m''] sch IH]; simpl; auto.
      destruct (prop body k'') as [v''|] eqn:Hv''; simpl; auto.
      destruct (String.eqb k k'') eqn:E'; auto.
      apply String.eqb_eq in E'. congruence.
  - apply String.eqb_neq in E.
    assert (Hin' : In k (map fst sch)) by (destruct Hin; congruence).
    destruct (prop body k') as [v'|]; simpl; auto.
    apply String.eqb_neq in E. rewrite E. auto.
Qed.

Lemma parse_ok (sch : Schema.schema) (body parsed : object) k m :
  Schema.parse sch body = inr parsed -> In (k, m) sch ->
  parsed = Schema.strip sch body /\
  Schema.member_ok m (prop body k) = true.
Proof.
  unfold Schema.parse. intros Hparse Hin.
  destruct (Schema.issues sch body) as [|e es] eqn:Hiss; [|discriminate].
  split; [congruence|].
  destruct (Schema.member_ok m (prop body k)) eqn:Hok; auto.
  pose proof (issues_in _ _ _ _ Hin Hok) as Hbad.
  rewrite Hiss in Hbad. destruct Hbad.
Qed.

(** The statement of [POST /api/jobs] that would default [postedDate]
    never runs: when the body passes the schema, its [postedDate] is a
    date and that date is the one stored. *)
Lemma post_jobs_date_from_body now body parsed s :
  Schema.parse Schema.insertJobSchema body = inr parsed ->
  exists t, prop body "postedDate" = Some (VDate t) /\
    post_jobs now body s
    = ({| status := 201;
          json := JJob (fst (createJob (as_InsertJob parsed) s)) |},
       snd (createJob (as_InsertJob parsed) s)) /\
    Job.postedDate (as_InsertJob parsed) = t.
Proof.
  intros Hparse.
  destruct (parse_ok _ _ _ "postedDate"
              {| Schema.m_type := Schema.timestamp;
                 Schema.m_optional := false; Schema.m_nullable := false |}
              Hparse) as [Hstrip Hok]; [member_of_schema|].
  assert (Hprop : prop parsed "postedDate" = prop body "postedDate").
  { rewrite Hstrip. apply prop_strip. member_of_schema. }
  destruct (prop body "postedDate") as [[| | | |t|]|] eqn:Hv;
    try discriminate.
  exists t. split; [reflexivity|].
  unfold post_jobs. rewrite Hparse, Hprop. cbn [prop_truthy negb].
  split; [reflexivity|].
  unfold as_InsertJob, date_prop. cbn [Job.postedDate]. now rewrite Hprop.
Qed.

(** ** [getJobs] *)

Lemma filter_and {A} (p q : A -> bool) l :
  filter p (filter q l) = filter (fun x => q x && p x) l.
Proof.
  induction l as [|x l IH]; simpl; auto.
  destruct (q x); simpl; [destruct (p x)|]; now rewrite IH.
Qed.

Lemma filter_true {A} (l : list A) : filter (fun _ => true) l = l.
Proof. induction l; simpl; congruence. Qed.

Lemma when_set_filter o body (test : string -> Job.t -> bool) jobs :
  (forall v l, body v l = filter (test v) l) ->
  when_set o body jobs = filter (constrains (supplied_text o) test) jobs.
Proof.
  intros Hbody. unfold when_set, supplied_text, constrains.
  destruct o as [v|]; [destruct (truthy v)|]; auto;
    symmetry; apply filter_true.
Qed.

Lemma when_nonempty_filter o body (test : list string -> Job.t -> bool)
    jobs :
  (forall v l, body v l = filter (test v) l) ->
  when_nonempty o body jobs
  = filter (constrains (supplied_set o) test) jobs.
Proof.
  intros Hbody. unfold when_nonempty, supplied_set, constrains.
  destruct o as [[|x l]|]; auto; symmetry; apply filter_true.
Qed.

(** [getJobs] is one filter by the conjunction, then the sort; it
    leaves the store alone. *)
Lemma getJobs_filter_sort `{Runtime} now filters s :
  getJobs now filters s
  = (array_sort by_most_recent
       (filter (satisfies now filters) (JsMap.values (jobs s))), s).
Proof.
  unfold getJobs, read. f_equal. f_equal.
  destruct filters as [f|]; [|symmetry; apply filter_true].
  cbv zeta.
  rewrite (when_set_filter (Filters.salaryRange f) _
             (fun v => salary_keeps (parseInt (strip_non_digits v))))
    by reflexivity.
  rewrite (when_set_filter (Filters.datePosted f) _ (datePosted_keeps now)).
  2:{ intros v l. unfold datePosted_keeps.
      destruct (datePosted_days v); auto. symmetry. apply filter_true. }
  rewrite (when_nonempty_filter (Filters.experienceLevel f) _
             experienceLevel_keeps) by reflexivity.
  rewrite (when_nonempty_filter (Filters.jobType f) _ jobType_keeps)
    by reflexivity.
  rewrite (when_set_filter (Filters.category f) _ category_keeps)
    by reflexivity.
  rewrite (when_set_filter (Filters.location f) _
             (fun v => location_keeps (toLowerCase v))) by reflexivity.
  rewrite (when_set_filter (Filters.search f) _
             (fun v => search_keeps (toLowerCase v))) by reflexivity.
  rewrite !filter_and. apply filter_ext. intros job.
  unfold satisfies. now rewrite !andb_assoc.
Qed.

(** The sort. *)
Lemma sort_insert_perm {A} (compare : A -> A -> Z) x l :
  Permutation (sort_insert compare x l) (x :: l).
Proof.
  induction l as [|y l IH]; simpl; auto.
  destruct (compare x y <=? 0); auto.
  rewrite IH. apply perm_swap.
Qed.

Lemma array_sort_perm {A} (compare : A -> A -> Z) l :
  Permutation (array_sort compare l) l.
Proof.
  induction l as [|x l IH]; simpl; auto.
  rewrite sort_insert_perm. now constructor.
Qed.

Lemma sort_insert_newest_first x l :
  newest_first l -> newest_first (sort_insert by_most_recent x l).
Proof.
  unfold newest_first. induction l as [|y l IH]; simpl; intros Hs.
  - constructor; auto.
  - apply StronglySorted_inv in Hs. destruct Hs as [Hs Hy].
    unfold by_most_recent at 1.
    destruct (_ <=? 0) eqn:E.
    + apply Z.leb_le in E. constructor; [constructor; auto|].
      constructor; [lia|]. rewrite Forall_forall in *.
      intros z Hz. specialize (Hy z Hz). lia.
    + apply Z.leb_gt in E. constructor; [now apply IH|].
      rewrite Forall_forall in *. intros z Hz.
      apply (Permutation_in _ (sort_insert_perm by_most_recent x l)) in Hz.
      destruct Hz as [<-|Hz]; [lia|auto].
Qed.

Lemma array_sort_newest_first l :
  newest_first (array_sort by_most_recent l).
Proof.
  induction l as [|x l IH]; simpl.
  - constructor.
  - now apply sort_insert_newest_first.
Qed.

(** Two orderings of the same jobs, both most recent first, are the
    same list when no two of the jobs were posted at the same time. *)
Lemma newest_first_unique l1 l2 :
  newest_first l1 -> newest_first l2 -> Permutation l1 l2 ->
  (forall a b, In a l1 -> In b l1 ->
     Job.postedDate (Job.data a) = Job.postedDate (Job.data b) -> a = b) ->
  l1 = l2.
Proof.
  unfold newest_first. revert l2.
  induction l1 as [|a l1 IH]; intros l2 H1 H2 Hp Hinj.
  - now apply Permutation_nil in Hp.
  - destruct l2 as [|b l2].
    { apply Permutation_sym, Permutation_nil in Hp. discriminate. }
    apply StronglySorted_inv in H1. destruct H1 as [H1 Ha].
    apply StronglySorted_inv in H2. destruct H2 as [H2 Hb].
    rewrite Forall_forall in Ha, Hb.
    assert (Hab : a = b).
    { assert (Hin_a : In a (b :: l2))
        by (eapply Permutation_in; [exact Hp | now left]).
      assert (Hin_b : In b (a :: l1))
        by (eapply Permutation_in;
            [apply Permutation_sym; exact Hp | now left]).
      destruct Hin_a as [->|Hin_a]; auto.
      destruct Hin_b as [->|Hin_b]; auto.
      apply Hinj; [now left | now right |].
      specialize (Ha _ Hin_b). specialize (Hb _ Hin_a). lia. }
    subst b. f_equal. apply IH; auto.
    + eapply Permutation_cons_inv; eauto.
    + intros x y Hx Hy. apply Hinj; now right.
Qed.

(** C9. An empty string as the search, location or category filter, and
    an empty array as the jobType or experienceLevel filter, is treated
    as an unset filter: [getJobs] returns what it returns with that
    filter absent. *)
Theorem getJobs_empty_filter_is_unset `{Runtime} (now : Z) (f : Filters.t)
    (s : MemStorage) :
  getJobs now (Some (Filters.with_search (Some "") f)) s
    = getJobs now (Some (Filters.with_search None f)) s /\
  getJobs now (Some (Filters.with_location (Some "") f)) s
    = getJobs now (Some (Filters.with_location None f)) s /\
  getJobs now (Some (Filters.with_category (Some "") f)) s
    = getJobs now (Some (Filters.with_category None f)) s /\
  getJobs now (Some (Filters.with_jobType (Some []) f)) s
    = getJobs now (Some (Filters.with_jobType None f)) s /\
  getJobs now (Some (Filters.with_experienceLevel (Some []) f)) s
    = getJobs now (Some (Filters.with_experienceLevel None f)) s.
Proof. repeat split. Qed.

(** An empty category filter is no exact match on the empty name: a
    Design job fails that test and is returned all the same. *)
Lemma getJobs_empty_category_keeps_all `{Runtime} now :
  let job := design_job None now in
  let s := snd (createJob job constructor) in
  category_keeps "" {| Job.id := 1; Job.data := job |} = false /\
  fst (getJobs now (Some (Filters.with_category (Some "") no_filters)) s)
    = [ {| Job.id := 1; Job.data := job |} ].
Proof. split; reflexivity. Qed.

(** ** The salary filter *)

Lemma take_digits_all n s :
  starts_with_digits (S n) s = false ->
  take_all_digits s = take_digits n s.
Proof.
  revert s. induction n as [|n IH]; intros [|c s] Hs; simpl in *; auto.
  - destruct (is_digit c); [discriminate | reflexivity].
  - destruct (is_digit c) eqn:Hc; auto.
    simpl in Hs. now rewrite IH.
Qed.

(** Where no amount is written with four digits in a row, the pattern of
    the code reads the token that the specification describes. *)
Lemma salary_match_short_runs s :
  has_long_amount s = false -> salary_match s = spec_salary_token s.
Proof.
  induction s as [|c s IH]; simpl; auto.
  intros Hs. apply orb_false_iff in Hs. destruct Hs as [Hhere Hrest].
  rewrite (IH Hrest). destruct (Ascii.eqb c "$") eqn:Hc; auto.
  simpl in Hhere. rewrite (take_digits_all 3 s Hhere). reflexivity.
Qed.

Lemma salary_keeps_short_runs salaryRange job :
  (forall salary, Job.salary (Job.data job) = Some salary ->
                  has_long_amount salary = false) ->
  salary_keeps (parseInt (strip_non_digits salaryRange)) job
  = spec_salary_keeps salaryRange job.
Proof.
  intros Hshort. unfold salary_keeps, spec_salary_keeps.
  destruct (Job.salary (Job.data job)) as [salary|]; auto.
  rewrite <- (salary_match_short_runs salary) by auto.
  destruct salary; reflexivity.
Qed.

(** The scenario of the specification: a job that pays
    [$60,000 - $80,000] is returned for a salary range of [$55,000] and
    is not for one of [$90,000]. *)
Lemma salaryRange_scenario `{Runtime} now :
  let s := snd (createJob (design_job (Some "$60,000 - $80,000") now)
                          constructor) in
  fst (getJobs now (Some (only_salaryRange "$55,000")) s)
    = [ {| Job.id := 1;
           Job.data := design_job (Some "$60,000 - $80,000") now |} ] /\
  fst (getJobs now (Some (only_salaryRange "$90,000")) s) = [].
Proof. split; reflexivity. Qed.

(** C2 (the code departs from it). A job whose salary is written
    [$50000] is not returned for a salary range of [$1,000]: the pattern
    takes at most three digits before the first comma, reads the token
    [$500] and compares 500 with 1000, while the first dollar amount of
    the salary text, 50000, is at least 1000, so that the job is to be
    kept. *)
Theorem salary_filter_truncates_ungrouped_amount `{Runtime} (now : Z) :
  let job := design_job (Some "$50000") now in
  let s := snd (createJob job constructor) in
  fst (getJob 1 s) = Some {| Job.id := 1; Job.data := job |} /\
  salary_match "$50000" = Some "500" /\
  spec_salary_token "$50000" = Some "50000" /\
  fst (getJobs now (Some (only_salaryRange "$1,000")) s) = [] /\
  spec_salary_keeps "$1,000" {| Job.id := 1; Job.data := job |} = true.
Proof. repeat split. Qed.

(** ** [getJobs] and the filters of the specification *)

Lemma array_includes_In arr x : array_includes arr x = true <-> In x arr.
Proof.
  unfold array_includes. rewrite existsb_exists. split.
  - intros (y & Hin & Heq). apply String.eqb_eq in Heq. now subst.
  - intros Hin. exists x. split; auto. apply String.eqb_refl.
Qed.

Lemma prefix_occurs t s :
  String.prefix t s = true <-> exists after, s = String.append t after.
Proof.
  revert s. induction t as [|a t IH]; intros s.
  - split; [intros _; now exists s | intros _; now destruct s].
  - destruct s as [|b s]; simpl.
    + split; [discriminate | intros (after & Hs); discriminate].
    + destruct (Ascii.ascii_dec a b) as [->|Hne].
      * rewrite IH. split; intros (after & Hs); exists after; congruence.
      * split; [discriminate | intros (after & Hs); congruence].
Qed.

(** [includes] is the occurrence of a substring. *)
Lemma includes_occurs s t : includes s t = true <-> occurs_in t s.
Proof.
  split.
  - induction s as [|c s IH]; cbn [includes]; rewrite orb_true_iff.
    + intros [Hp|Hf]; [|discriminate].
      apply prefix_occurs in Hp. destruct Hp as (after & Hs).
      now exists EmptyString, after.
    + intros [Hp|Hi].
      * apply prefix_occurs in Hp. destruct Hp as (after & Hs).
        now exists EmptyString, after.
      * destruct (IH Hi) as (before & after & Hs).
        exists (String c before), after. cbn [String.append].
        now rewrite Hs.
  - intros (before & after & Hs). revert s Hs.
    induction before as [|c before IH]; intros s Hs.
    + assert (Hp : String.prefix t s = true)
        by (apply prefix_occurs; now exists after).
      destruct s; cbn [includes]; now rewrite Hp.
    + subst s. cbn [String.append includes].
      rewrite (IH _ eq_refl). apply orb_true_r.
Qed.

Lemma truthy_nonempty v : truthy v = true <-> v <> "".
Proof. destruct v; simpl; split; congruence. Qed.

Lemma constrains_text_iff o (test : string -> Job.t -> bool) job
    (P : string -> Prop) :
  (forall v, o = Some v -> v <> "" -> (test v job = true <-> P v)) ->
  (constrains (supplied_text o) test job = true <->
   forall v, o = Some v -> v <> "" -> P v).
Proof.
  intros Htest. unfold supplied_text, constrains.
  destruct o as [v|]; [|split; [discriminate | reflexivity]].
  destruct (truthy v) eqn:Hv.
  - apply truthy_nonempty in Hv. rewrite (Htest v eq_refl Hv). split.
    + intros HP v' Hv' _. now injection Hv' as <-.
    + intros HP. now apply HP.
  - split; [|reflexivity]. intros _ v' Hv' Hne. injection Hv' as <-.
    apply truthy_nonempty in Hne. congruence.
Qed.

Lemma constrains_set_iff o (test : list string -> Job.t -> bool) job
    (P : list string -> Prop) :
  (forall l, test l job = true <-> P l) ->
  (constrains (supplied_set o) test job = true <->
   forall l, o = Some l -> l <> [] -> P l).
Proof.
  intros Htest. unfold supplied_set, constrains.
  destruct o as [[|x l]|].
  - split; [|reflexivity]. intros _ l' Hl' Hne. congruence.
  - rewrite Htest. split.
    + intros HP l' Hl' _. now injection Hl' as <-.
    + intros HP. now apply HP.
  - split; [discriminate | reflexivity].
Qed.

Lemma datePosted_days_windows v days :
  datePosted_days v = Some days <-> In (v, days) date_windows.
Proof.
  unfold datePosted_days, date_windows.
  destruct (String.eqb_spec v "last24h") as [->|H1];
    [simpl; intuition congruence|].
  destruct (String.eqb_spec v "last3d") as [->|H3];
    [simpl; intuition congruence|].
  destruct (String.eqb_spec v "last7d") as [->|H7];
    [simpl; intuition congruence|].
  destruct (String.eqb_spec v "last14d") as [->|H14];
    [simpl; intuition congruence|].
  simpl. intuition congruence.
Qed.

(** On a stored job, the test that [getJobs] makes is the match of the
    specification, in a time zone whose clock does not change within
    the days of the date filter and in a store whose salary amounts the
    pattern of the code reads in full. *)
Lemma satisfies_matches `{Runtime} now f s job :
  (forall v days, Filters.datePosted f = Some v -> In (v, days) date_windows ->
     setDateBack days now = now - days * ms_per_day) ->
  (forall v, Filters.salaryRange f = Some v -> v <> "" -> reads_in_full v s) ->
  In job (JsMap.values (jobs s)) ->
  (satisfies now (Some f) job = true <-> matches now f job).
Proof.
  intros Hdays Hfull Hin. unfold satisfies, matches.
  rewrite !andb_true_iff.
  rewrite (constrains_text_iff (Filters.search f) _ job
             (fun v => matches_text v (Job.title (Job.data job)) \/
                       matches_text v (Job.company (Job.data job)) \/
                       matches_text v (Job.description (Job.data job)))).
  2:{ intros v _ _. unfold search_keeps, matches_text.
      rewrite !orb_true_iff, !includes_occurs. tauto. }
  rewrite (constrains_text_iff (Filters.location f) _ job
             (fun v => matches_text v (Job.location (Job.data job)))).
  2:{ intros v _ _. unfold location_keeps, matches_text.
      apply includes_occurs. }
  rewrite (constrains_text_iff (Filters.category f) _ job
             (fun v => Job.category (Job.data job) = v)).
  2:{ intros v _ _. apply String.eqb_eq. }
  rewrite (constrains_set_iff (Filters.jobType f) _ job
             (fun l => In (Job.jobType (Job.data job)) l)).
  2:{ intros l. apply array_includes_In. }
  rewrite (constrains_set_iff (Filters.experienceLevel f) _ job
             (fun l => In (Job.experienceLevel (Job.data job)) l)).
  2:{ intros l. apply array_includes_In. }
  rewrite (constrains_text_iff (Filters.datePosted f) _ job
             (fun v => forall days, In (v, days) date_windows ->
                now - days * ms_per_day <= Job.postedDate (Job.data job))).
  2:{ intros v Hv _. unfold datePosted_keeps.
      destruct (datePosted_days v) as [n|] eqn:E.
      - apply datePosted_days_windows in E.
        unfold posted_since. rewrite (Hdays v n Hv E), Z.leb_le. split.
        + intros Hle days Hd. apply datePosted_days_windows in Hd, E.
          congruence.
        + intros Hall. now apply Hall.
      - split; [|reflexivity]. intros _ days Hd.
        apply datePosted_days_windows in Hd. congruence. }
  rewrite (constrains_text_iff (Filters.salaryRange f) _ job
             (fun v => spec_salary_keeps v job = true)).
  2:{ intros v Hv Hne. rewrite salary_keeps_short_runs; [reflexivity|].
      intros salary Hsalary.
      apply (proj2 (Hfull v Hv Hne) job salary Hin Hsalary). }
  split.
  - intros ((((((H1 & H2) & H3) & H4) & H5) & H6) & H7).
    repeat split; try assumption. intros v days Hv Hd.
    destruct (String.eqb_spec v "") as [->|Hne]; [|now apply (H6 v)].
    apply datePosted_days_windows in Hd. discriminate Hd.
  - intros (H1 & H2 & H3 & H4 & H5 & H6 & H7).
    repeat split; try assumption. intros v Hv _ days Hd. now apply (H6 v).
Qed.

Lemma satisfies_matches_all `{Runtime} now filters s job :
  (forall f v days, filters = Some f -> Filters.datePosted f = Some v ->
     In (v, days) date_windows ->
     setDateBack days now = now - days * ms_per_day) ->
  (forall f v, filters = Some f -> Filters.salaryRange f = Some v ->
     v <> "" -> reads_in_full v s) ->
  In job (JsMap.values (jobs s)) ->
  (satisfies now filters job = true <-> matches_all now filters job).
Proof.
  intros Hdays Hfull Hin. destruct filters as [f|].
  - apply (satisfies_matches now f s job); eauto.
  - simpl. tauto.
Qed.

(** Apart from salaries written without commas, [getJobs] does what the
    specification says of it.  In a time zone whose clock does not
    change within the days of the date filter, and in a store whose
    salary amounts are read in full when a salary range is set,
    [getJobs(filters)] leaves the store as it was and returns exactly
    the stored jobs that match every filter that is set, as the
    specification words the filters (each such job once per time it is
    stored, no other job), and the list is sorted by postedDate, most
    recent first; so when the stored jobs are three jobs posted at
    t1 < t2 < t3 that match the filters, in any insertion order, the
    result is the job of t3, then that of t2, then that of t1. *)
Lemma getJobs_returns_matching_jobs `{Runtime} (now : Z)
    (filters : option Filters.t) (s : MemStorage) :
  (forall f v days, filters = Some f -> Filters.datePosted f = Some v ->
     In (v, days) date_windows ->
     setDateBack days now = now - days * ms_per_day) ->
  (forall f v, filters = Some f -> Filters.salaryRange f = Some v ->
     v <> "" -> reads_in_full v s) ->
  let result := fst (getJobs now filters s) in
  snd (getJobs now filters s) = s /\
  (exists keep : Job.t -> bool,
     (forall job, In job (JsMap.values (jobs s)) ->
        (keep job = true <-> matches_all now filters job)) /\
     Permutation result (filter keep (JsMap.values (jobs s)))) /\
  (forall job,
     In job result <->
     In job (JsMap.values (jobs s)) /\ matches_all now filters job) /\
  newest_first result /\
  (forall j1 j2 j3,
     Job.postedDate (Job.data j1) < Job.postedDate (Job.data j2) ->
     Job.postedDate (Job.data j2) < Job.postedDate (Job.data j3) ->
     matches_all now filters j1 ->
     matches_all now filters j2 ->
     matches_all now filters j3 ->
     Permutation (JsMap.values (jobs s)) [j1; j2; j3] ->
     result = [j3; j2; j1]).
Proof.
  intros Hdays Hfull result. subst result. rewrite getJobs_filter_sort.
  cbn [fst snd].
  pose proof (fun job => satisfies_matches_all now filters s job Hdays Hfull)
    as Hspec.
  assert (Hperm : Permutation
            (array_sort by_most_recent
               (filter (satisfies now filters) (JsMap.values (jobs s))))
            (filter (satisfies now filters) (JsMap.values (jobs s))))
    by apply array_sort_perm.
  split; [reflexivity|].
  split; [exists (satisfies now filters); split; [exact Hspec | exact Hperm]|].
  split; [|split].
  - intros job. split.
    + intros Hin. apply (Permutation_in _ Hperm) in Hin.
      apply filter_In in Hin. destruct Hin as [Hin Hsat].
      split; [exact Hin | now apply Hspec].
    + intros [Hin Hm].
      apply (Permutation_in _ (Permutation_sym Hperm)).
      apply filter_In. split; [exact Hin | now apply Hspec].
  - apply array_sort_newest_first.
  - intros j1 j2 j3 H12 H23 M1 M2 M3 Hjobs.
    assert (S1 : satisfies now filters j1 = true).
    { apply Hspec; auto.
      apply (Permutation_in _ (Permutation_sym Hjobs)). simpl. auto. }
    assert (S2 : satisfies now filters j2 = true).
    { apply Hspec; auto.
      apply (Permutation_in _ (Permutation_sym Hjobs)). simpl. auto. }
    assert (S3 : satisfies now filters j3 = true).
    { apply Hspec; auto.
      apply (Permutation_in _ (Permutation_sym Hjobs)). simpl. auto. }
    assert (Hall : Permutation
              (filter (satisfies now filters) (JsMap.values (jobs s)))
              [j3; j2; j1]).
    { assert (Hf : Permutation
                (filter (satisfies now filters) (JsMap.values (jobs s)))
                (filter (satisfies now filters) [j1; j2; j3])).
      { clear -Hjobs. induction Hjobs; simpl; auto.
        - destruct (satisfies now filters x); auto.
        - destruct (satisfies now filters x), (satisfies now filters y);
            auto. apply perm_swap.
        - eapply perm_trans; eauto. }
      rewrite Hf. simpl. rewrite S1, S2, S3.
      apply (Permutation_rev [j1; j2; j3]). }
    apply newest_first_unique.
    + apply array_sort_newest_first.
    + unfold newest_first. repeat constructor; lia.
    + eapply perm_trans; eauto.
    + intros a b Ha Hb Heq.
      apply (Permutation_in _ (perm_trans Hperm Hall)) in Ha, Hb.
      simpl in Ha, Hb.
      destruct Ha as [<-|[<-|[<-|[]]]], Hb as [<-|[<-|[<-|[]]]];
        auto; lia.
Qed.

(** A Design job whose salary is written [$50000] matches the filters
    [category: Design] and [salaryRange: $1,000] as the specification
    words them, and [getJobs] does not return it. *)
Lemma getJobs_drops_job_that_matches `{Runtime} now :
  let job := {| Job.id := 1; Job.data := design_job (Some "$50000") now |} in
  let s := snd (createJob (design_job (Some "$50000") now) constructor) in
  let f := category_and_salaryRange "Design" "$1,000" in
  JsMap.values (jobs s) = [job] /\
  matches now f job /\
  fst (getJobs now (Some f) s) = [].
Proof.
  intros job s f. split; [reflexivity|]. split; [|reflexivity].
  unfold matches, f, category_and_salaryRange.
  cbn [Filters.search Filters.location Filters.category Filters.jobType
       Filters.experienceLevel Filters.datePosted Filters.salaryRange].
  repeat split; try discriminate.
  - intros v Hv _. now injection Hv as <-.
  - intros v Hv _. now injection Hv as <-.
Qed.

(** C1 (the code departs from it, by the defect of C2).  A stored Design
    job whose salary is written [$50000] matches the filters
    [category: Design] and [salaryRange: $1,000] as the specification
    words them, and [getJobs] with these filters returns no job.  Apart
    from salaries written without commas the claim holds: in a time
    zone whose clock does not change within the days of the date
    filter, and in a store whose salary amounts are read in full when a
    salary range is set, [getJobs(filters)] leaves the store as it was
    and returns exactly the stored jobs that match every filter that is
    set (each such job once per time it is stored, no other job), sorted
    by postedDate, most recent first; so when the stored jobs are three
    jobs posted at t1 < t2 < t3 that match the filters, in any insertion
    order, the result is the job of t3, then that of t2, then that of
    t1. *)
Theorem getJobs_filters_and_sorts `{Runtime} (now : Z) :
  (let job :=
     {| Job.id := 1; Job.data := design_job (Some "$50000") now |} in
   let s := snd (createJob (design_job (Some "$50000") now) constructor) in
   let f := category_and_salaryRange "Design" "$1,000" in
   JsMap.values (jobs s) = [job] /\
   matches now f job /\
   fst (getJobs now (Some f) s) = []) /\
  (forall (filters : option Filters.t) (s : MemStorage),
     (forall f v days, filters = Some f -> Filters.datePosted f = Some v ->
        In (v, days) date_windows ->
        setDateBack days now = now - days * ms_per_day) ->
     (forall f v, filters = Some f -> Filters.salaryRange f = Some v ->
        v <> "" -> reads_in_full v s) ->
     let result := fst (getJobs now filters s) in
     snd (getJobs now filters s) = s /\
     (exists keep : Job.t -> bool,
        (forall job, In job (JsMap.values (jobs s)) ->
           (keep job = true <-> matches_all now filters job)) /\
        Permutation result (filter keep (JsMap.values (jobs s)))) /\
     (forall job,
        In job result <->
        In job (JsMap.values (jobs s)) /\ matches_all now filters job) /\
     newest_first result /\
     (forall j1 j2 j3,
        Job.postedDate (Job.data j1) < Job.postedDate (Job.data j2) ->
        Job.postedDate (Job.data j2) < Job.postedDate (Job.data j3) ->
        matches_all now filters j1 ->
        matches_all now filters j2 ->
        matches_all now filters j3 ->
        Permutation (JsMap.values (jobs s)) [j1; j2; j3] ->
        result = [j3; j2; j1])).
Proof.
  split.
  - apply getJobs_drops_job_that_matches.
  - intros filters s. apply getJobs_returns_matching_jobs.
Qed.

(** ** The properties at sample stores *)

Lemma in_one {A} (x y : A) : In x [y] -> y = x.
Proof. intros [H|[]]. exact H. Qed.

Lemma updateApplicationStatus_spec_witness :
  let s := snd (createApplication sample_application constructor) in
  updateApplicationStatus 2 "hired" s = (None, s) /\
  exists a',
    fst (updateApplicationStatus 1 "hired" s) = Some a' /\
    Application.status (Application.data a') = "hired" /\
    Application.name (Application.data a') = "Ada".
Proof.
  intros s. split.
  - apply (proj1 (updateApplicationStatus_spec s 2 "hired")). reflexivity.
  - destruct (proj2 (updateApplicationStatus_spec s 1 "hired")
                {| Application.id := 1; Application.data := sample_application |}
                eq_refl)
      as (a' & Hret & _ & Hst & _ & _ & _ & Hname & _).
    exists a'. repeat split; assumption.
Defined.

Lemma ids_unique_increasing_never_reused_witness :
  let s := run (CreateUser sample_user) constructor in
  reachable s /\
  NoDup (JsMap.keys (users s)) /\
  creates_take_counter s /\
  kept s (run_all [CreateUser sample_user; CreateJob technology_job] s).
Proof.
  intros s.
  assert (Hr : reachable s) by (apply reachable_call, reachable_new).
  destruct (ids_unique_increasing_never_reused s Hr)
    as (_ & (Hnd & _) & _ & Hcreate & Hkept).
  split; [exact Hr|]. split; [exact Hnd|]. split; [exact Hcreate|].
  apply Hkept.
Defined.

Lemma createJob_increments_matching_category_witness :
  reachable constructor /\
  exists c c',
    has_name "Technology" constructor c /\
    fst (getCategory (Category.id c)
           (snd (createJob technology_job constructor))) = Some c' /\
    Category.name (Category.data c') = Category.name (Category.data c) /\
    (Category.jobCount (Category.data c) = Some (Double.of_Z 1245) ->
     Category.jobCount (Category.data c') = Some (Double.of_Z 1246)).
Proof.
  split; [apply reachable_new|].
  destruct (createJob_increments_matching_category constructor
              technology_job reachable_new) as (_ & _ & Hsome & _).
  destruct Hsome
    as (c & c' & Hc & _ & _ & Hget & (_ & Hname & _) & _ & Hone & _).
  - exists first_technology. split; [|reflexivity]. simpl. auto.
  - exists c, c'. split; [exact Hc|]. split; [exact Hget|].
    split; [exact Hname|].
    intros Hcount. apply (Hone 1245); [lia | exact Hcount].
Defined.

Lemma createJob_duplicate_names_first_only_witness :
  let s := run (CreateCategory second_technology) constructor in
  let s' := snd (createJob technology_job s) in
  reachable s /\
  has_name "Technology" s first_technology /\
  has_name "Technology" s
    {| Category.id := 9; Category.data := second_technology |} /\
  (exists c',
     fst (getCategory 1 s') = Some c' /\
     Category.jobCount (Category.data c') = Some (Double.of_Z 1246)) /\
  fst (getCategory 9 s')
    = Some {| Category.id := 9; Category.data := second_technology |}.
Proof.
  intros s s'.
  assert (Hr : reachable s) by (apply reachable_call, reachable_new).
  assert (H1 : has_name "Technology" s first_technology)
    by (split; [simpl; auto | reflexivity]).
  assert (H9 : has_name "Technology" s
                 {| Category.id := 9; Category.data := second_technology |})
    by (split; [simpl; tauto | reflexivity]).
  assert (Hlow : forall c', has_name (Job.category technology_job) s c' ->
                            Category.id first_technology <= Category.id c').
  { intros c' [Hin _]. simpl in Hin.
    repeat (destruct Hin as [<-|Hin]; [simpl; lia|]). destruct Hin. }
  destruct (createJob_duplicate_names_first_only s technology_job
              first_technology Hr H1 Hlow)
    as ((c' & Hfirst & _ & _ & Hone) & Hothers).
  split; [exact Hr|]. split; [exact H1|]. split; [exact H9|].
  split.
  - exists c'. split; [exact Hfirst|].
    apply (Hone 1245); [lia | reflexivity].
  - apply (Hothers _ H9). discriminate.
Defined.

Lemma post_users_checks_username_witness :
  let s := run (CreateUser sample_user) constructor in
  reachable constructor /\ reachable s /\
  post_users (user_body "ada") constructor
    = ({| status := 201;
          json := JUser {| User.id := 1; User.data := sample_user |} |}, s) /\
  post_users (user_body "ada") s
    = ({| status := 400; json := JMessage "Username already exists" |}, s)
  /\ status (fst (post_users (user_body "Ada") s)) = 201.
Proof.
  intros s.
  assert (Hr : reachable s) by (apply reachable_call, reachable_new).
  destruct (post_users_checks_username constructor (user_body "ada")
              (user_body "ada") reachable_new eq_refl)
    as (Hnew & _ & _).
  destruct (post_users_checks_username s (user_body "ada")
              (user_body "ada") Hr eq_refl) as (_ & Hdup & _).
  destruct (post_users_checks_username s (user_body "Ada")
              (user_body "Ada") Hr eq_refl) as (Hother & _ & _).
  split; [apply reachable_new|]. split; [exact Hr|]. split; [|split].
  - apply Hnew. vm_compute. tauto.
  - apply Hdup. exists {| User.id := 1; User.data := sample_user |}.
    vm_compute. tauto.
  - destruct Hother as (-> & _); [|reflexivity].
    vm_compute. intros u [<-|[]]. discriminate.
Defined.

Lemma getJobs_filters_and_sorts_witness :
  let paid := Some "$60,000 - $80,000" in
  let j1 := {| Job.id := 3; Job.data := design_job paid 100 |} in
  let j2 := {| Job.id := 1; Job.data := design_job paid 200 |} in
  let j3 := {| Job.id := 2; Job.data := design_job paid 300 |} in
  let s := run_all [CreateJob (design_job paid 200);
                    CreateJob (design_job paid 300);
                    CreateJob (design_job paid 100)] constructor in
  JsMap.values (jobs s) = [j2; j3; j1] /\
  @matches ascii_utc 400 seven_filters j1 /\
  fst (@getJobs ascii_utc 400 (Some seven_filters) s) = [j3; j2; j1].
Proof.
  intros paid j1 j2 j3 s.
  assert (Hm : forall id t, 0 <= t ->
            @matches ascii_utc 400 seven_filters
              {| Job.id := id; Job.data := design_job paid t |}).
  { intros id t Ht. unfold matches, seven_filters.
    cbn [Filters.search Filters.location Filters.category Filters.jobType
         Filters.experienceLevel Filters.datePosted Filters.salaryRange
         Job.data Job.title Job.company Job.description Job.location
         Job.category Job.jobType Job.experienceLevel Job.postedDate
         design_job].
    split; [|split; [|split; [|split; [|split; [|split]]]]].
    - intros v Hv _. injection Hv as <-. left.
      exists EmptyString, "er". reflexivity.
    - intros v Hv _. injection Hv as <-.
      exists EmptyString, EmptyString. reflexivity.
    - intros v Hv _. injection Hv as <-. reflexivity.
    - intros l Hl _. injection Hl as <-. right. left. reflexivity.
    - intros l Hl _. injection Hl as <-. left. reflexivity.
    - intros v days Hv Hd. injection Hv as <-.
      apply datePosted_days_windows in Hd. injection Hd as <-.
      unfold ms_per_day. lia.
    - intros v Hv _. injection Hv as <-. reflexivity. }
  assert (Hfull : forall f v, Some seven_filters = Some f ->
            Filters.salaryRange f = Some v -> v <> "" -> reads_in_full v s).
  { intros f v Hf Hv _. injection Hf as <-. injection Hv as <-.
    split; [simpl; lia|].
    change (JsMap.values (jobs s)) with [j2; j3; j1].
    intros job salary Hin Hsalary.
    assert (Hs : salary = "$60,000 - $80,000").
    { destruct Hin as [<-|[<-|Hin]];
        [| |apply in_one in Hin; subst job];
        cbv in Hsalary; now injection Hsalary as <-. }
    subst salary. split; [reflexivity|].
    intros g Hg. injection Hg as <-. simpl. lia. }
  split; [reflexivity|]. split; [apply Hm; lia|].
  apply (proj2 (proj2 (proj2 (proj2
           (proj2 (@getJobs_filters_and_sorts ascii_utc 400)
              (Some seven_filters) s
              (fun _ _ _ _ _ _ => eq_refl) Hfull))))).
  - simpl. lia.
  - simpl. lia.
  - apply Hm. lia.
  - apply Hm. lia.
  - apply Hm. lia.
  - change (JsMap.values (jobs s)) with [j2; j3; j1].
    apply Permutation_sym.
    apply (perm_trans (perm_swap j2 j1 [j3])).
    apply perm_skip. apply perm_swap.
Defined.

(* ================================================================== *)
(** * Further properties of the store *)

(** ** Values of a collection after a write *)

Section ValuesFacts.
Context {V : Type} (idof : V -> Z).
Implicit Types (m : JsMap.t V) (k c : Z) (v : V).

Lemma values_set_fresh m k v :
  JsMap.get k m = None -> JsMap.values (JsMap.set k v m) = JsMap.values m ++ [v].
Proof.
  intros Hget. rewrite set_fresh by now apply get_none_iff.
  unfold JsMap.values. now rewrite map_app.
Qed.

Lemma values_create m c v :
  table_ok idof m c ->
  JsMap.values (JsMap.set c v m) = JsMap.values m ++ [v].
Proof. intros Hok. apply values_set_fresh. eapply table_ok_fresh; eauto. Qed.

(** A write under a key that is there replaces the record of that id,
    in place. *)
Lemma values_update m c k v :
  table_ok idof m c -> In k (JsMap.keys m) ->
  JsMap.values (JsMap.set k v m)
  = map (fun x => if idof x =? k then v else x) (JsMap.values m).
Proof.
  intros Hok. pose proof (table_ok_nodup _ _ _ Hok) as Hnd.
  destruct Hok as (_ & _ & Hids). clear c.
  induction m as [|[k' v'] m IH]; simpl; [tauto|].
  apply Forall_cons_iff in Hids. destruct Hids as [Hid Hids'].
  simpl in Hid, Hnd. apply NoDup_cons_iff in Hnd.
  destruct Hnd as [Hnotin Hnd'].
  intros Hin. rewrite Hid. rewrite (Z.eqb_sym k' k).
  destruct (k =? k') eqn:E; simpl.
  - apply Z.eqb_eq in E. subst k. f_equal.
    unfold JsMap.values. rewrite map_map. apply map_ext_in.
    intros [k2 v2] Hin2. simpl.
    rewrite Forall_forall in Hids'. specialize (Hids' _ Hin2).
    simpl in Hids'. rewrite Hids'.
    destruct (k2 =? k') eqn:E2; auto. apply Z.eqb_eq in E2.
    exfalso. apply Hnotin. unfold JsMap.keys. apply in_map_iff.
    exists (k2, v2). split; auto.
  - f_equal. apply IH; auto. apply Z.eqb_neq in E.
    destruct Hin; congruence.
Qed.

Lemma map_id_values m c :
  table_ok idof m c -> map idof (JsMap.values m) = ids_below c.
Proof.
  intros (_ & <- & Hids). unfold JsMap.values, JsMap.keys.
  rewrite map_map. apply map_ext_in. intros kv Hin.
  rewrite Forall_forall in Hids. now apply Hids.
Qed.
End ValuesFacts.

Lemma createJob_frame job s :
  let s' := snd (createJob job s) in
  users s' = users s /\
  applications s' = applications s /\
  jobs s'
  = JsMap.set (jobIdCounter s)
      {| Job.id := jobIdCounter s; Job.data := job |} (jobs s) /\
  userIdCounter s' = userIdCounter s /\
  applicationIdCounter s' = applicationIdCounter s /\
  categoryIdCounter s' = categoryIdCounter s /\
  JsMap.keys (categories s') = JsMap.keys (categories s).
Proof.
  cbv zeta. rewrite createJob_steps. cbn [snd].
  destruct (category_named _ s) as [c|].
  - destruct (incrementCategoryJobCount_frame (Category.id c)
                (job_stored job s))
      as (-> & -> & -> & -> & _ & -> & ->).
    unfold job_stored. fields. repeat split.
    run_store.
    destruct (JsMap.get (Category.id c) (categories s)) as [cat|] eqn:Hget;
      fields; auto.
    apply keys_set_present. destruct (in_dec Z.eq_dec (Category.id c)
                                        (JsMap.keys (categories s))); auto.
    apply get_none_iff in n. congruence.
  - unfold job_stored. fields. repeat split.
Qed.

(** What a call does to the categories: nothing, a new last category, or
    one more job for a category that is there. *)
Lemma run_categories c s :
  categories (run c s) = categories s \/
  (exists cat,
     categories (run c s)
     = JsMap.set (categoryIdCounter s)
         {| Category.id := categoryIdCounter s; Category.data := cat |}
         (categories s)) \/
  (exists k cat,
     JsMap.get k (categories s) = Some cat /\
     categories (run c s)
     = JsMap.set k (with_one_more_job cat) (categories s)).
Proof.
  assert (Hinc : forall id s0,
            categories (snd (incrementCategoryJobCount id s0)) = categories s0 \/
            exists k cat,
              JsMap.get k (categories s0) = Some cat /\
              categories (snd (incrementCategoryJobCount id s0))
              = JsMap.set k (with_one_more_job cat) (categories s0)).
  { intros id s0. run_store.
    destruct (JsMap.get id (categories s0)) as [cat|] eqn:Hget; fields;
      [right; exists id, cat; split; auto | left; reflexivity]. }
  destruct c as [user|job|app|id st|cat|id]; cbn [run].
  - left. reflexivity.
  - rewrite createJob_steps. cbn [snd].
    destruct (category_named _ s) as [c|]; [|left; reflexivity].
    destruct (Hinc (Category.id c) (job_stored job s)) as [->|Hbump];
      [left; reflexivity|].
    right. right. exact Hbump.
  - left. reflexivity.
  - left. run_store. destruct (JsMap.get id (applications s)); reflexivity.
  - right. left. exists cat. reflexivity.
  - destruct (Hinc id s) as [->|Hbump]; [left; reflexivity|].
    right. right. exact Hbump.
Qed.

(** ** Categories and their job counts *)

(** X1. [incrementCategoryJobCount(id)] on an id that has no category
    returns the not-found value and the store it was given.  On an id
    that has a category [c] it returns the category that it stores
    under that id, which has the id, the name and the icon of [c]; its
    job count is the sum of doubles [x + 1] when the count of [c] is a
    number [x]: the count plus exactly one when that count is an integer
    from 0 to 2^53 - 1, and 2^53 again when that count is 2^53; it is
    [NaN] when [c] has no job count or has [NaN]; every other category,
    the users, the jobs, the applications and the four counters are as
    they were. *)
Theorem incrementCategoryJobCount_spec (s : MemStorage) (id : Z) :
  (JsMap.get id (categories s) = None ->
   incrementCategoryJobCount id s = (None, s)) /\
  (forall c, JsMap.get id (categories s) = Some c ->
   let s' := snd (incrementCategoryJobCount id s) in
   exists c',
     fst (incrementCategoryJobCount id s) = Some c' /\
     fst (getCategory id s') = Some c' /\
     same_but_jobCount c c' /\
     (forall x, Category.jobCount (Category.data c) = Some x ->
        Category.jobCount (Category.data c')
          = Some (Double.add x (Double.of_Z 1))) /\
     (forall z, 0 <= z < 2 ^ 53 ->
        Category.jobCount (Category.data c) = Some (Double.of_Z z) ->
        Category.jobCount (Category.data c') = Some (Double.of_Z (z + 1)) /\
        one_more (Category.jobCount (Category.data c))
                 (Category.jobCount (Category.data c'))) /\
     (Category.jobCount (Category.data c) = Some (Double.of_Z (2 ^ 53)) ->
      Category.jobCount (Category.data c') = Some (Double.of_Z (2 ^ 53))) /\
     (Category.jobCount (Category.data c) = None \/
      Category.jobCount (Category.data c) = Some Double.NaN ->
      Category.jobCount (Category.data c') = Some Double.NaN) /\
     (forall k, k <> id -> fst (getCategory k s') = fst (getCategory k s)) /\
     JsMap.keys (categories s') = JsMap.keys (categories s) /\
     users s' = users s /\ jobs s' = jobs s /\
     applications s' = applications s /\
     userIdCounter s' = userIdCounter s /\
     jobIdCounter s' = jobIdCounter s /\
     applicationIdCounter s' = applicationIdCounter s /\
     categoryIdCounter s' = categoryIdCounter s).
Proof.
  split.
  - intros Hget. run_store. now rewrite Hget.
  - intros c Hget s'. subst s'. exists (with_one_more_job c).
    run_store. rewrite Hget. fields.
    split; [reflexivity|]. split; [apply get_set_eq|].
    split; [repeat split|].
    split.
    { intros x Hx. unfold with_one_more_job.
      cbn [Category.jobCount Category.data]. now rewrite Hx. }
    split; [intros z Hz Hc; now apply with_one_more_job_exact|].
    split.
    { intros Hc. unfold with_one_more_job.
      cbn [Category.jobCount Category.data]. rewrite Hc.
      cbn [Double.ToNumber]. now rewrite add_one_at_limit. }
    split.
    { intros Hc. unfold with_one_more_job.
      cbn [Category.jobCount Category.data].
      destruct Hc as [-> | ->]; reflexivity. }
    split; [intros k Hk; apply get_set_ne; congruence|].
    split; [|repeat split].
    apply keys_set_present.
    destruct (in_dec Z.eq_dec id (JsMap.keys (categories s))) as [|Hn]; auto.
    apply get_none_iff in Hn. congruence.
Qed.

Lemma run_category_grows c s k cat z :
  store_ok s -> JsMap.get k (categories s) = Some cat ->
  0 <= z <= 2 ^ 53 ->
  Category.jobCount (Category.data cat) = Some (Double.of_Z z) ->
  exists cat' z',
    JsMap.get k (categories (run c s)) = Some cat' /\
    same_but_jobCount cat cat' /\
    Category.jobCount (Category.data cat') = Some (Double.of_Z z') /\
    z <= z' <= 2 ^ 53.
Proof.
  intros (_ & _ & _ & Hc) Hget Hz Hcount.
  destruct (run_categories c s) as [->|[(new & ->)|(k0 & cat0 & Hget0 & ->)]].
  - exists cat, z. split; auto. split; [apply same_but_jobCount_refl|].
    split; [assumption | lia].
  - exists cat, z.
    split; [|split; [apply same_but_jobCount_refl | split; [assumption|lia]]].
    eapply get_set_keeps; eauto. eapply table_ok_fresh; eauto.
  - destruct (Z.eq_dec k0 k) as [->|Hne].
    + assert (cat0 = cat) as -> by congruence.
      exists (with_one_more_job cat), (Z.min (z + 1) (2 ^ 53)).
      split; [apply get_set_eq|]. split; [repeat split|].
      split; [|lia].
      unfold with_one_more_job. cbn [Category.jobCount Category.data].
      rewrite Hcount. cbn [Double.ToNumber]. now rewrite add_one_min.
    + exists cat, z. rewrite get_set_ne by assumption.
      split; auto. split; [apply same_but_jobCount_refl|].
      split; [assumption | lia].
Qed.

(** X2. A job count never goes down: in a reachable store, a category
    whose job count is an integer [z] from 0 to 2^53 is found under its
    id after any calls, with the same id, name and icon and with a job
    count that is an integer from [z] to 2^53. *)
Theorem jobCount_never_decreases (s : MemStorage) (cs : list call) (k : Z)
    (c : Category.t) (z : Z) :
  reachable s ->
  JsMap.get k (categories s) = Some c ->
  0 <= z <= 2 ^ 53 ->
  Category.jobCount (Category.data c) = Some (Double.of_Z z) ->
  exists c' z',
    JsMap.get k (categories (run_all cs s)) = Some c' /\
    Category.id c' = Category.id c /\
    Category.name (Category.data c') = Category.name (Category.data c) /\
    Category.icon (Category.data c') = Category.icon (Category.data c) /\
    Category.jobCount (Category.data c') = Some (Double.of_Z z') /\
    Double.to_Z (Double.of_Z z') = Some z' /\
    z <= z' <= 2 ^ 53.
Proof.
  intros Hr. apply reachable_ok in Hr. revert s c z Hr.
  induction cs as [|call cs IH]; intros s c z Hok Hget Hz Hcount; simpl.
  - exists c, z. repeat split; auto; try lia. now apply to_Z_of_Z.
  - destruct (run_category_grows call s k c z Hok Hget Hz Hcount)
      as (c1 & z1 & Hget1 & (Hid & Hname & Hicon) & Hcount1 & Hle).
    destruct (IH (run call s) c1 z1 (run_ok _ _ Hok) Hget1) as
      (c' & z' & Hget' & Hid' & Hname' & Hicon' & Hcount' & Hint & Hle');
      [lia | assumption |].
    exists c', z'. repeat split; try congruence; lia.
Qed.

(** X3. In a reachable store [getCategories] lists the categories in the
    order of their creation, which is the order of their ids 1, 2, ...;
    [createCategory] puts the new category last, and [createJob] keeps
    the list's ids, names and icons. *)
Theorem getCategories_in_creation_order (s : MemStorage) :
  reachable s ->
  map Category.id (fst (getCategories s)) = ids_below (categoryIdCounter s)
  /\
  (forall category,
     fst (getCategories (snd (createCategory category s)))
     = fst (getCategories s) ++ [fst (createCategory category s)]) /\
  (forall job,
     map (fun c => (Category.id c, Category.name (Category.data c),
                    Category.icon (Category.data c)))
         (fst (getCategories (snd (createJob job s))))
     = map (fun c => (Category.id c, Category.name (Category.data c),
                      Category.icon (Category.data c)))
           (fst (getCategories s))).
Proof.
  intros Hr. pose proof (reachable_ok _ Hr) as Hok.
  pose proof Hok as (_ & _ & _ & Hc).
  split; [|split].
  - run_store. now apply map_id_values.
  - intros category. run_store. eapply values_create; eauto.
  - intros job. unfold getCategories, read. cbn [fst].
    change (snd (createJob job s)) with (run (CreateJob job) s).
    destruct (run_categories (CreateJob job) s)
      as [->|[(new & Hnew)|(k0 & cat0 & Hget0 & ->)]]; auto.
    + exfalso.
      pose proof (createJob_frame job s) as (_ & _ & _ & _ & _ & _ & Hkeys).
      cbn [run] in Hnew. rewrite Hnew in Hkeys.
      unfold JsMap.keys in Hkeys.
      rewrite set_fresh in Hkeys
        by (apply get_none_iff; eapply table_ok_fresh; eauto).
      apply (f_equal (@List.length Z)) in Hkeys.
      rewrite map_app, length_app in Hkeys. simpl in Hkeys. lia.
    + rewrite (values_update Category.id _ _ _ _ Hc).
      * rewrite map_map. apply map_ext_in. intros c Hin.
        destruct (Category.id c =? k0) eqn:E; auto.
        apply Z.eqb_eq in E.
        pose proof (in_values_get _ _ _ _ Hc Hin) as Hg.
        rewrite E in Hg. assert (cat0 = c) as -> by congruence.
        reflexivity.
      * destruct (in_dec Z.eq_dec k0 (JsMap.keys (categories s)))
          as [|Hn]; auto.
        apply get_none_iff in Hn. congruence.
Qed.

(** ** Lists by employer, by job and by user *)

Lemma createJob_values job s :
  store_ok s ->
  JsMap.values (jobs (snd (createJob job s)))
  = JsMap.values (jobs s) ++ [fst (createJob job s)].
Proof.
  intros (_ & Hj & _).
  pose proof (createJob_frame job s) as (_ & _ & -> & _).
  rewrite createJob_steps. cbn [fst]. eapply values_create; eauto.
Qed.

(** X4. In a reachable store [createJob] puts the new job last in the
    list that [getJobsByEmployer] returns for the job's employer and
    leaves the list of every other employer as it was; the lists are in
    the order of creation. *)
Theorem getJobsByEmployer_after_createJob (s : MemStorage)
    (job : InsertJob) (employerId : Z) :
  reachable s ->
  fst (getJobsByEmployer employerId (snd (createJob job s)))
  = fst (getJobsByEmployer employerId s)
    ++ (if Job.employerId job =? employerId
        then [fst (createJob job s)] else []).
Proof.
  intros Hr. apply reachable_ok in Hr.
  unfold getJobsByEmployer, read. cbn [fst].
  rewrite (createJob_values _ _ Hr), filter_app. reflexivity.
Qed.

(** X5. In a reachable store [createApplication] puts the new
    application last in the list of its job and in the list of its user,
    and leaves the lists of every other job and user as they were. *)
Theorem application_lists_after_createApplication (s : MemStorage)
    (application : InsertApplication) (jobId userId : Z) :
  reachable s ->
  let r := createApplication application s in
  fst (getApplicationsByJob jobId (snd r))
  = fst (getApplicationsByJob jobId s)
    ++ (if Application.jobId application =? jobId then [fst r] else []) /\
  fst (getApplicationsByUser userId (snd r))
  = fst (getApplicationsByUser userId s)
    ++ (if Application.userId application =? userId then [fst r] else []).
Proof.
  intros Hr r. subst r. apply reachable_ok in Hr.
  destruct Hr as (_ & _ & Ha & _).
  unfold getApplicationsByJob, getApplicationsByUser. run_store.
  rewrite (values_create Application.id _ _ _ Ha), !filter_app.
  split; reflexivity.
Qed.

Lemma filter_map_commute {A} (p : A -> bool) (f : A -> A) l :
  (forall x, p (f x) = p x) ->
  filter p (map f l) = map f (filter p l).
Proof.
  intros Hp. induction l as [|x l IH]; simpl; auto.
  rewrite Hp. destruct (p x); simpl; now rewrite IH.
Qed.

(** X6. In a reachable store a status update moves no application: the
    lists that [getApplicationsByJob] and [getApplicationsByUser] return
    afterwards are the lists of before, in the same order, with the
    status replaced in the application of the given id and every other
    application as it was. *)
Theorem application_lists_after_status_update (s : MemStorage) (id : Z)
    (status : string) (jobId userId : Z) :
  reachable s ->
  let s' := snd (updateApplicationStatus id status s) in
  fst (getApplicationsByJob jobId s')
  = map (restatus id status) (fst (getApplicationsByJob jobId s)) /\
  fst (getApplicationsByUser userId s')
  = map (restatus id status) (fst (getApplicationsByUser userId s)).
Proof.
  intros Hr s'. subst s'. apply reachable_ok in Hr.
  destruct Hr as (_ & _ & Ha & _).
  assert (Hvalues :
            JsMap.values
              (applications (snd (updateApplicationStatus id status s)))
            = map (restatus id status) (JsMap.values (applications s))).
  { run_store.
    destruct (JsMap.get id (applications s)) as [a|] eqn:Hget; fields.
    - rewrite (values_update Application.id _ _ _ _ Ha).
      + apply map_ext_in. intros x Hin. unfold restatus.
        destruct (Application.id x =? id) eqn:E; auto.
        apply Z.eqb_eq in E.
        pose proof (in_values_get _ _ _ _ Ha Hin) as Hg.
        rewrite E in Hg. assert (a = x) as -> by congruence. reflexivity.
      + destruct (in_dec Z.eq_dec id (JsMap.keys (applications s)))
          as [|Hn]; auto.
        apply get_none_iff in Hn. congruence.
    - rewrite <- (map_id (JsMap.values (applications s))) at 1.
      apply map_ext_in. intros x Hin. unfold restatus.
      destruct (Application.id x =? id) eqn:E; auto.
      apply Z.eqb_eq in E.
      pose proof (in_values_get _ _ _ _ Ha Hin) as Hg.
      rewrite E in Hg. congruence. }
  unfold getApplicationsByJob, getApplicationsByUser, read. cbn [fst].
  rewrite Hvalues. split; apply filter_map_commute; intros x;
    unfold restatus; destruct (Application.id x =? id); reflexivity.
Qed.

(** X7. In a reachable store every job that [getJobs] or
    [getJobsByEmployer] returns is the job that [getJob] finds under
    its id, and every application that [getApplicationsByJob] or
    [getApplicationsByUser] returns is the one stored under its id. *)
Theorem listed_records_are_found_by_id `{Runtime} (s : MemStorage) :
  reachable s ->
  (forall now filters job,
     In job (fst (getJobs now filters s)) ->
     fst (getJob (Job.id job) s) = Some job) /\
  (forall employerId job,
     In job (fst (getJobsByEmployer employerId s)) ->
     fst (getJob (Job.id job) s) = Some job /\
     Job.employerId (Job.data job) = employerId) /\
  (forall jobId a,
     In a (fst (getApplicationsByJob jobId s)) ->
     JsMap.get (Application.id a) (applications s) = Some a /\
     Application.jobId (Application.data a) = jobId) /\
  (forall userId a,
     In a (fst (getApplicationsByUser userId s)) ->
     JsMap.get (Application.id a) (applications s) = Some a /\
     Application.userId (Application.data a) = userId).
Proof.
  intros Hr. apply reachable_ok in Hr. destruct Hr as (_ & Hj & Ha & _).
  split; [|split; [|split]].
  - intros now filters job Hin. rewrite getJobs_filter_sort in Hin.
    cbn [fst] in Hin.
    apply (Permutation_in _ (array_sort_perm _ _)) in Hin.
    apply filter_In in Hin. destruct Hin as [Hin _].
    run_store. eapply in_values_get; eauto.
  - intros employerId job Hin. unfold getJobsByEmployer in Hin.
    run_store. apply filter_In in Hin. destruct Hin as [Hin He].
    split; [eapply in_values_get; eauto | now apply Z.eqb_eq].
  - intros jobId a Hin. unfold getApplicationsByJob in Hin.
    run_store. apply filter_In in Hin. destruct Hin as [Hin He].
    split; [eapply in_values_get; eauto | now apply Z.eqb_eq].
  - intros userId a Hin. unfold getApplicationsByUser in Hin.
    run_store. apply filter_In in Hin. destruct Hin as [Hin He].
    split; [eapply in_values_get; eauto | now apply Z.eqb_eq].
Qed.

(** ** The stores of a server *)

Lemma post_users_steps body parsed s :
  Schema.parse Schema.insertUserSchema body = inr parsed ->
  post_users body s
  = match fst (getUserByUsername
                 (User.username (as_InsertUser parsed)) s) with
    | Some _ =>
        ({| status := 400; json := JMessage "Username already exists" |}, s)
    | None =>
        ({| status := 201;
            json := JUser {| User.id := userIdCounter s;
                             User.data := as_InsertUser parsed |} |},
         snd (createUser (as_InsertUser parsed) s))
    end.
Proof.
  intros Hparse. unfold post_users. rewrite Hparse. unfold bind at 1.
  change (snd (getUserByUsername
                 (User.username (as_InsertUser parsed)) s)) with s.
  destruct (fst (getUserByUsername
                   (User.username (as_InsertUser parsed)) s));
    reflexivity.
Qed.

Lemma post_users_cases body s :
  (status (fst (post_users body s)) = 400 /\ snd (post_users body s) = s) \/
  exists user,
    ~ In (User.username user) (usernames s) /\
    post_users body s
    = ({| status := 201;
          json := JUser {| User.id := userIdCounter s; User.data := user |} |},
       snd (createUser user s)).
Proof.
  destruct (Schema.parse Schema.insertUserSchema body) as [e|parsed]
    eqn:Hparse.
  - left. unfold post_users. rewrite Hparse. split; reflexivity.
  - rewrite (post_users_steps _ _ s Hparse).
    destruct (fst (getUserByUsername
                     (User.username (as_InsertUser parsed)) s)) eqn:Hfind;
      [left; split; reflexivity|].
    right. exists (as_InsertUser parsed). split; [|reflexivity].
    run_store. unfold usernames. intros Hin. apply in_map_iff in Hin.
    destruct Hin as (u & Hname & Hin).
    apply (find_none _ _ Hfind) in Hin. apply String.eqb_neq in Hin.
    congruence.
Qed.

Lemma post_jobs_cases now body s :
  (status (fst (post_jobs now body s)) = 400 /\
   snd (post_jobs now body s) = s) \/
  exists job,
    post_jobs now body s
    = ({| status := 201; json := JJob (fst (createJob job s)) |},
       snd (createJob job s)).
Proof.
  unfold post_jobs.
  destruct (Schema.parse Schema.insertJobSchema body) as [e|parsed];
    [left; split; reflexivity|].
  right. eexists. reflexivity.
Qed.

Lemma post_applications_cases now body s :
  (status (fst (post_applications now body s)) = 400 /\
   snd (post_applications now body s) = s) \/
  exists application,
    post_applications now body s
    = ({| status := 201;
          json := JApplication (fst (createApplication application s)) |},
       snd (createApplication application s)).
Proof.
  unfold post_applications.
  destruct (Schema.parse Schema.insertApplicationSchema body)
    as [e|parsed]; [left; split; reflexivity|].
  right. eexists. reflexivity.
Qed.

Lemma patch_application_status_cases id status s :
  snd (patch_application_status id status s) = s \/
  exists k st,
    snd (patch_application_status id status s)
    = snd (updateApplicationStatus k st s).
Proof.
  unfold patch_application_status.
  destruct status as [st|]; [|left; reflexivity].
  destruct (truthy st); cbn [negb]; [|left; reflexivity].
  destruct (parseInt_any id) as [k|]; cbn [lookup].
  - right. exists k, st. unfold bind at 1.
    destruct (fst (updateApplicationStatus k st s)); reflexivity.
  - left. reflexivity.
Qed.

(** Induction over the stores of a server, by the call of the store that
    a request makes. *)
Lemma served_induction (P : MemStorage -> Prop) :
  P constructor ->
  (forall s user, reachable s -> P s ->
     ~ In (User.username user) (usernames s) ->
     P (snd (createUser user s))) ->
  (forall s job, reachable s -> P s -> P (snd (createJob job s))) ->
  (forall s application, reachable s -> P s ->
     P (snd (createApplication application s))) ->
  (forall s k status, reachable s -> P s ->
     P (snd (updateApplicationStatus k status s))) ->
  forall s, served s -> reachable s /\ P s.
Proof.
  intros Hnew Huser Hjob Happ Hstatus s Hs.
  induction Hs as [|s r Hs [Hr HP]]; [split; [constructor | exact Hnew]|].
  destruct r as [body|now body|now body|id status]; cbn [serve].
  - destruct (post_users_cases body s) as [[_ ->]|(user & Hfresh & ->)];
      [now split|]. cbn [snd]. split.
    + apply (reachable_call s (CreateUser user) Hr).
    + now apply Huser.
  - destruct (post_jobs_cases now body s) as [[_ ->]|(job & ->)];
      [now split|]. cbn [snd]. split.
    + apply (reachable_call s (CreateJob job) Hr).
    + now apply Hjob.
  - destruct (post_applications_cases now body s) as [[_ ->]|(app & ->)];
      [now split|]. cbn [snd]. split.
    + apply (reachable_call s (CreateApplication app) Hr).
    + now apply Happ.
  - destruct (patch_application_status_cases id status s)
      as [->|(k & st & ->)]; [now split|]. split.
    + apply (reachable_call s (UpdateApplicationStatus k st) Hr).
    + now apply Hstatus.
Qed.

Lemma served_reachable s : served s -> reachable s.
Proof.
  intros Hs. apply (served_induction (fun _ => True)); auto.
Qed.

Lemma find_app {A} (p : A -> bool) l l' :
  find p (l ++ l')
  = match find p l with Some x => Some x | None => find p l' end.
Proof.
  induction l as [|x l IH]; simpl; auto. destruct (p x); auto.
Qed.

Lemma updateApplicationStatus_frame id status s :
  let s' := snd (updateApplicationStatus id status s) in
  users s' = users s /\ jobs s' = jobs s /\ categories s' = categories s.
Proof.
  run_store. destruct (JsMap.get id (applications s)); fields; tauto.
Qed.

(** X8. In a reachable store, after [createUser] a lookup by username
    finds what it found before when it found a user, and finds the new
    user when it found none and the name is the new user's: the first
    user created with a name is the one that [getUserByUsername]
    returns. *)
Theorem getUserByUsername_after_createUser (s : MemStorage)
    (user : InsertUser) (username : string) :
  reachable s ->
  let r := createUser user s in
  fst (getUserByUsername username (snd r))
  = match fst (getUserByUsername username s) with
    | Some found => Some found
    | None =>
        if String.eqb (User.username user) username
        then Some (fst r) else None
    end.
Proof.
  intros Hr r. subst r. apply reachable_ok in Hr. destruct Hr as (Hu & _).
  run_store. rewrite (values_create User.id _ _ _ Hu), find_app.
  reflexivity.
Qed.

Lemma NoDup_map_inj {A B} (f : A -> B) l a b :
  NoDup (map f l) -> In a l -> In b l -> f a = f b -> a = b.
Proof.
  induction l as [|x l IH]; simpl; [tauto|].
  intros Hnd Ha Hb Hf. apply NoDup_cons_iff in Hnd.
  destruct Hnd as [Hnotin Hnd].
  destruct Ha as [->|Ha], Hb as [->|Hb]; auto.
  - exfalso. apply Hnotin. rewrite Hf. now apply in_map.
  - exfalso. apply Hnotin. rewrite <- Hf. now apply in_map.
Qed.

(** X9. In every store of a server, whatever requests led to it, no two
    users bear the same username, and [getUserByUsername] returns each
    stored user for its username. *)
Theorem served_usernames_unique (s : MemStorage) :
  served s ->
  NoDup (usernames s) /\
  (forall u, In u (JsMap.values (users s)) ->
     fst (getUserByUsername (User.username (User.data u)) s) = Some u).
Proof.
  intros Hs.
  assert (Hnd : reachable s /\ NoDup (usernames s)).
  { apply (served_induction (fun s => NoDup (usernames s))); auto.
    - unfold usernames. simpl. constructor.
    - intros s0 user Hr Hnd Hfresh. apply reachable_ok in Hr.
      destruct Hr as (Hu & _). unfold usernames in *. run_store.
      rewrite (values_create User.id _ _ _ Hu), map_app. simpl.
      apply NoDup_app; auto.
      + repeat constructor. simpl. tauto.
      + intros x Hx [<-|[]]. contradiction.
    - intros s0 job _ Hnd. unfold usernames.
      now destruct (createJob_frame job s0) as (-> & _).
    - intros s0 k st _ Hnd. unfold usernames.
      now destruct (updateApplicationStatus_frame k st s0) as (-> & _). }
  destruct Hnd as [_ Hnd]. split; auto.
  intros u Hin. run_store.
  destruct (find _ _) as [u'|] eqn:Hfind.
  - apply find_some in Hfind. destruct Hfind as [Hin' Heq].
    apply String.eqb_eq in Heq. f_equal.
    eapply (NoDup_map_inj (fun u => User.username (User.data u))); eauto.
  - apply (find_none _ _ Hfind) in Hin. apply String.eqb_neq in Hin.
    congruence.
Qed.

(** ** Job counts in the stores of a server *)

Lemma set_map_one {V} (F F' : Z * V -> Z * V) (m : JsMap.t V) k0 v0 v :
  NoDup (JsMap.keys m) -> In (k0, v0) m ->
  (forall kc, fst (F kc) = fst kc) ->
  F' (k0, v0) = (k0, v) ->
  (forall kc, In kc m -> fst kc <> k0 -> F' kc = F kc) ->
  JsMap.set k0 v (map F m) = map F' m.
Proof.
  intros Hnd Hin HF Hk0 Hother.
  induction m as [|[k' v'] m IH]; simpl; [destruct Hin|].
  simpl in Hnd. apply NoDup_cons_iff in Hnd. destruct Hnd as [Hnotin Hnd].
  destruct (F (k', v')) as [a b] eqn:E.
  pose proof (HF (k', v')) as Ha. rewrite E in Ha. simpl in Ha. subst a.
  destruct (k0 =? k') eqn:Ek.
  - apply Z.eqb_eq in Ek. subst k'.
    assert (v' = v0) as ->.
    { destruct Hin as [Heq|Hin]; [congruence|].
      exfalso. apply Hnotin. apply in_map_iff. exists (k0, v0). auto. }
    rewrite Hk0. f_equal. apply map_ext_in. intros kc Hkc.
    symmetry. apply Hother; [now right|].
    intros Heq. apply Hnotin. apply in_map_iff. exists kc. auto.
  - apply Z.eqb_neq in Ek. rewrite Hother; [|now left|simpl; congruence].
    rewrite E. f_equal. apply IH; auto.
    + destruct Hin as [Heq|Hin]; [congruence|auto].
    + intros kc Hkc. apply Hother. now right.
Qed.

Lemma seed_names_distinct :
  NoDup (map (fun kc : Z * Category.t =>
                Category.name (Category.data (snd kc)))
             (categories constructor)).
Proof.
  vm_compute.
  repeat (apply NoDup_cons; [simpl; intuition discriminate|]).
  apply NoDup_nil.
Qed.

Lemma jobs_in_category_createJob name job s :
  store_ok s ->
  jobs_in_category name (snd (createJob job s))
  = jobs_in_category name s
    + (if String.eqb (Job.category job) name then 1 else 0).
Proof.
  intros Hok. unfold jobs_in_category.
  rewrite (createJob_values _ _ Hok), filter_app, length_app, Nat2Z.inj_add.
  f_equal. rewrite createJob_steps. cbn [fst filter Job.category Job.data].
  destruct (String.eqb (Job.category job) name); reflexivity.
Qed.

Lemma seeded_with_jobs_same s s' :
  jobs s' = jobs s -> seeded_with_jobs s' = seeded_with_jobs s.
Proof.
  intros Hj. unfold seeded_with_jobs, jobs_in_category. now rewrite Hj.
Qed.

Lemma with_more_jobs_same n c :
  Category.id (with_more_jobs n c) = Category.id c /\
  Category.name (Category.data (with_more_jobs n c))
    = Category.name (Category.data c) /\
  Category.icon (Category.data (with_more_jobs n c))
    = Category.icon (Category.data c).
Proof.
  unfold with_more_jobs. induction (Z.to_nat n) as [|m IH]; simpl; auto.
Qed.

Lemma with_more_jobs_succ n c :
  0 <= n -> with_more_jobs (n + 1) c = with_one_more_job (with_more_jobs n c).
Proof.
  intros Hn. unfold with_more_jobs.
  replace (Z.to_nat (n + 1)) with (S (Z.to_nat n)) by lia. reflexivity.
Qed.

(** Counting [n] more jobs, for a count that is an integer from 0 to
    2^53: the count goes up by [n], and stops at 2^53. *)
Lemma with_more_jobs_count n c z :
  0 <= n -> 0 <= z <= 2 ^ 53 ->
  Category.jobCount (Category.data c) = Some (Double.of_Z z) ->
  Category.jobCount (Category.data (with_more_jobs n c))
  = Some (Double.of_Z (Z.min (z + n) (2 ^ 53))).
Proof.
  intros Hn Hz Hc. rewrite <- (Z2Nat.id n Hn). unfold with_more_jobs.
  rewrite Nat2Z.id. induction (Z.to_nat n) as [|m IH].
  - simpl Nat.iter. rewrite Hc. do 2 f_equal. lia.
  - change (Nat.iter (S m) with_one_more_job c)
      with (with_one_more_job (Nat.iter m with_one_more_job c)).
    set (x := Nat.iter m with_one_more_job c) in *.
    unfold with_one_more_job. cbn [Category.jobCount Category.data].
    rewrite IH. cbn [Double.ToNumber]. rewrite add_one_min by lia.
    do 2 f_equal. lia.
Qed.

Lemma jobs_in_category_nonneg name s : 0 <= jobs_in_category name s.
Proof. unfold jobs_in_category. lia. Qed.

Lemma createJob_seeded job s :
  store_ok s ->
  categories s = seeded_with_jobs s ->
  categories (snd (createJob job s)) = seeded_with_jobs (snd (createJob job s)).
Proof.
  intros Hok Hinv.
  set (named := fun kc : Z * Category.t =>
         String.eqb (Category.name (Category.data (snd kc)))
                    (Job.category job)).
  destruct (find named (categories constructor)) as [[k0 c0]|] eqn:Hfind.
  - apply find_some in Hfind. destruct Hfind as [Hin0 Hname0].
    unfold named in Hname0. simpl in Hname0. apply String.eqb_eq in Hname0.
    pose proof constructor_ok as (_ & _ & _ & Hseed).
    assert (Hk0 : Category.id c0 = k0).
    { destruct Hseed as (_ & _ & Hids). rewrite Forall_forall in Hids.
      apply (Hids _ Hin0). }
    set (c := with_more_jobs (jobs_in_category (Job.category job) s) c0).
    destruct (with_more_jobs_same
                (jobs_in_category (Job.category job) s) c0)
      as (Hidc & Hnamec & _).
    fold c in Hidc, Hnamec.
    assert (Hc : has_name (Job.category job) s c).
    { split; [|congruence]. rewrite Hinv. unfold JsMap.values.
      apply in_map_iff. eexists. split; [|apply in_map; exact Hin0].
      cbn [fst snd]. now rewrite Hname0. }
    assert (Hlow : forall c', has_name (Job.category job) s c' ->
                              Category.id c <= Category.id c').
    { intros c' [Hin' Hname']. rewrite Hinv in Hin'.
      unfold JsMap.values, seeded_with_jobs in Hin'. rewrite map_map in Hin'.
      apply in_map_iff in Hin'. destruct Hin' as ([k1 c1] & <- & Hin1).
      cbn [fst snd] in Hname' |- *.
      destruct (with_more_jobs_same
                  (jobs_in_category (Category.name (Category.data c1)) s) c1)
        as (Hid1 & Hname1 & _).
      assert ((k1, c1) = (k0, c0)) as Heq.
      { eapply (NoDup_map_inj
                  (fun kc : Z * Category.t =>
                     Category.name (Category.data (snd kc))));
          eauto using seed_names_distinct. simpl. congruence. }
      injection Heq as -> ->. lia. }
    rewrite (createJob_categories _ _ _ Hok Hc Hlow), Hinv.
    unfold seeded_with_jobs at 1.
    apply (set_map_one _ _ _ (Category.id c) c0).
    + eapply table_ok_nodup; eauto.
    + now rewrite Hidc, Hk0.
    + reflexivity.
    + cbn [fst snd]. f_equal.
      rewrite (jobs_in_category_createJob _ _ _ Hok), Hname0.
      rewrite String.eqb_refl.
      apply with_more_jobs_succ, jobs_in_category_nonneg.
    + intros [k1 c1] Hin1 Hne. cbn [fst snd] in Hne |- *. f_equal. f_equal.
      rewrite (jobs_in_category_createJob _ _ _ Hok).
      destruct (String.eqb (Job.category job)
                  (Category.name (Category.data c1))) eqn:E.
      * exfalso. apply Hne. apply String.eqb_eq in E.
        assert ((k1, c1) = (k0, c0)) as Heq.
        { eapply (NoDup_map_inj
                    (fun kc : Z * Category.t =>
                       Category.name (Category.data (snd kc))));
            eauto using seed_names_distinct. simpl. congruence. }
        injection Heq as -> ->. now rewrite Hidc, Hk0.
      * now rewrite Z.add_0_r.
  - rewrite createJob_categories_none.
    + rewrite Hinv at 1. unfold seeded_with_jobs. apply map_ext_in.
      intros [k1 c1] Hin1. cbn [fst snd]. f_equal. f_equal.
      rewrite (jobs_in_category_createJob _ _ _ Hok).
      apply (find_none _ _ Hfind) in Hin1. unfold named in Hin1.
      simpl in Hin1. rewrite String.eqb_sym, Hin1. now rewrite Z.add_0_r.
    + intros c' [Hin' Hname']. rewrite Hinv in Hin'.
      unfold JsMap.values, seeded_with_jobs in Hin'. rewrite map_map in Hin'.
      apply in_map_iff in Hin'. destruct Hin' as ([k1 c1] & <- & Hin1).
      destruct (with_more_jobs_same
                  (jobs_in_category (Category.name (Category.data c1)) s) c1)
        as (_ & Hname1 & _).
      cbn [fst snd] in Hname'. rewrite Hname1 in Hname'.
      apply (find_none _ _ Hfind) in Hin1.
      unfold named in Hin1. simpl in Hin1.
      apply String.eqb_neq in Hin1. congruence.
Qed.

(** The seeded job counts are integers. *)
Lemma seeded_counts c :
  In c (fst (getCategories constructor)) ->
  exists z, 0 <= z <= 2 ^ 53 /\
            Category.jobCount (Category.data c) = Some (Double.of_Z z).
Proof.
  intros Hin.
  assert (Hall : Forall (fun c =>
                   exists z, 0 <= z <= 2 ^ 53 /\
                     Category.jobCount (Category.data c)
                     = Some (Double.of_Z z))
                   (fst (getCategories constructor))).
  { change (fst (getCategories constructor))
      with (map (fun kc : Z * InsertCategory =>
                   {| Category.id := fst kc; Category.data := snd kc |})
                (combine [1; 2; 3; 4; 5; 6; 7; 8] defaultCategories)).
    unfold defaultCategories. cbn [combine map fst snd].
    repeat (apply Forall_cons;
            [eexists; split; [|reflexivity]; lia|]).
    apply Forall_nil. }
  rewrite Forall_forall in Hall. now apply Hall.
Qed.

(** X10. In every store of a server the categories are the eight seeded
    ones, each with one more job counted per stored job whose category
    is its name; so the job count of each is its seeded count plus the
    number of those jobs (up to 2^53, where a double stops counting):
    [getCategories] returns the seeded list with these counts. *)
Theorem served_jobCounts_track_jobs (s : MemStorage) :
  served s ->
  fst (getCategories s)
  = map (fun c =>
           with_more_jobs
             (jobs_in_category (Category.name (Category.data c)) s) c)
        (fst (getCategories constructor)) /\
  (forall c, In c (fst (getCategories constructor)) ->
     exists z,
       Category.jobCount (Category.data c) = Some (Double.of_Z z) /\
       Category.jobCount
         (Category.data
            (with_more_jobs
               (jobs_in_category (Category.name (Category.data c)) s) c))
       = Some (Double.of_Z
                 (Z.min
                    (z + jobs_in_category (Category.name (Category.data c)) s)
                    (2 ^ 53)))).
Proof.
  intros Hs. split.
  - assert (Hinv : reachable s /\ categories s = seeded_with_jobs s).
    { apply (served_induction
               (fun s => categories s = seeded_with_jobs s)); auto.
      - intros s0 job Hr Hinv. apply createJob_seeded; auto.
        now apply reachable_ok.
      - intros s0 k st _ Hinv.
        destruct (updateApplicationStatus_frame k st s0) as (_ & Hj & ->).
        now rewrite (seeded_with_jobs_same _ _ Hj). }
    destruct Hinv as [_ Hinv]. run_store. rewrite Hinv.
    unfold JsMap.values, seeded_with_jobs. now rewrite !map_map.
  - intros c Hin. destruct (seeded_counts c Hin) as (z & Hz & Hc).
    exists z. split; [exact Hc|].
    apply with_more_jobs_count; auto. apply jobs_in_category_nonneg.
Qed.

(* ================================================================== *)
(** * Further properties of [getJobs] *)

(** X11. A [datePosted] filter that is none of [last24h], [last3d],
    [last7d] and [last14d] (such as [all]) is treated as an unset
    filter. *)
Theorem getJobs_unknown_datePosted_is_unset `{Runtime} (now : Z)
    (f : Filters.t) (s : MemStorage) (v : string) :
  v <> "last24h" -> v <> "last3d" -> v <> "last7d" -> v <> "last14d" ->
  getJobs now (Some (with_datePosted (Some v) f)) s
  = getJobs now (Some (with_datePosted None f)) s.
Proof.
  intros H1 H3 H7 H14.
  assert (Hdays : datePosted_days v = None).
  { unfold datePosted_days.
    apply String.eqb_neq in H1, H3, H7, H14. now rewrite H1, H3, H7, H14. }
  unfold getJobs, read, with_datePosted. cbn [Filters.search Filters.location
    Filters.category Filters.jobType Filters.experienceLevel
    Filters.datePosted Filters.salaryRange].
  unfold when_set at 2 4. rewrite Hdays.
  destruct (truthy v); reflexivity.
Qed.

Lemma salary_keeps_NaN job : salary_keeps None job = false.
Proof.
  unfold salary_keeps. destruct (Job.salary (Job.data job)) as [t|]; auto.
  destruct (negb (truthy t)); auto.
  destruct (salary_match t); auto.
  unfold num_ge. destruct (parseInt _); reflexivity.
Qed.

Lemma filter_none {A} (p : A -> bool) l :
  (forall x, In x l -> p x = false) -> filter p l = [].
Proof.
  induction l as [|x l IH]; simpl; auto. intros Hp.
  rewrite (Hp x) by now left. apply IH. intros y Hy. apply Hp. now right.
Qed.

Lemma satisfies_with_salaryRange `{Runtime} now o f job :
  satisfies now (Some (with_salaryRange o f)) job
  = satisfies now (Some (with_salaryRange None f)) job &&
    constrains (supplied_text o)
      (fun v => salary_keeps (parseInt (strip_non_digits v))) job.
Proof.
  unfold satisfies, with_salaryRange.
  cbn [Filters.search Filters.location Filters.category Filters.jobType
       Filters.experienceLevel Filters.datePosted Filters.salaryRange
       supplied_text constrains].
  now rewrite andb_true_r.
Qed.

(** X12. A [salaryRange] filter that holds no digit (such as [abc])
    makes [getJobs] return no job at all, whatever the jobs and the
    other filters. *)
Theorem getJobs_salaryRange_without_digit `{Runtime} (now : Z)
    (f : Filters.t) (s : MemStorage) (v : string) :
  truthy v = true -> strip_non_digits v = EmptyString ->
  fst (getJobs now (Some (with_salaryRange (Some v) f)) s) = [].
Proof.
  intros Hv Hstrip. rewrite getJobs_filter_sort. cbn [fst].
  rewrite filter_none; [reflexivity|].
  intros job _. rewrite satisfies_with_salaryRange.
  unfold supplied_text, constrains. rewrite Hv, Hstrip. cbn [parseInt].
  rewrite salary_keeps_NaN. apply andb_false_r.
Qed.

Lemma parseInt_truthy v m :
  parseInt (strip_non_digits v) = Some m -> truthy v = true.
Proof. destruct v; [discriminate | reflexivity]. Qed.

Lemma salary_keeps_lower m1 m2 job :
  m2 <= m1 ->
  salary_keeps (Some m1) job = true -> salary_keeps (Some m2) job = true.
Proof.
  intros Hle. unfold salary_keeps.
  destruct (Job.salary (Job.data job)) as [t|]; auto.
  destruct (negb (truthy t)); auto.
  destruct (salary_match t); auto.
  unfold num_ge. destruct (parseInt _); auto.
  rewrite !Z.leb_le. lia.
Qed.

(** X13. Lowering the salary range never loses a job: when the number
    read off [v2] is at most the number read off [v1], every job that
    [getJobs] returns for the range [v1] it returns for the range [v2],
    the other filters being the same. *)
Theorem getJobs_lower_salaryRange_keeps_jobs `{Runtime} (now : Z)
    (f : Filters.t) (s : MemStorage) (v1 v2 : string) (m1 m2 : Z) :
  parseInt (strip_non_digits v1) = Some m1 ->
  parseInt (strip_non_digits v2) = Some m2 ->
  m2 <= m1 ->
  forall job,
    In job (fst (getJobs now (Some (with_salaryRange (Some v1) f)) s)) ->
    In job (fst (getJobs now (Some (with_salaryRange (Some v2) f)) s)).
Proof.
  intros H1 H2 Hle job. rewrite !getJobs_filter_sort. cbn [fst].
  intros Hin. apply (Permutation_in _ (array_sort_perm _ _)) in Hin.
  apply (Permutation_in _ (Permutation_sym (array_sort_perm _ _))).
  apply filter_In in Hin. apply filter_In. destruct Hin as [Hin Hsat].
  split; auto. rewrite satisfies_with_salaryRange in Hsat |- *.
  apply andb_true_iff in Hsat. destruct Hsat as [Hrest Hsal].
  rewrite Hrest. cbn [andb]. unfold supplied_text, constrains in *.
  rewrite (parseInt_truthy _ _ H1) in Hsal.
  rewrite (parseInt_truthy _ _ H2). rewrite H1 in Hsal. rewrite H2.
  eapply salary_keeps_lower; eauto.
Qed.




Lemma match_here_other c s :
  Ascii.eqb c "$" = false -> match_here (String c s) = None.
Proof. intros Hc. unfold match_here. now rewrite Hc. Qed.

Lemma salary_match_skips pre rest :
  contains_char "$" pre = false ->
  salary_match (String.append pre rest) = salary_match rest.
Proof.
  induction pre as [|c pre IH]; auto. cbn [contains_char]. intros Hc.
  apply orb_false_iff in Hc. destruct Hc as [Hc Hpre].
  cbn [String.append salary_match]. rewrite (match_here_other _ _ Hc).
  now apply IH.
Qed.

(** X15. The salary filter looks at nothing before the first dollar
    sign: a salary text without a dollar sign never passes, and text
    without a dollar sign put in front of a salary text changes
    nothing. *)
Theorem salary_filter_starts_at_dollar (minSalary : option Z)
    (job : Job.t) (pre rest : string) :
  contains_char "$" pre = false ->
  salary_keeps minSalary (with_salary (Some pre) job) = false /\
  salary_keeps minSalary (with_salary (Some (String.append pre rest)) job)
  = salary_keeps minSalary (with_salary (Some rest) job).
Proof.
  intros Hpre. unfold salary_keeps, with_salary. cbn [Job.salary Job.data].
  split.
  - destruct (negb (truthy pre)); auto.
    pose proof (salary_match_skips pre EmptyString Hpre) as Hskip.
    assert (Happ : String.append pre EmptyString = pre).
    { clear. induction pre as [|c pre IH]; simpl; congruence. }
    rewrite Happ in Hskip. now rewrite Hskip.
  - rewrite (salary_match_skips _ _ Hpre).
    destruct pre as [|c pre]; [reflexivity|].
    cbn [String.append truthy negb].
    destruct rest as [|c' rest']; reflexivity.
Qed.


(* ================================================================== *)
(** * Further properties of the routes *)

(** ** The comma-separated lists of a query *)

Lemma split_comma_nonempty s : split_comma s <> [].
Proof.
  destruct s as [|c s]; simpl; [discriminate|].
  destruct (Ascii.eqb c ","); [discriminate|].
  destruct (split_comma s); discriminate.
Qed.

Lemma concat_split_comma s : String.concat "," (split_comma s) = s.
Proof.
  induction s as [|c s IH]; auto. cbn [split_comma].
  destruct (Ascii.eqb c ",") eqn:Hc.
  - apply Ascii.eqb_eq in Hc. subst c.
    destruct (split_comma s) as [|p ps] eqn:Hs;
      [now apply split_comma_nonempty in Hs|].
    rewrite <- IH. reflexivity.
  - destruct (split_comma s) as [|p ps] eqn:Hs;
      [now apply split_comma_nonempty in Hs|].
    rewrite <- IH. destruct ps as [|q qs]; reflexivity.
Qed.

Lemma split_comma_pieces s :
  Forall (fun piece => contains_char "," piece = false) (split_comma s).
Proof.
  induction s as [|c s IH]; [repeat constructor|]. cbn [split_comma].
  destruct (Ascii.eqb c ",") eqn:Hc.
  - constructor; auto.
  - destruct (split_comma s) as [|p ps];
      [repeat constructor; simpl; now rewrite Hc|].
    apply Forall_cons_iff in IH. destruct IH as [Hp Hps].
    constructor; auto. simpl. now rewrite Hc, Hp.
Qed.

Lemma split_comma_piece piece :
  contains_char "," piece = false -> split_comma piece = [piece].
Proof.
  induction piece as [|c piece IH]; auto. cbn [contains_char split_comma].
  intros Hc. apply orb_false_iff in Hc. destruct Hc as [-> Hp].
  now rewrite (IH Hp).
Qed.

Lemma split_comma_first piece rest :
  contains_char "," piece = false ->
  split_comma (String.append piece (String "," rest))
  = piece :: split_comma rest.
Proof.
  induction piece as [|c piece IH]; auto. cbn [contains_char].
  intros Hc. apply orb_false_iff in Hc. destruct Hc as [Hc Hp].
  cbn [String.append split_comma]. rewrite Hc. now rewrite (IH Hp).
Qed.

(** X17. [split(',')] and joining with commas undo each other: the
    pieces of a string, joined, give the string back, no piece holds a
    comma, there is always at least one piece, and a non-empty list of
    pieces without commas is what its joined string splits into. *)
Theorem split_comma_inverts_join (s : string) :
  String.concat "," (split_comma s) = s /\
  Forall (fun piece => contains_char "," piece = false) (split_comma s) /\
  split_comma s <> [] /\
  (forall pieces,
     pieces <> [] ->
     Forall (fun piece => contains_char "," piece = false) pieces ->
     split_comma (String.concat "," pieces) = pieces).
Proof.
  split; [apply concat_split_comma|]. split; [apply split_comma_pieces|].
  split; [apply split_comma_nonempty|].
  intros pieces Hne Hall. induction pieces as [|p ps IH]; [congruence|].
  apply Forall_cons_iff in Hall. destruct Hall as [Hp Hps].
  destruct ps as [|q qs].
  - cbn [String.concat]. now apply split_comma_piece.
  - change (String.concat "," (p :: q :: qs))
      with (String.append p (String "," (String.concat "," (q :: qs)))).
    rewrite (split_comma_first _ _ Hp). f_equal.
    apply IH; [discriminate | assumption].
Qed.


(** ** Ids in paths *)

Lemma digit_is_plain c :
  is_digit c = true ->
  is_space c = false /\ Ascii.eqb c "-" = false /\ Ascii.eqb c "+" = false /\
  Ascii.eqb c "x" = false /\ Ascii.eqb c "X" = false.
Proof.
  destruct c as [[] [] [] [] [] [] [] []]; vm_compute; intros Hd;
    try discriminate; repeat split.
Qed.

Lemma parse_digits_then acc d rest :
  all_digits d = true -> starts_with_digits 1 rest = false ->
  parse_digits acc (String.append d rest) = parse_digits acc d.
Proof.
  revert acc. induction d as [|c d IH]; intros acc Hd Hrest.
  - destruct rest as [|c rest]; auto. simpl in Hrest |- *.
    rewrite andb_true_r in Hrest. now rewrite Hrest.
  - cbn [all_digits] in Hd. apply andb_true_iff in Hd.
    destruct Hd as [Hc Hd]. cbn [String.append parse_digits].
    rewrite Hc. now apply IH.
Qed.

(** The digits of a number in a path are read in base ten and what
    follows them is ignored. *)
Lemma parseInt_any_digits c d rest :
  all_digits (String c d) = true -> ends_number rest = true ->
  parseInt_any (String.append (String c d) rest)
  = Some (parse_digits 0 (String c d)).
Proof.
  intros Hd Hrest. pose proof Hd as Hcd. cbn [all_digits] in Hcd.
  apply andb_true_iff in Hcd. destruct Hcd as [Hc Hd'].
  destruct (digit_is_plain c Hc) as (Hsp & Hminus & Hplus & _).
  assert (Hnodigit : starts_with_digits 1 rest = false).
  { destruct rest as [|r rest]; auto. simpl in Hrest |- *.
    rewrite andb_true_r. apply negb_true_iff in Hrest.
    apply orb_false_iff in Hrest. destruct Hrest as [Hrest _].
    apply orb_false_iff in Hrest. tauto. }
  unfold parseInt_any. cbn [String.append trim_start].
  rewrite Hsp, Hminus, Hplus. cbn [fst snd].
  assert (Hdec : parseInt (String c (String.append d rest))
                 = Some (parse_digits 0 (String c d))).
  { unfold parseInt. rewrite Hc.
    change (String c (String.append d rest))
      with (String.append (String c d) rest).
    now rewrite parse_digits_then. }
  assert (Hmag :
            match String c (String.append d rest) with
            | String c0 (String c1 r) =>
                if Ascii.eqb c0 "0" && (Ascii.eqb c1 "x" || Ascii.eqb c1 "X")
                then parse_hex r
                else parseInt (String c (String.append d rest))
            | _ => parseInt (String c (String.append d rest))
            end = Some (parse_digits 0 (String c d))).
  { destruct (String.append d rest) as [|c1 r] eqn:Happ; [exact Hdec|].
    assert (Hx : Ascii.eqb c1 "x" || Ascii.eqb c1 "X" = false).
    { destruct d as [|d0 d1].
      - simpl in Happ. subst rest. simpl in Hrest.
        apply negb_true_iff in Hrest.
        apply orb_false_iff in Hrest. destruct Hrest as [Hrest HX].
        apply orb_false_iff in Hrest. destruct Hrest as [_ Hx].
        now rewrite Hx, HX.
      - simpl in Happ. injection Happ as <- _.
        cbn [all_digits] in Hd'. apply andb_true_iff in Hd'.
        destruct (digit_is_plain d0 (proj1 Hd')) as (_ & _ & _ & -> & ->).
        reflexivity. }
    rewrite Hx, andb_false_r. exact Hdec. }
  rewrite Hmag. cbn [option_map]. f_equal.
  destruct (parse_digits 0 (String c d)); reflexivity.
Qed.

(** X19. An id in a path that [parseInt] cannot read as a number is
    answered like an id that nothing is stored under: 404 by the routes
    of a user and of a job, 200 with an empty list by the three routes
    that list; and text after the digits of an id is ignored, so that
    such an id is answered like its digits alone. *)
Theorem routes_read_ids_with_parseInt (s : MemStorage) :
  (forall id, parseInt_any id = None ->
     get_user id s
     = ({| read_status := 404; read_json := RMessage "User not found" |}, s)
     /\
     get_job id s
     = ({| read_status := 404; read_json := RMessage "Job not found" |}, s)
     /\
     get_employer_jobs id s
     = ({| read_status := 200; read_json := RJobs [] |}, s) /\
     get_job_applications id s
     = ({| read_status := 200; read_json := RApplications [] |}, s) /\
     get_user_applications id s
     = ({| read_status := 200; read_json := RApplications [] |}, s)) /\
  (forall c d rest,
     all_digits (String c d) = true -> ends_number rest = true ->
     let id := String.append (String c d) rest in
     get_user id s = get_user (String c d) s /\
     get_job id s = get_job (String c d) s /\
     get_employer_jobs id s = get_employer_jobs (String c d) s /\
     get_job_applications id s = get_job_applications (String c d) s /\
     get_user_applications id s = get_user_applications (String c d) s).
Proof.
  split.
  - intros id Hnan.
    unfold get_user, get_job, get_employer_jobs, get_job_applications,
      get_user_applications. rewrite Hnan. repeat split.
  - intros c d rest Hd Hrest id. subst id.
    assert (Hsame : parseInt_any (String.append (String c d) rest)
                    = parseInt_any (String c d)).
    { rewrite (parseInt_any_digits c d rest Hd Hrest).
      pose proof (parseInt_any_digits c d EmptyString Hd eq_refl) as He.
      assert (Happ : String.append (String c d) EmptyString = String c d).
      { clear. generalize (String c d). intros t.
        induction t as [|a t IH]; simpl; congruence. }
      rewrite Happ in He. now rewrite He. }
    unfold get_user, get_job, get_employer_jobs, get_job_applications,
      get_user_applications. rewrite Hsame. repeat split.
Qed.

(** ** Answers of the routes that write *)

(** X20. A user that [POST /api/users] answers 201 with is the user
    that [GET /api/users/:id] answers 200 with right afterwards, for
    every path id that [parseInt] reads as the user's id; and likewise
    for a job created by [POST /api/jobs] and [GET /api/jobs/:id]. *)
Theorem post_then_get_by_id (s : MemStorage) :
  (forall body u s' id,
     post_users body s = ({| status := 201; json := JUser u |}, s') ->
     parseInt_any id = Some (User.id u) ->
     get_user id s'
     = ({| read_status := 200; read_json := RUser u |}, s')) /\
  (forall now body j s' id,
     post_jobs now body s = ({| status := 201; json := JJob j |}, s') ->
     parseInt_any id = Some (Job.id j) ->
     get_job id s'
     = ({| read_status := 200; read_json := RJob j |}, s')).
Proof.
  split.
  - intros body u s' id Hpost Hid.
    destruct (post_users_cases body s) as [[H400 _]|(user & _ & Hcreated)].
    + rewrite Hpost in H400. discriminate.
    + rewrite Hcreated in Hpost. injection Hpost as <- <-.
      unfold get_user. rewrite Hid. cbn [lookup User.id].
      unfold bind. run_store. now rewrite get_set_eq.
  - intros now body j s' id Hpost Hid.
    destruct (post_jobs_cases now body s) as [[H400 _]|(job & Hcreated)].
    + rewrite Hpost in H400. discriminate.
    + rewrite Hcreated in Hpost.
      assert (Hj : j = fst (createJob job s)) by congruence.
      assert (Hs' : s' = snd (createJob job s)) by congruence.
      clear Hpost Hcreated. subst j s'.
      pose proof (createJob_then_getJob s job) as Hget.
      unfold get_job. rewrite Hid. cbn [lookup]. unfold bind.
      revert Hget. generalize (createJob job s). intros r Hget.
      now rewrite Hget.
Qed.

(** X21. Each of the three [POST] routes answers 201 or 400, and a
    request that it answers 400 leaves the store as it was; a request
    that it answers 201 adds one record under the next id of its
    collection. *)
Theorem post_answers_201_or_400 (s : MemStorage) :
  (forall body,
     let r := post_users body s in
     (status (fst r) = 400 /\ snd r = s) \/
     (status (fst r) = 201 /\
      exists user, snd r = snd (createUser user s) /\
                   json (fst r) = JUser (fst (createUser user s)))) /\
  (forall now body,
     let r := post_jobs now body s in
     (status (fst r) = 400 /\ snd r = s) \/
     (status (fst r) = 201 /\
      exists job, snd r = snd (createJob job s) /\
                  json (fst r) = JJob (fst (createJob job s)))) /\
  (forall now body,
     let r := post_applications now body s in
     (status (fst r) = 400 /\ snd r = s) \/
     (status (fst r) = 201 /\
      exists application,
        snd r = snd (createApplication application s) /\
        json (fst r) = JApplication (fst (createApplication application s)))).
Proof.
  split; [|split].
  - intros body r. subst r.
    destruct (post_users_cases body s) as [H400|(user & _ & ->)];
      [left; exact H400|].
    right. split; [reflexivity|]. exists user. split; reflexivity.
  - intros now body r. subst r.
    destruct (post_jobs_cases now body s) as [H400|(job & ->)];
      [left; exact H400|].
    right. split; [reflexivity|]. exists job. split; reflexivity.
  - intros now body r. subst r.
    destruct (post_applications_cases now body s) as [H400|(app & ->)];
      [left; exact H400|].
    right. split; [reflexivity|]. exists app. split; reflexivity.
Qed.

(** X22. [PATCH /api/applications/:id/status] with a status that is
    absent or empty is answered 400 whatever the id; with a non-empty
    status and an id that is no number or has no application it is
    answered 404; in both cases the store is as it was.  With a
    non-empty status and the id of an application it is answered 200
    with that application under its new status, which is what is then
    stored under the id. *)
Theorem patch_application_status_spec (s : MemStorage) (id : string) :
  patch_application_status id None s
    = ({| status := 400; json := JMessage "Status is required" |}, s) /\
  patch_application_status id (Some EmptyString) s
    = ({| status := 400; json := JMessage "Status is required" |}, s) /\
  (forall st, truthy st = true ->
     (parseInt_any id = None \/
      exists k, parseInt_any id = Some k /\
                JsMap.get k (applications s) = None) ->
     patch_application_status id (Some st) s
     = ({| status := 404; json := JMessage "Application not found" |}, s)) /\
  (forall st k a, truthy st = true ->
     parseInt_any id = Some k ->
     JsMap.get k (applications s) = Some a ->
     let updated :=
       {| Application.id := Application.id a;
          Application.data :=
            Application.with_status st (Application.data a) |} in
     fst (patch_application_status id (Some st) s)
     = {| status := 200; json := JApplication updated |} /\
     JsMap.get k (applications (snd (patch_application_status id (Some st) s)))
     = Some updated).
Proof.
  split; [reflexivity|]. split; [reflexivity|]. split.
  - intros st Hst Hid. unfold patch_application_status. rewrite Hst.
    cbn [negb]. destruct Hid as [->|(k & -> & Hget)]; [reflexivity|].
    cbn [lookup]. unfold bind. run_store. now rewrite Hget.
  - intros st k a Hst Hid Hget updated. subst updated.
    unfold patch_application_status. rewrite Hst, Hid.
    cbn [negb lookup]. unfold bind. run_store. rewrite Hget. fields.
    split; [reflexivity | apply get_set_eq].
Qed.

(* ================================================================== *)
(** * The further properties at sample stores *)

Lemma incrementCategoryJobCount_spec_witness :
  incrementCategoryJobCount 99 constructor = (None, constructor) /\
  (exists c',
     fst (incrementCategoryJobCount 1 constructor) = Some c' /\
     Category.name (Category.data c') = "Technology" /\
     Category.jobCount (Category.data c') = Some (Double.of_Z 1246)) /\
  (exists c',
     fst (incrementCategoryJobCount 9
            (run (CreateCategory uncounted_remote) constructor)) = Some c' /\
     Category.jobCount (Category.data c') = Some Double.NaN).
Proof.
  split; [|split].
  - apply (proj1 (incrementCategoryJobCount_spec constructor 99)).
    reflexivity.
  - destruct (proj2 (incrementCategoryJobCount_spec constructor 1)
                first_technology eq_refl)
      as (c' & Hret & _ & (_ & Hname & _) & _ & Hone & _).
    exists c'. split; [exact Hret|]. split; [exact Hname|].
    apply (Hone 1245); [lia | reflexivity].
  - destruct (proj2 (incrementCategoryJobCount_spec
                       (run (CreateCategory uncounted_remote) constructor) 9)
                {| Category.id := 9; Category.data := uncounted_remote |}
                eq_refl)
      as (c' & Hret & _ & _ & _ & _ & _ & Hnan & _).
    exists c'. split; [exact Hret|]. apply Hnan. left. reflexivity.
Defined.

Lemma jobCount_never_decreases_witness :
  exists c' z',
    JsMap.get 1 (categories
                   (run_all [CreateJob technology_job;
                             IncrementCategoryJobCount 1] constructor))
    = Some c' /\
    Category.jobCount (Category.data c') = Some (Double.of_Z z') /\
    1245 <= z' <= 2 ^ 53.
Proof.
  destruct (jobCount_never_decreases constructor
              [CreateJob technology_job; IncrementCategoryJobCount 1]
              1 first_technology 1245 reachable_new eq_refl)
    as (c' & z' & Hget & _ & _ & _ & Hcount & _ & Hle);
    [lia | reflexivity |].
  exists c', z'. repeat split; try assumption; lia.
Defined.

Lemma getCategories_in_creation_order_witness :
  map Category.id (fst (getCategories constructor))
  = [1; 2; 3; 4; 5; 6; 7; 8].
Proof.
  apply (proj1 (getCategories_in_creation_order constructor reachable_new)).
Defined.

Lemma getJobsByEmployer_after_createJob_witness :
  fst (getJobsByEmployer 1 (snd (createJob technology_job constructor)))
  = [ {| Job.id := 1; Job.data := technology_job |} ].
Proof.
  apply (getJobsByEmployer_after_createJob constructor technology_job 1
           reachable_new).
Defined.

Lemma application_lists_after_createApplication_witness :
  fst (getApplicationsByJob 1
         (snd (createApplication sample_application constructor)))
  = [ {| Application.id := 1; Application.data := sample_application |} ].
Proof.
  apply (proj1 (application_lists_after_createApplication constructor
                  sample_application 1 1 reachable_new)).
Defined.

Lemma application_lists_after_status_update_witness :
  let s := run (CreateApplication sample_application) constructor in
  fst (getApplicationsByJob 1 (snd (updateApplicationStatus 1 "hired" s)))
  = [ {| Application.id := 1;
         Application.data :=
           Application.with_status "hired" sample_application |} ].
Proof.
  intros s.
  apply (proj1 (application_lists_after_status_update s 1 "hired" 1 1
                  (reachable_call _ _ reachable_new))).
Defined.

Lemma listed_records_are_found_by_id_witness :
  let s := run (CreateJob technology_job) constructor in
  fst (getJob 1 s) = Some {| Job.id := 1; Job.data := technology_job |}.
Proof.
  intros s.
  apply (proj1 (@listed_records_are_found_by_id ascii_utc s
                  (reachable_call _ _ reachable_new))
           0 None {| Job.id := 1; Job.data := technology_job |}).
  vm_compute. left. reflexivity.
Defined.

Lemma getUserByUsername_after_createUser_witness :
  fst (getUserByUsername "ada" (snd (createUser sample_user constructor)))
  = Some {| User.id := 1; User.data := sample_user |}.
Proof.
  apply (getUserByUsername_after_createUser constructor sample_user "ada"
           reachable_new).
Defined.

Lemma served_usernames_unique_witness :
  let s := serve_all [PostUsers (user_body "ada");
                      PostUsers (user_body "ada");
                      PostUsers (user_body "bob")] constructor in
  served s /\ usernames s = ["ada"; "bob"] /\ NoDup (usernames s).
Proof.
  intros s.
  assert (Hs : served s).
  { apply (served_request _ (PostUsers (user_body "bob"))).
    apply (served_request _ (PostUsers (user_body "ada"))).
    apply (served_request _ (PostUsers (user_body "ada"))).
    apply served_new. }
  split; [exact Hs|]. split; [vm_compute; reflexivity|].
  apply (proj1 (served_usernames_unique s Hs)).
Defined.

Lemma served_jobCounts_track_jobs_witness :
  let s := serve (PostJobs 0 technology_job_body) constructor in
  served s /\
  map (fun c => Category.jobCount (Category.data c)) (fst (getCategories s))
  = map (fun z => Some (Double.of_Z z))
        [1246; 879; 623; 542; 1032; 478; 326; 587].
Proof.
  intros s.
  assert (Hs : served s) by (apply served_request, served_new).
  split; [exact Hs|].
  rewrite (proj1 (served_jobCounts_track_jobs s Hs)). vm_compute.
  reflexivity.
Defined.

Lemma getJobs_unknown_datePosted_is_unset_witness :
  @getJobs ascii_utc 0 (Some (with_datePosted (Some "all") no_filters))
    constructor
  = @getJobs ascii_utc 0 (Some (with_datePosted None no_filters))
      constructor.
Proof.
  apply (@getJobs_unknown_datePosted_is_unset ascii_utc 0 no_filters
           constructor "all"); discriminate.
Defined.

Lemma getJobs_salaryRange_without_digit_witness :
  fst (@getJobs ascii_utc 0
         (Some (with_salaryRange (Some "abc") no_filters))
         (run (CreateJob (design_job (Some "$60,000") 0)) constructor))
  = [].
Proof.
  apply (@getJobs_salaryRange_without_digit ascii_utc); reflexivity.
Defined.

Lemma getJobs_lower_salaryRange_keeps_jobs_witness :
  let s := run (CreateJob (design_job (Some "$100,000") 0)) constructor in
  let job := {| Job.id := 1; Job.data := design_job (Some "$100,000") 0 |} in
  In job (fst (@getJobs ascii_utc 0
                 (Some (with_salaryRange (Some "$90,000") no_filters)) s)) /\
  In job (fst (@getJobs ascii_utc 0
                 (Some (with_salaryRange (Some "$55,000") no_filters)) s)).
Proof.
  intros s job.
  assert (Hin : In job (fst (@getJobs ascii_utc 0
                   (Some (with_salaryRange (Some "$90,000") no_filters)) s)))
    by (vm_compute; left; reflexivity).
  split; [exact Hin|].
  apply (@getJobs_lower_salaryRange_keeps_jobs ascii_utc 0 no_filters s
           "$90,000" "$55,000" 90000 55000);
    [reflexivity | reflexivity | lia | exact Hin].
Defined.

Lemma salary_filter_starts_at_dollar_witness :
  let job := {| Job.id := 1; Job.data := design_job None 0 |} in
  salary_keeps (Some 1) (with_salary (Some "negotiable") job) = false /\
  salary_keeps (Some 1) (with_salary (Some "up to $50,000") job)
  = salary_keeps (Some 1) (with_salary (Some "$50,000") job).
Proof.
  intros job. split.
  - apply (proj1 (salary_filter_starts_at_dollar (Some 1) job
                    "negotiable" EmptyString eq_refl)).
  - apply (proj2 (salary_filter_starts_at_dollar (Some 1) job
                    "up to " "$50,000" eq_refl)).
Defined.


Lemma split_comma_inverts_join_witness :
  split_comma "full-time,contract" = ["full-time"; "contract"] /\
  split_comma (String.concat "," ["a"; ""; "b"]) = ["a"; ""; "b"].
Proof.
  split; [reflexivity|].
  apply (proj2 (proj2 (proj2 (split_comma_inverts_join EmptyString)))).
  - discriminate.
  - repeat constructor.
Defined.


Lemma routes_read_ids_with_parseInt_witness :
  get_user "abc" constructor
  = ({| read_status := 404; read_json := RMessage "User not found" |},
     constructor) /\
  get_job "12abc" constructor = get_job "12" constructor.
Proof.
  split.
  - apply (proj1 (routes_read_ids_with_parseInt constructor) "abc" eq_refl).
  - destruct (proj2 (routes_read_ids_with_parseInt constructor)
                "1"%char "2" "abc" eq_refl eq_refl) as (_ & Hjob & _).
    exact Hjob.
Defined.

Lemma post_then_get_by_id_witness :
  let s' := run (CreateUser sample_user) constructor in
  get_user "1" s'
  = ({| read_status := 200;
        read_json := RUser {| User.id := 1; User.data := sample_user |} |},
     s').
Proof.
  intros s'.
  apply (proj1 (post_then_get_by_id constructor) (user_body "ada"));
    reflexivity.
Defined.

Lemma patch_application_status_spec_witness :
  let s := run (CreateApplication sample_application) constructor in
  patch_application_status "7" (Some "hired") s
  = ({| status := 404; json := JMessage "Application not found" |}, s) /\
  fst (patch_application_status "1" (Some "hired") s)
  = {| status := 200;
       json :=
         JApplication
           {| Application.id := 1;
              Application.data :=
                Application.with_status "hired" sample_application |} |}.
Proof.
  intros s. split.
  - apply (proj1 (proj2 (proj2 (patch_application_status_spec s "7")))
             "hired" eq_refl).
    right. exists 7. split; reflexivity.
  - apply (proj1 (proj2 (proj2 (proj2 (patch_application_status_spec s "1")))
                    "hired" 1
                    {| Application.id := 1;
                       Application.data := sample_application |}
                    eq_refl eq_refl eq_refl)).
Defined.

(* ================================================================== *)
(** * What a write leaves alone *)

(** X24. Each write of the store changes its own collection and counter
    only: [createUser], [createApplication] and [createCategory] leave
    the three other collections and the three other counters as they
    were, so an application is stored whether or not its job and its
    user exist; [createJob] leaves the users, the applications and their
    counters as they were and changes no key of the categories; a
    status update leaves the users, the jobs, the categories and all
    four counters as they were and changes no key of the
    applications. *)
Theorem writes_keep_other_collections (s : MemStorage) :
  (forall user,
     let s' := snd (createUser user s) in
     jobs s' = jobs s /\ applications s' = applications s /\
     categories s' = categories s /\ jobIdCounter s' = jobIdCounter s /\
     applicationIdCounter s' = applicationIdCounter s /\
     categoryIdCounter s' = categoryIdCounter s) /\
  (forall application,
     let s' := snd (createApplication application s) in
     users s' = users s /\ jobs s' = jobs s /\
     categories s' = categories s /\ userIdCounter s' = userIdCounter s /\
     jobIdCounter s' = jobIdCounter s /\
     categoryIdCounter s' = categoryIdCounter s /\
     JsMap.get (applicationIdCounter s) (applications s')
     = Some {| Application.id := applicationIdCounter s;
               Application.data := application |}) /\
  (forall category,
     let s' := snd (createCategory category s) in
     users s' = users s /\ jobs s' = jobs s /\
     applications s' = applications s /\
     userIdCounter s' = userIdCounter s /\
     jobIdCounter s' = jobIdCounter s /\
     applicationIdCounter s' = applicationIdCounter s) /\
  (forall job,
     let s' := snd (createJob job s) in
     users s' = users s /\ applications s' = applications s /\
     userIdCounter s' = userIdCounter s /\
     applicationIdCounter s' = applicationIdCounter s /\
     categoryIdCounter s' = categoryIdCounter s /\
     JsMap.keys (categories s') = JsMap.keys (categories s)) /\
  (forall id status,
     let s' := snd (updateApplicationStatus id status s) in
     users s' = users s /\ jobs s' = jobs s /\
     categories s' = categories s /\ userIdCounter s' = userIdCounter s /\
     jobIdCounter s' = jobIdCounter s /\
     applicationIdCounter s' = applicationIdCounter s /\
     categoryIdCounter s' = categoryIdCounter s /\
     JsMap.keys (applications s') = JsMap.keys (applications s)).
Proof.
  split; [|split; [|split; [|split]]].
  - intros user. run_store. repeat split.
  - intros application. run_store. repeat split. apply get_set_eq.
  - intros category. run_store. repeat split.
  - intros job. cbv zeta.
    pose proof (createJob_frame job s) as (Hu & Ha & _ & Huc & Hac & Hcc & Hk).
    repeat split; assumption.
  - intros id status. run_store.
    destruct (JsMap.get id (applications s)) as [a|] eqn:Hget; fields;
      repeat split.
    apply keys_set_present.
    destruct (in_dec Z.eq_dec id (JsMap.keys (applications s))) as [|Hn];
      auto.
    apply get_none_iff in Hn. congruence.
Qed.
